(** * Bespoke-array logging profiles (hphp/runtime/base/bespoke)

    A shallow embedding of [logging-profile.cpp]: the packed [EventKey],
    the per-source [LoggingProfile], the per-sink [SinkProfile], the two
    process-wide profile tables behind the export gate, and the aggregation
    of the source profiles that [exportProfiles] runs on its worker;
    together with the index allocator declared in [layout.h].

    Conventions.  A C++ unsigned w-bit integer is a [Z] in [0, 2^w) and every
    arithmetic step that can leave the range is wrapped explicitly.  A
    [double] is a [spec_float] of the Standard Library at binary64
    precision.  A pointer into the heap is the [Z] of its address.  A
    [tbb::concurrent_hash_map] is a [gmap]; each operation that runs under an
    accessor or under the export gate's read lock is one atomic step. *)

From Stdlib Require Import ZArith Zpower Bool List Lia SpecFloat.
From stdpp Require Import base option list sorting gmap strings pretty.

Local Open Scope Z_scope.

(** ** Machine integers *)

Module Int.

Record IntType := { lo : Z; hi : Z }.

Definition int8_t   : IntType := {| lo := - 2^7;  hi := 2^7 - 1 |}.
Definition int16_t  : IntType := {| lo := - 2^15; hi := 2^15 - 1 |}.
Definition int32_t  : IntType := {| lo := - 2^31; hi := 2^31 - 1 |}.
Definition int64_t  : IntType := {| lo := - 2^63; hi := 2^63 - 1 |}.
Definition uint8_t  : IntType := {| lo := 0; hi := 2^8 - 1 |}.
Definition uint16_t : IntType := {| lo := 0; hi := 2^16 - 1 |}.
Definition uint32_t : IntType := {| lo := 0; hi := 2^32 - 1 |}.
Definition uint64_t : IntType := {| lo := 0; hi := 2^64 - 1 |}.
Definition uintptr_t : IntType := uint64_t.

(** [template <typename T, typename U> bool fits(U u)] *)
Definition fits (T : IntType) (u : Z) : bool :=
  (lo T <=? u) && (u <=? hi T).

(** [safe_cast<T>]: a narrowing conversion that is checked; a value out of
    range is an assertion failure, here [None]. *)
Definition safe_cast (T : IntType) (u : Z) : option Z :=
  if fits T u then Some u else None.

Definition kInt8Min : Z := lo int8_t.

(** Unsigned 64-bit wrap-around, for [uint64_t] and [size_t] counters. *)
Definition wrap64 (x : Z) : Z := x mod 2^64.

(** [c++] on a 64-bit counter. *)
Definition incr64 (c : Z) : Z := wrap64 (c + 1).

End Int.

(** ** Source keys *)

Inductive ResumeMode := ResumeNone | ResumeAsync | ResumeGenIter.

#[global] Instance ResumeMode_eq_dec : EqDecision ResumeMode.
Proof. solve_decision. Defined.

(** Modelled from the spec: SrcKey is declared in srckey.h, which is not
    among the sources.  It is a value that compares by its (function,
    bytecode offset, resume mode) triple.  The default-constructed key
    [SrcKey()], the one that [valid()] rejects, carries the invalid function
    id, offset 0 and resume mode None. *)
Record SrcKey := mkSrcKey {
  funcID : option Z;          (* [None]: FuncId::Invalid *)
  offset : Z;
  resumeMode : ResumeMode
}.

#[global] Instance SrcKey_eq_dec : EqDecision SrcKey.
Proof. solve_decision. Defined.

Definition ResumeMode_to_nat (r : ResumeMode) : nat :=
  match r with ResumeNone => 0 | ResumeAsync => 1 | ResumeGenIter => 2 end.

Definition ResumeMode_of_nat (n : nat) : ResumeMode :=
  match n with O => ResumeNone | S O => ResumeAsync | _ => ResumeGenIter end.

#[global] Instance ResumeMode_countable : Countable ResumeMode.
Proof.
  apply (inj_countable' ResumeMode_to_nat ResumeMode_of_nat).
  now intros [].
Defined.

#[global] Instance SrcKey_countable : Countable SrcKey.
Proof.
  apply (inj_countable'
           (fun sk => (funcID sk, offset sk, resumeMode sk))
           (fun t => mkSrcKey t.1.1 t.1.2 t.2)).
  now intros [].
Defined.

(** [SrcKey()] / [SrcKey{}] *)
Definition SrcKey_empty : SrcKey :=
  {| funcID := None; offset := 0; resumeMode := ResumeNone |}.

Definition valid (sk : SrcKey) : bool :=
  match funcID sk with Some _ => true | None => false end.

(** [canonicalize]: [assertx(sk.valid())] is the failure case. *)
Definition canonicalize (sk : SrcKey) : option SrcKey :=
  if valid sk
  then Some {| funcID := funcID sk; offset := offset sk;
               resumeMode := ResumeNone |}
  else None.

(** ** What the profiling code takes from the rest of the runtime

    The declarations below are used by logging-profile.cpp and are defined
    in headers outside this directory ([logging-profile.h], [datatype.h],
    [string-data.h], [array-data.h], [entry-types.h], [hhbc.h], folly).  They
    are parameters of the development. *)

(** The bytecodes that the profiling code tells apart. *)
Inductive Op := OpArray | OpVec | OpDict | OpKeyset | OpIsTypeStructC
              | OpOther (code : Z).

#[global] Instance Op_eq_dec : EqDecision Op.
Proof. solve_decision. Defined.

Inductive ValueTypes := ValuesEmpty | Monotype | ValuesAny.

#[global] Instance ValueTypes_eq_dec : EqDecision ValueTypes.
Proof. solve_decision. Defined.

Class Runtime := {
  (* ARRAY_OPS: [enum class ArrayOp : uint8_t], names and read flags *)
  ArrayOp : Type;
  ArrayOp_eq_dec :: EqDecision ArrayOp;
  ReleaseUncounted : ArrayOp;
  arrayOpToString : ArrayOp -> string;
  arrayOpIsRead : ArrayOp -> bool;
  ArrayOp_raw : ArrayOp -> Z;
  ArrayOp_of_raw : Z -> ArrayOp;
  (* DataType (an int8_t enumeration) *)
  kInvalidDataType : Z;
  KindOfInt64 : Z;
  KindOfString : Z;
  KindOfPersistentString : Z;
  kMinDataType : Z;
  dt_modulo_persistence : Z -> Z;
  tname : Z -> string;
  (* StringData objects in memory, by address *)
  isStatic : Z -> bool;
  data : Z -> string;
  (* folly::cEscape *)
  cEscape : string -> string;
  (* EntryTypes and KeyTypes (entry-types.h): the fields read here, the
     enumerator values of KeyTypes, and the 16-bit summary *)
  KeyTypes : Type;
  KeyTypes_raw : KeyTypes -> Z;
  EntryTypes : Type;
  keyTypes : EntryTypes -> KeyTypes;
  valueTypes : EntryTypes -> ValueTypes;
  valueDatatype : EntryTypes -> Z;
  asInt16 : EntryTypes -> Z;
  EntryTypes_of_int16 : Z -> EntryTypes;
  (* SinkProfile's histogram sizes and reserved value slots *)
  kNumArrTypes : Z;
  kNumKeyTypes : Z;
  kNumValTypes : Z;
  kNoValTypes : Z;
  kAnyValType : Z;
  (* LoggingArray::GetLayoutIndex().raw *)
  LoggingArray_index : Z;
  (* bytecode at a source key: sk.op() and sk.advanced() *)
  sk_op : SrcKey -> Op;
  advanced : SrcKey -> SrcKey;
  (* functions, by the address of the Func: func->contains(pc), the id of
     the function, and the offset that SrcKey(func, pc, mode) records *)
  Func_contains : Z -> Z -> bool;
  Func_id : Z -> Z;
  Func_offsetOf : Z -> Z -> Z;
  (* configuration: allowBespokeArrayLikes() and
     RO::EvalExportLoggingArrayDataPath *)
  allowBespokeArrayLikes : bool;
  EvalExportLoggingArrayDataPath : string;
  (* static arrays, by address: the literal of the instruction at a source
     key, LoggingArray::MakeStatic and ArrayData::makeSampledStaticArray *)
  lookupArrayId : SrcKey -> Z;
  MakeStatic : Z -> SrcKey -> Z;
  makeSampledStaticArray : Z -> Z
}.

(** ** Typed values *)

Inductive TypedValue :=
| TVInt (num : Z)                           (* KindOfInt64 *)
| TVStr (persistent : bool) (pstr : Z)      (* a StringData pointer *)
| TVOther (dt : Z).

Section WithRuntime.
Context `{RT : Runtime}.

Definition type (v : TypedValue) : Z :=
  match v with
  | TVInt _ => KindOfInt64
  | TVStr p _ => if p then KindOfPersistentString else KindOfString
  | TVOther dt => dt
  end.

(** ** EventKey *)

Inductive Spec := SpecNone | Int8 | Int16 | Int32 | Int64 | Str32 | Str.

#[global] Instance Spec_eq_dec : EqDecision Spec.
Proof. solve_decision. Defined.

Record EventKey := mkEventKey {
  m_op : ArrayOp;
  m_key_spec : Spec;
  m_val_spec : Spec;
  m_val_type : Z;
  m_key : Z              (* uint32_t; set for Int8 and Str32 *)
}.

#[global] Instance EventKey_eq_dec : EqDecision EventKey.
Proof. solve_decision. Defined.

Definition getSpec (v : TypedValue) : Spec :=
  match v with
  | TVStr _ pstr =>
      if negb (isStatic pstr) then Str
      else if Int.fits Int.uint32_t pstr then Str32 else Str
  | TVInt num =>
      if Int.fits Int.int8_t num then Int8
      else if Int.fits Int.int16_t num then Int16
      else if Int.fits Int.int32_t num then Int32
      else Int64
  | TVOther _ => SpecNone
  end.

(** The member initialisers, with the operation set by [setOp]. *)
Definition EventKey_init (op : ArrayOp) : EventKey :=
  {| m_op := op; m_key_spec := SpecNone; m_val_spec := SpecNone;
     m_val_type := kInvalidDataType; m_key := 0 |}.

Definition set_key_spec (s : Spec) (e : EventKey) : EventKey :=
  {| m_op := m_op e; m_key_spec := s; m_val_spec := m_val_spec e;
     m_val_type := m_val_type e; m_key := m_key e |}.

Definition set_m_key (k : Z) (e : EventKey) : EventKey :=
  {| m_op := m_op e; m_key_spec := m_key_spec e; m_val_spec := m_val_spec e;
     m_val_type := m_val_type e; m_key := k |}.

(** [setKey(int64_t k)] *)
Definition setKey_int (k : Z) (e : EventKey) : option EventKey :=
  let e := set_key_spec (getSpec (TVInt k)) e in
  if decide (m_key_spec e = Int8)
  then m ← Int.safe_cast Int.uint32_t (k - Int.kInt8Min); Some (set_m_key m e)
  else Some e.

(** [setKey(const StringData* k)] *)
Definition setKey_str (k : Z) (e : EventKey) : option EventKey :=
  let e := set_key_spec (getSpec (TVStr false k)) e in
  if decide (m_key_spec e = Str32)
  then m ← Int.safe_cast Int.uint32_t k; Some (set_m_key m e)
  else Some e.

Definition setVal (v : TypedValue) (e : EventKey) : EventKey :=
  {| m_op := m_op e; m_key_spec := m_key_spec e; m_val_spec := getSpec v;
     m_val_type := dt_modulo_persistence (type v); m_key := m_key e |}.

(** The six constructors. *)
Definition EventKey_op (op : ArrayOp) : option EventKey :=
  Some (EventKey_init op).
Definition EventKey_int (op : ArrayOp) (k : Z) : option EventKey :=
  setKey_int k (EventKey_init op).
Definition EventKey_str (op : ArrayOp) (k : Z) : option EventKey :=
  setKey_str k (EventKey_init op).
Definition EventKey_val (op : ArrayOp) (v : TypedValue) : option EventKey :=
  Some (setVal v (EventKey_init op)).
Definition EventKey_int_val (op : ArrayOp) (k : Z) (v : TypedValue)
  : option EventKey :=
  setVal v <$> setKey_int k (EventKey_init op).
Definition EventKey_str_val (op : ArrayOp) (k : Z) (v : TypedValue)
  : option EventKey :=
  setVal v <$> setKey_str k (EventKey_init op).

Definition Spec_raw (s : Spec) : Z :=
  match s with
  | SpecNone => 0 | Int8 => 1 | Int16 => 2 | Int32 => 3 | Int64 => 4
  | Str32 => 5 | Str => 6
  end.

Definition Spec_of_raw (z : Z) : Spec :=
  match z with
  | 1 => Int8 | 2 => Int16 | 3 => Int32 | 4 => Int64 | 5 => Str32 | 6 => Str
  | _ => SpecNone
  end.

(** [toUInt64]: the eight bytes of the object read as a little-endian
    integer.  Byte 0 is the operation, bytes 1 and 2 the two specs, byte 3
    the value datatype (two's complement), bytes 4-7 [m_key]. *)
Definition toUInt64 (e : EventKey) : Z :=
  ArrayOp_raw (m_op e)
  + 2^8 * Spec_raw (m_key_spec e)
  + 2^16 * Spec_raw (m_val_spec e)
  + 2^24 * (m_val_type e mod 2^8)
  + 2^32 * m_key e.

Definition sign_extend8 (b : Z) : Z := if b <? 2^7 then b else b - 2^8.

(** The values that the members of an [EventKey] object hold: [m_op] is an
    enumerator of [ArrayOp], an enumeration over [uint8_t]; [m_val_type] is
    a [DataType], an [int8_t]; [m_key] is a [uint32_t]. *)
Definition EventKey_representable (e : EventKey) : Prop :=
  0 <= ArrayOp_raw (m_op e) < 2^8
  /\ ArrayOp_of_raw (ArrayOp_raw (m_op e)) = m_op e
  /\ -2^7 <= m_val_type e < 2^7
  /\ 0 <= m_key e < 2^32.

(** [explicit EventKey(uint64_t value)] *)
Definition EventKey_of_uint64 (value : Z) : EventKey :=
  {| m_op := ArrayOp_of_raw (value mod 2^8);
     m_key_spec := Spec_of_raw ((value / 2^8) mod 2^8);
     m_val_spec := Spec_of_raw ((value / 2^16) mod 2^8);
     m_val_type := sign_extend8 ((value / 2^24) mod 2^8);
     m_key := (value / 2^32) mod 2^32 |}.

Definition getOp (e : EventKey) : ArrayOp := m_op e.

Definition specToStr (s : Spec) : string :=
  match s with
  | SpecNone => "none" | Int8 => "i8" | Int16 => "i16" | Int32 => "i32"
  | Int64 => "i64" | Str32 => "s32" | Str => "str"
  end.

Definition quote : string := String (Ascii.ascii_of_nat 34) EmptyString.

(** The [key] lambda of [EventKey::toString].  An integer argument of
    [folly::sformat] is printed in decimal. *)
Definition key_toString (e : EventKey) : option string :=
  let spec := m_key_spec e in
  if decide (spec = SpecNone) then Some EmptyString
  else if decide (spec = Int8) then
    w ← Int.safe_cast Int.int16_t (m_key e);
    i ← Int.safe_cast Int.int8_t (w + Int.kInt8Min);
    Some (" key=[i8:" +:+ pretty i +:+ "]")
  else if decide (spec = Str32) then
    p ← Int.safe_cast Int.uintptr_t (m_key e);
    Some (" key=[s32:" +:+ quote +:+ cEscape (data p) +:+ quote +:+ "]")
  else Some (" key=[" +:+ specToStr spec +:+ "]").

(** The [val] lambda. *)
Definition val_toString (e : EventKey) : string :=
  if decide (m_val_type e = kInvalidDataType) then EmptyString
  else if decide (m_val_spec e = SpecNone)
       then " val=[" +:+ tname (m_val_type e) +:+ "]"
       else " val=[" +:+ specToStr (m_val_spec e) +:+ "]".

Definition toString (e : EventKey) : option string :=
  key ← key_toString e;
  Some (arrayOpToString (m_op e) +:+ key +:+ val_toString e).

(** ** double *)

Definition double := spec_float.
Definition double_prec : Z := 53.
Definition double_emax : Z := 1024.

(** Conversion of an unsigned integer, rounding to nearest even. *)
Definition double_of_uint64 (n : Z) : double :=
  binary_normalize double_prec double_emax n 0 false.
Definition double_mul : double -> double -> double :=
  SFmul double_prec double_emax.
Definition double_div : double -> double -> double :=
  SFdiv double_prec double_emax.
Definition double_zero : double := S754_zero false.

(** Zero or a positive finite number: neither NaN nor an infinity. *)
Definition finite_nonneg (x : double) : Prop :=
  match x with
  | S754_zero false | S754_finite false _ _ => True
  | _ => False
  end.

Definition is_nan (x : double) : bool :=
  match x with S754_nan => true | _ => false end.

Definition is_infinity (x : double) : bool :=
  match x with S754_infinity _ => true | _ => false end.

(** ** The current VM position *)

Inductive VMRegState := CLEAN | DIRTY.

#[global] Instance VMRegState_eq_dec : EqDecision VMRegState.
Proof. solve_decision. Defined.

(** The calling thread: whether it has an RDS header, and the VM registers
    as they read once a soft VMRegAnchor has been dropped: the register
    state, the function of the frame that [vmfp()] points to, and [vmpc()]. *)
Record Thread := {
  rds_header : bool;
  tl_regState : VMRegState;
  vmfp : option Z;              (* [None]: vmfp() == nullptr *)
  vmpc : Z
}.

(** [SrcKey(func, pc, mode)] *)
Definition SrcKey_at (func pc : Z) (mode : ResumeMode) : SrcKey :=
  {| funcID := Some (Func_id func); offset := Func_offsetOf func pc;
     resumeMode := mode |}.

Definition getSrcKey (t : Thread) : option SrcKey :=
  (* If there are no VM frames, don't drop an anchor *)
  if negb (rds_header t) then Some SrcKey_empty
  else if negb (bool_decide (tl_regState t = CLEAN))
          || bool_decide (vmfp t = None)
  then Some SrcKey_empty
  else
    func ← vmfp t;
    if negb (Func_contains func (vmpc t)) then Some SrcKey_empty
    else
      let result := SrcKey_at func (vmpc t) ResumeNone in
      (* assertx(canonicalize(result) == result) *)
      if decide (canonicalize result = Some result)
      then Some result else None.

(** ** LoggingProfile *)

(** A [LoggingProfile*] is the source key under which the profile table
    owns the object. *)
Record LoggingProfile := mkLoggingProfile {
  source : SrcKey;
  loggingArraysEmitted : Z;
  sampleCount : Z;
  staticLoggingArray : option Z;
  staticSampledArray : option Z;
  events : gmap (SrcKey * Z) Z;
  monotypeEvents : gmap (Z * Z) Z
}.

(** [explicit LoggingProfile(SrcKey source)] *)
Definition LoggingProfile_new (sk : SrcKey) : LoggingProfile :=
  {| source := sk; loggingArraysEmitted := 0; sampleCount := 0;
     staticLoggingArray := None; staticSampledArray := None;
     events := ∅; monotypeEvents := ∅ |}.

Definition with_events (f : gmap (SrcKey * Z) Z -> gmap (SrcKey * Z) Z)
  (p : LoggingProfile) : LoggingProfile :=
  {| source := source p; loggingArraysEmitted := loggingArraysEmitted p;
     sampleCount := sampleCount p;
     staticLoggingArray := staticLoggingArray p;
     staticSampledArray := staticSampledArray p;
     events := f (events p); monotypeEvents := monotypeEvents p |}.

Definition with_monotypeEvents (f : gmap (Z * Z) Z -> gmap (Z * Z) Z)
  (p : LoggingProfile) : LoggingProfile :=
  {| source := source p; loggingArraysEmitted := loggingArraysEmitted p;
     sampleCount := sampleCount p;
     staticLoggingArray := staticLoggingArray p;
     staticSampledArray := staticSampledArray p;
     events := events p; monotypeEvents := f (monotypeEvents p) |}.

(** The accessor idiom
    [if (m.insert(it, k)) it->second = 1; else it->second++;] *)
Definition count_one `{Countable K} (k : K) (m : gmap K Z) : gmap K Z :=
  match m !! k with
  | None => <[k := 1]> m
  | Some c => <[k := Int.incr64 c]> m
  end.

(** The sum of the counts held in a map, without wrap-around. *)
Definition sum_counts `{Countable K} (m : gmap K Z) : Z :=
  map_fold (fun _ count total => total + count) 0 m.

(** How often [x] occurs in [l]. *)
Definition occurrences `{EqDecision A} (x : A) (l : list A) : nat :=
  length (filter (fun y => y = x) l).

(** The count that [n] increments leave behind in a slot that was absent. *)
Definition after_increments (n : nat) : option Z :=
  match n with O => None | S _ => Some (Int.wrap64 (Z.of_nat n)) end.

Definition getSampleCountMultiplier (p : LoggingProfile) : double :=
  if decide (loggingArraysEmitted p = 0) then double_zero
  else double_div (double_of_uint64 (sampleCount p))
                  (double_of_uint64 (loggingArraysEmitted p)).

Definition getTotalEvents (p : LoggingProfile) : Z :=
  map_fold (fun _ count total => Int.wrap64 (total + count)) 0 (events p).

Definition getProfileWeight (p : LoggingProfile) : double :=
  double_mul (double_of_uint64 (getTotalEvents p))
             (getSampleCountMultiplier p).

(** The key under which [logEventImpl] counts an event: the sink (empty
    for ReleaseUncounted, else the caller's position) paired with the packed
    event key. *)
Definition event_pair (t : Thread) (key : EventKey) : option (SrcKey * Z) :=
  let has_sink := negb (bool_decide (getOp key = ReleaseUncounted)) in
  sink ← (if has_sink then getSrcKey t else Some SrcKey_empty);
  Some (sink, toUInt64 key).

(** [logEventImpl], given the export flag read under the gate's read lock
    and the calling thread.  The trace line is not part of the model. *)
Definition logEventImpl (exportStarted : bool) (t : Thread) (key : EventKey)
  (p : LoggingProfile) : option LoggingProfile :=
  if exportStarted then Some p
  else
    pair ← event_pair t key;
    Some (with_events (count_one pair) p).

(** A sequence of [logEventImpl] calls on one profile. *)
Fixpoint logEventImpl_seq (exportStarted : bool)
  (calls : list (Thread * EventKey)) (p : LoggingProfile)
  : option LoggingProfile :=
  match calls with
  | [] => Some p
  | (t, key) :: calls =>
      p' ← logEventImpl exportStarted t key p;
      logEventImpl_seq exportStarted calls p'
  end.

(** The arguments of the six [logEvent] overloads. *)
Inductive LogArgs :=
| LogOp
| LogInt (k : Z)
| LogStr (k : Z)
| LogVal (v : TypedValue)
| LogIntVal (k : Z) (v : TypedValue)
| LogStrVal (k : Z) (v : TypedValue).

Definition EventKey_make (op : ArrayOp) (a : LogArgs) : option EventKey :=
  match a with
  | LogOp => EventKey_op op
  | LogInt k => EventKey_int op k
  | LogStr k => EventKey_str op k
  | LogVal v => EventKey_val op v
  | LogIntVal k v => EventKey_int_val op k v
  | LogStrVal k v => EventKey_str_val op k v
  end.

Definition logEvent (exportStarted : bool) (t : Thread) (op : ArrayOp)
  (a : LogArgs) (p : LoggingProfile) : option LoggingProfile :=
  key ← EventKey_make op a;
  logEventImpl exportStarted t key p.

Definition logEntryTypes (exportStarted : bool) (before after : EntryTypes)
  (p : LoggingProfile) : LoggingProfile :=
  if exportStarted then p
  else with_monotypeEvents (count_one (asInt16 before, asInt16 after)) p.

(** ** Arrays as the sink profile sees them *)

Inductive ArrayLayout :=
| Vanilla
| Logging (profile : SrcKey) (entryTypes : EntryTypes)   (* a LoggingArray *)
| OtherBespoke (index : Z).

Record ArrayData := {
  kind : Z;                    (* ad->kind(), an ArrayKind value *)
  isSampledArray : bool;
  layout : ArrayLayout
}.

Definition isVanilla (ad : ArrayData) : bool :=
  match layout ad with Vanilla => true | _ => false end.

(** [BespokeArray::asBespoke(ad)->layout().index()] *)
Definition layout_index (ad : ArrayData) : option Z :=
  match layout ad with
  | Vanilla => None
  | Logging _ _ => Some LoggingArray_index
  | OtherBespoke i => Some i
  end.

(** [LoggingArray::As]: the cast checks that the array is a LoggingArray. *)
Definition LoggingArray_As (ad : ArrayData) : option (SrcKey * EntryTypes) :=
  match layout ad with
  | Logging profile et => Some (profile, et)
  | _ => None
  end.

(** ** SinkProfile *)

Record SinkProfile := mkSinkProfile {
  sink : Z * SrcKey;           (* SinkKey: (TransID, SrcKey) *)
  arrCounts : list Z;
  keyCounts : list Z;
  valCounts : list Z;
  sampledCount : Z;
  unsampledCount : Z;
  sources : gmap SrcKey Z      (* LoggingProfile* -> count *)
}.

Definition zeros (n : Z) : list Z := replicate (Z.to_nat n) 0.

Definition SinkProfile_new (key : Z * SrcKey) : SinkProfile :=
  {| sink := key;
     arrCounts := zeros kNumArrTypes;
     keyCounts := zeros kNumKeyTypes;
     valCounts := zeros kNumValTypes;
     sampledCount := 0; unsampledCount := 0; sources := ∅ |}.

(** [counts[i]++] behind [assertx(i < N)]. *)
Definition incr_slot (N : Z) (i : Z) (counts : list Z) : option (list Z) :=
  if (0 <=? i) && (i <? N)
  then Some (alter Int.incr64 (Z.to_nat i) counts)
  else None.

(** The [val] lambda of [SinkProfile::update]. *)
Definition val_slot (et : EntryTypes) : Z :=
  if decide (valueTypes et = ValuesEmpty) then kNoValTypes
  else if decide (valueTypes et <> Monotype) then kAnyValType
  else Int.wrap64 (dt_modulo_persistence (valueDatatype et) - kMinDataType).

Definition update (exportStarted : bool) (ad : ArrayData) (s : SinkProfile)
  : option SinkProfile :=
  if exportStarted then Some s
  else
    (* Bail out if we get a non-logging bespoke. *)
    if negb (isVanilla ad)
       && negb (bool_decide (layout_index ad = Some LoggingArray_index))
    then Some s
    else
      lad ← (if negb (isVanilla ad) then Some <$> LoggingArray_As ad
             else Some None);
      let sampled := bool_decide (lad <> None) || isSampledArray ad in
      let sampledCount' :=
        if sampled then Int.incr64 (sampledCount s) else sampledCount s in
      let unsampledCount' :=
        if sampled then unsampledCount s else Int.incr64 (unsampledCount s) in
      arrCounts' ← incr_slot kNumArrTypes (kind ad / 2) (arrCounts s);
      match lad with
      | None =>
          Some {| sink := sink s; arrCounts := arrCounts';
                  keyCounts := keyCounts s; valCounts := valCounts s;
                  sampledCount := sampledCount';
                  unsampledCount := unsampledCount';
                  sources := sources s |}
      | Some (profile, et) =>
          let key := KeyTypes_raw (keyTypes et) in
          let val := val_slot et in
          keyCounts' ← incr_slot kNumKeyTypes key (keyCounts s);
          valCounts' ← incr_slot kNumValTypes val (valCounts s);
          Some {| sink := sink s; arrCounts := arrCounts';
                  keyCounts := keyCounts'; valCounts := valCounts';
                  sampledCount := sampledCount';
                  unsampledCount := unsampledCount';
                  sources := count_one profile (sources s) |}
      end.

(** A sequence of [update] calls on one sink profile. *)
Fixpoint update_seq (exportStarted : bool) (ads : list ArrayData)
  (s : SinkProfile) : option SinkProfile :=
  match ads with
  | [] => Some s
  | ad :: ads => s' ← update exportStarted ad s; update_seq exportStarted ads s'
  end.

(** The total of a histogram. *)
Definition histogram_total (counts : list Z) : Z := foldr Z.add 0 counts.

Definition is_logging (ad : ArrayData) : bool :=
  match layout ad with Logging _ _ => true | _ => false end.

Definition is_other_bespoke (ad : ArrayData) : bool :=
  match layout ad with
  | OtherBespoke i => negb (bool_decide (i = LoggingArray_index))
  | _ => false
  end.

(** The arrays that a sink is fed in scenario S6: a vanilla array that is
    not sampled, a LoggingArray whose key types fall in slot [kslot] and
    whose values fall in slot [vslot], or an array of another bespoke
    layout.  The first two have an array kind within the histogram. *)
Definition S6_array (kslot vslot : Z) (ad : ArrayData) : bool :=
  let kind_ok := (0 <=? kind ad / 2) && (kind ad / 2 <? kNumArrTypes) in
  match layout ad with
  | Vanilla => negb (isSampledArray ad) && kind_ok
  | Logging _ et =>
      (KeyTypes_raw (keyTypes et) =? kslot) && (val_slot et =? vslot)
      && kind_ok
  | OtherBespoke i => negb (bool_decide (i = LoggingArray_index))
  end.

(** A sink profile that has counted [v] unsampled vanilla arrays and [l]
    logging arrays of scenario S6, and nothing else. *)
Definition sink_counts (kslot vslot : Z) (s : SinkProfile) (v l : Z) : Prop :=
  sampledCount s = l /\ unsampledCount s = v
  /\ keyCounts s !! Z.to_nat kslot = Some l
  /\ valCounts s !! Z.to_nat vslot = Some l
  /\ Forall (fun x => 0 <= x) (arrCounts s)
  /\ histogram_total (arrCounts s) = v + l
  /\ length (arrCounts s) = Z.to_nat kNumArrTypes.

(** [reduce]: slot-wise sums and a merge of the source counts. *)
Definition add64 (a b : Z) : Z := Int.wrap64 (a + b).

Definition reduce (other : SinkProfile) (s : SinkProfile) : SinkProfile :=
  {| sink := sink s;
     arrCounts := zip_with add64 (arrCounts s) (arrCounts other);
     keyCounts := zip_with add64 (keyCounts s) (keyCounts other);
     valCounts := zip_with add64 (valCounts s) (valCounts other);
     sampledCount := add64 (sampledCount s) (sampledCount other);
     unsampledCount := add64 (unsampledCount s) (unsampledCount other);
     sources :=
       map_fold (fun k c m =>
                   match m !! k with
                   | None => <[k := c]> m
                   | Some c0 => <[k := add64 c0 c]> m
                   end) (sources s) (sources other) |}.

(** ** The profile tables and the export gate *)

(** [s_exportProfilesThread] is a [std::thread]; what the code depends on
    is whether the object owns a thread of execution, [joinable()].  It is
    default-constructed, so not joinable, when the program starts. *)
Record State := mkState {
  s_exportStarted : bool;
  s_profileMap : gmap SrcKey LoggingProfile;
  s_sinkMap : gmap (Z * SrcKey) SinkProfile;
  s_exportProfilesThread : bool         (* joinable() *)
}.

Definition State_init : State :=
  {| s_exportStarted := false; s_profileMap := ∅; s_sinkMap := ∅;
     s_exportProfilesThread := false |}.

Definition with_profileMap
  (f : gmap SrcKey LoggingProfile -> gmap SrcKey LoggingProfile)
  (st : State) : State :=
  {| s_exportStarted := s_exportStarted st;
     s_profileMap := f (s_profileMap st);
     s_sinkMap := s_sinkMap st;
     s_exportProfilesThread := s_exportProfilesThread st |}.

Definition with_sinkMap
  (f : gmap (Z * SrcKey) SinkProfile -> gmap (Z * SrcKey) SinkProfile)
  (st : State) : State :=
  {| s_exportStarted := s_exportStarted st;
     s_profileMap := s_profileMap st;
     s_sinkMap := f (s_sinkMap st);
     s_exportProfilesThread := s_exportProfilesThread st |}.

Definition shouldLogAtSrcKey (sk : SrcKey) : bool :=
  if negb (valid sk) then false
  else if (bool_decide (sk_op sk = OpArray) || bool_decide (sk_op sk = OpDict))
          && bool_decide (sk_op (advanced sk) = OpIsTypeStructC)
  then false
  else true.

(** The part of [getLoggingProfile] that runs under the gate's read lock,
    after the optimistic lookup has missed.  Another thread may have
    inserted in between, so the insert can still find the key taken; the
    loser's static arrays are freed and the table is left as it is. *)
Definition getLoggingProfile_locked (sk : SrcKey) (st : State)
  : option SrcKey * State :=
  if s_exportStarted st then (None, st)
  else
    let op := sk_op sk in
    let ad :=
      if negb (bool_decide (op = OpArray)) && negb (bool_decide (op = OpVec))
         && negb (bool_decide (op = OpDict))
         && negb (bool_decide (op = OpKeyset))
      then None
      else Some (lookupArrayId sk) in
    let profile := LoggingProfile_new sk in
    let profile :=
      match ad with
      | Some ad =>
          {| source := source profile;
             loggingArraysEmitted := loggingArraysEmitted profile;
             sampleCount := sampleCount profile;
             staticLoggingArray := Some (MakeStatic ad sk);
             staticSampledArray := Some (makeSampledStaticArray ad);
             events := events profile;
             monotypeEvents := monotypeEvents profile |}
      | None => profile
      end in
    match s_profileMap st !! sk with
    | None => (Some sk, with_profileMap (insert sk profile) st)
    | Some _ => (Some sk, st)
    end.

(** [getLoggingProfile]: the result is the profile's pointer, or [None]
    for nullptr; the outer option is an assertion failure. *)
Definition getLoggingProfile (skRaw : SrcKey) (st : State)
  : option (option SrcKey * State) :=
  if negb (shouldLogAtSrcKey skRaw) then Some (None, st)
  else
    sk ← canonicalize skRaw;
    match s_profileMap st !! sk with
    | Some _ => Some (Some sk, st)
    | None => Some (getLoggingProfile_locked sk st)
    end.

Definition getSinkProfile_locked (key : Z * SrcKey) (st : State)
  : option (Z * SrcKey) * State :=
  if s_exportStarted st then (None, st)
  else
    let profile := SinkProfile_new key in
    match s_sinkMap st !! key with
    | None => (Some key, with_sinkMap (insert key profile) st)
    | Some _ => (Some key, st)
    end.

Definition getSinkProfile (id : Z) (skRaw : SrcKey) (st : State)
  : option (option (Z * SrcKey) * State) :=
  sk ← canonicalize skRaw;
  let key := (id, sk) in
  match s_sinkMap st !! key with
  | Some _ => Some (Some key, st)
  | None => Some (getSinkProfile_locked key st)
  end.

(** [exportProfiles]: the assertion on [allowBespokeArrayLikes()], the
    early return when no export path is configured, the flag set under the
    write lock, and the worker assigned to [s_exportProfilesThread].  The
    move assignment of [std::thread] calls [std::terminate] when the object
    assigned to is still joinable, which is the error case: a second call
    is survived only after [waitOnExportProfiles] has joined the first
    worker.  What the worker does is [export_thread] below. *)
Definition exportProfiles (st : State) : option State :=
  if negb allowBespokeArrayLikes then None
  else if decide (EvalExportLoggingArrayDataPath = EmptyString) then Some st
  else if s_exportProfilesThread st then None
  else Some {| s_exportStarted := true;
               s_profileMap := s_profileMap st;
               s_sinkMap := s_sinkMap st;
               s_exportProfilesThread := true |}.

(** [waitOnExportProfiles]: joins the worker when export has started.
    [std::thread::join] on an object that is not joinable throws
    [std::system_error], which nothing catches: the error case.  The worker
    only reads the tables, so that joining it leaves them as they are. *)
Definition waitOnExportProfiles (st : State) : option State :=
  if s_exportStarted st
  then if s_exportProfilesThread st
       then Some {| s_exportStarted := s_exportStarted st;
                    s_profileMap := s_profileMap st;
                    s_sinkMap := s_sinkMap st;
                    s_exportProfilesThread := false |}
       else None
  else Some st.

(** ** Calls into the profiling code

    One constructor per entry point; a method of a profile object names the
    object by its pointer.  A method called through a pointer that the
    tables do not own is not a behaviour of the program and is the error
    case. *)
Inductive Call :=
| CallGetLoggingProfile (skRaw : SrcKey)
| CallGetSinkProfile (id : Z) (skRaw : SrcKey)
| CallLogEvent (profile : SrcKey) (t : Thread) (op : ArrayOp) (a : LogArgs)
| CallLogEntryTypes (profile : SrcKey) (before after : EntryTypes)
| CallUpdate (sinkp : Z * SrcKey) (ad : ArrayData)
| CallExportProfiles
| CallWaitOnExportProfiles.

Definition exec (c : Call) (st : State) : option State :=
  match c with
  | CallGetLoggingProfile skRaw => snd <$> getLoggingProfile skRaw st
  | CallGetSinkProfile id skRaw => snd <$> getSinkProfile id skRaw st
  | CallLogEvent profile t op a =>
      p ← s_profileMap st !! profile;
      p' ← logEvent (s_exportStarted st) t op a p;
      Some (with_profileMap (insert profile p') st)
  | CallLogEntryTypes profile before after =>
      p ← s_profileMap st !! profile;
      Some (with_profileMap
              (insert profile
                 (logEntryTypes (s_exportStarted st) before after p)) st)
  | CallUpdate sinkp ad =>
      s ← s_sinkMap st !! sinkp;
      s' ← update (s_exportStarted st) ad s;
      Some (with_sinkMap (insert sinkp s') st)
  | CallExportProfiles => exportProfiles st
  | CallWaitOnExportProfiles => waitOnExportProfiles st
  end.

Fixpoint run (cs : list Call) (st : State) : option State :=
  match cs with
  | [] => Some st
  | c :: cs => st' ← exec c st; run cs st'
  end.

(** ** Export: aggregation of one source profile *)

(** [std::sort] with the comparison [comp] as [operator<]: in the result no
    element is [comp]-before one that precedes it.  The order among
    elements that compare equal is not specified by the library; the model
    fixes one. *)
Definition std_sort {A} (comp : A -> A -> bool) : list A -> list A :=
  merge_sort (fun a b => Is_true (negb (comp b a))).

(** Iteration over a [std::map] with integer keys: ascending by key. *)
Definition in_key_order {A} (m : gmap Z A) : list (Z * A) :=
  merge_sort (fun a b => Is_true (a.1 <=? b.1)) (map_to_list m).

(** [m[k] += c] on a [std::map] of 64-bit counts. *)
Definition add_count `{Countable K} (k : K) (c : Z) (m : gmap K Z)
  : gmap K Z :=
  <[k := Int.wrap64 (default 0 (m !! k) + c)]> m.

Record EventOutputData := {
  ev_event : EventKey;
  ev_count : Z
}.

Record OperationOutputData := {
  operation : ArrayOp;
  op_events : list EventOutputData;
  totalCount : Z
}.

Definition OperationOutputData_new (op : ArrayOp) : OperationOutputData :=
  {| operation := op; op_events := []; totalCount := 0 |}.

Definition registerEvent (key : EventKey) (count : Z)
  (o : OperationOutputData) : OperationOutputData :=
  {| operation := operation o;
     op_events := op_events o ++ [{| ev_event := key; ev_count := count |}];
     totalCount := Int.wrap64 (totalCount o + count) |}.

Definition sortEvents (o : OperationOutputData) : OperationOutputData :=
  {| operation := operation o;
     op_events := std_sort (fun a b => ev_count b <? ev_count a) (op_events o);
     totalCount := totalCount o |}.

Record EntryTypesUseOutputData := {
  use_state : EntryTypes;
  use_count : Z
}.

Record EntryTypesEscalationOutputData := {
  esc_before : EntryTypes;
  esc_after : EntryTypes;
  esc_count : Z
}.

Record SourceOutputData := {
  out_profile : LoggingProfile;
  numDistinctSinks : Z;
  readOperations : list OperationOutputData;
  writeOperations : list OperationOutputData;
  monotypeEscalations : list EntryTypesEscalationOutputData;
  monotypeUses : list EntryTypesUseOutputData;
  readCount : Z;
  writeCount : Z;
  weight : double
}.

Definition sum_totalCount (ops : list OperationOutputData) : Z :=
  foldl (fun acc o => Int.wrap64 (acc + totalCount o)) 0 ops.

(** The constructor of [SourceOutputData]. *)
Definition SourceOutputData_new (profile : LoggingProfile)
  (numDistinctSinks : Z) (operations : list OperationOutputData)
  (monoEscalations : list EntryTypesEscalationOutputData)
  (monoUses : list EntryTypesUseOutputData) : SourceOutputData :=
  let operations :=
    std_sort (fun a b => totalCount b <? totalCount a) operations in
  let reads := filter (fun o => arrayOpIsRead (operation o) = true) operations in
  let writes :=
    filter (fun o => arrayOpIsRead (operation o) = false) operations in
  {| out_profile := profile;
     numDistinctSinks := numDistinctSinks;
     readOperations := reads;
     writeOperations := writes;
     monotypeEscalations :=
       std_sort (fun a b => esc_count b <? esc_count a) monoEscalations;
     monotypeUses := std_sort (fun a b => use_count b <? use_count a) monoUses;
     readCount := sum_totalCount reads;
     writeCount := sum_totalCount writes;
     weight := getProfileWeight profile |}.

(** "Aggregate total events by event key": [eventCounts] and [sinkCounts]. *)
Definition aggregate_events (p : LoggingProfile) : gmap Z Z * gmap SrcKey Z :=
  foldl (fun acc eventRecord =>
           let count := eventRecord.2 in
           let eventKey := eventRecord.1.2 in
           (add_count eventKey count acc.1,
            add_count eventRecord.1.1 count acc.2))
        (∅, ∅) (map_to_list (events p)).

(** "Group events by their operation": [opsGrouped], a [std::map] ordered
    by the operation's enumerator value. *)
Definition group_by_operation (eventCounts : gmap Z Z)
  : gmap Z OperationOutputData :=
  foldl (fun g eventAndCount =>
           let event := EventKey_of_uint64 eventAndCount.1 in
           let count := eventAndCount.2 in
           let op := getOp event in
           let cur := default (OperationOutputData_new op)
                              (g !! ArrayOp_raw op) in
           <[ArrayOp_raw op := registerEvent event count cur]> g)
        ∅ (in_key_order eventCounts).

(** The escalation record built from one entry of [monotypeEvents]. *)
Definition escalation_of (e : Z * Z * Z) : EntryTypesEscalationOutputData :=
  {| esc_before := EntryTypes_of_int16 e.1.1;
     esc_after := EntryTypes_of_int16 e.1.2;
     esc_count := e.2 |}.

(** "Determine monotype operations": one iteration of the loop over
    [profile->monotypeEvents], on the pair ([escalations], [usesMap]). *)
Definition monotype_step
  (acc : list EntryTypesEscalationOutputData * gmap Z Z)
  (statesAndCount : Z * Z * Z)
  : list EntryTypesEscalationOutputData * gmap Z Z :=
  let before := statesAndCount.1.1 in
  let after := statesAndCount.1.2 in
  let count := statesAndCount.2 in
  let escalations :=
    if decide (before <> after)
    then acc.1 ++ [escalation_of statesAndCount]
    else acc.1 in
  (escalations, add_count after count acc.2).

Definition monotype_operations (p : LoggingProfile)
  : list EntryTypesEscalationOutputData * gmap Z Z :=
  foldl monotype_step ([], ∅) (map_to_list (monotypeEvents p)).

Definition uses_of (usesMap : gmap Z Z) : list EntryTypesUseOutputData :=
  (fun useData => {| use_state := EntryTypes_of_int16 useData.1;
                     use_count := useData.2 |}) <$> in_key_order usesMap.

Definition sortSourceData (profile : LoggingProfile) : SourceOutputData :=
  let '(eventCounts, sinkCounts) := aggregate_events profile in
  let opsGrouped := sortEvents <$> group_by_operation eventCounts in
  let operations := snd <$> in_key_order opsGrouped in
  let '(escalations, usesMap) := monotype_operations profile in
  SourceOutputData_new profile (Z.of_nat (size sinkCounts)) operations
                       escalations (uses_of usesMap).

(** [weight > other.weight] on doubles. *)
Definition double_gt (a b : double) : bool := SFltb b a.

Definition sortProfileData (st : State) : list SourceOutputData :=
  std_sort (fun a b => double_gt (weight a) (weight b))
           (sortSourceData <$> (snd <$> map_to_list (s_profileMap st))).

(** Every SrcKey held by the tables has resume mode None: the keys of the
    source profile table, the SrcKey of each key of the sink profile table,
    and the sink of each key of each events map. *)
Definition stored_keys_canonical (st : State) : Prop :=
  (forall sk p, s_profileMap st !! sk = Some p ->
     resumeMode sk = ResumeNone /\ canonicalize sk = Some sk)
  /\ (forall id sk s, s_sinkMap st !! (id, sk) = Some s ->
     resumeMode sk = ResumeNone /\ canonicalize sk = Some sk)
  /\ (forall src p snk code c,
     s_profileMap st !! src = Some p ->
     events p !! (snk, code) = Some c ->
     resumeMode snk = ResumeNone
     /\ (valid snk = true -> canonicalize snk = Some snk)).

(** The [source] field of a profile and the [sink] field of a sink profile
    repeat the key under which the tables hold them. *)
Definition stored_fields_match (st : State) : Prop :=
  (forall sk p, s_profileMap st !! sk = Some p -> source p = sk)
  /\ (forall key s, s_sinkMap st !! key = Some s -> sink s = key).

End WithRuntime.

(** ** Layout indices (layout.h) *)

Module Layout.

(** Bespoke indexes are 15 bits wide. *)
Definition kMaxIndex : Z := Z.shiftl 1 15 - 1.

Definition isPowTwo (n : Z) : bool := (0 <? n) && (Z.land n (n - 1) =? 0).

(** Modelled from the spec: the body of [Layout::ReserveIndices] is in
    layout.cpp, which is not among the sources; layout.h has its
    declaration, the precondition that [size] is a power of two and the
    postcondition that the result is a multiple of [size].  The registry
    keeps the first index not yet handed out.  A reservation returns the
    first index of a block of [size] consecutive indices aligned to [size],
    taken at the lowest free position, and moves the mark past the block;
    it fails when the block would not fit in the 2^15 indices.  The result
    pairs the returned index with the new mark. *)
Definition ReserveIndices (size : Z) (next : Z) : option (Z * Z) :=
  if negb (isPowTwo size) then None
  else
    let result := Z.land (next + size - 1) (Z.lnot (size - 1)) in
    if result + size <=? kMaxIndex + 1
    then Some (result, result + size)
    else None.

End Layout.

(** ** A small runtime to evaluate the definitions on *)

Module Sample.

Inductive SampleOp := GetInt | SetInt | Append | ReleaseUncountedOp.

Inductive SampleKeyTypes :=
  KeysEmpty | Ints | StaticStrings | Strings | KeysAny.

Record SampleEntryTypes := {
  s_keyTypes : SampleKeyTypes;
  s_valueTypes : ValueTypes;
  s_valueDatatype : Z
}.

Definition op_raw (op : SampleOp) : Z :=
  match op with
  | GetInt => 0 | SetInt => 1 | Append => 2 | ReleaseUncountedOp => 3
  end.

Definition op_of_raw (z : Z) : SampleOp :=
  match z with
  | 0 => GetInt | 1 => SetInt | 2 => Append | _ => ReleaseUncountedOp
  end.

Definition op_name (op : SampleOp) : string :=
  match op with
  | GetInt => "GetInt" | SetInt => "SetInt" | Append => "Append"
  | ReleaseUncountedOp => "ReleaseUncounted"
  end.

Definition op_read (op : SampleOp) : bool :=
  match op with GetInt => true | _ => false end.

Definition keys_raw (k : SampleKeyTypes) : Z :=
  match k with
  | KeysEmpty => 0 | Ints => 1 | StaticStrings => 2 | Strings => 3
  | KeysAny => 4
  end.

Definition keys_of_raw (z : Z) : SampleKeyTypes :=
  match z with
  | 0 => KeysEmpty | 1 => Ints | 2 => StaticStrings | 3 => Strings
  | _ => KeysAny
  end.

Definition values_raw (v : ValueTypes) : Z :=
  match v with ValuesEmpty => 0 | Monotype => 1 | ValuesAny => 2 end.

Definition values_of_raw (z : Z) : ValueTypes :=
  match z with 0 => ValuesEmpty | 1 => Monotype | _ => ValuesAny end.

Definition et_asInt16 (et : SampleEntryTypes) : Z :=
  keys_raw (s_keyTypes et) + 2^3 * values_raw (s_valueTypes et)
  + 2^8 * (s_valueDatatype et mod 2^8).

Definition et_of_int16 (z : Z) : SampleEntryTypes :=
  {| s_keyTypes := keys_of_raw (z mod 2^3);
     s_valueTypes := values_of_raw ((z / 2^3) mod 2^5);
     s_valueDatatype := sign_extend8 (z / 2^8) |}.

(** Datatypes: PersistentString = 4, String = 5, Int64 = 3, the least
    datatype -8; persistence is the difference of 4 and 5 only. *)
Definition modulo_persistence (dt : Z) : Z := if dt =? 4 then 5 else dt.

Definition dt_name (dt : Z) : string :=
  if dt =? 3 then "Int64" else if dt =? 5 then "String" else "Other".

(** Static strings live below address 2^20; two strings have contents. *)
Definition string_static (p : Z) : bool := p <? 2^20.

Definition string_data (p : Z) : string :=
  if p =? 4096 then "id" else if p =? 2^40 then "name" else EmptyString.

(** Bytecode: offset 0 of every function is an Array literal followed by
    an IsTypeStructC; offset 10 is a Vec literal, offset 20 a Dict literal. *)
Definition op_at (sk : SrcKey) : Op :=
  match offset sk with
  | 0 => OpArray | 1 => OpIsTypeStructC | 10 => OpVec | 20 => OpDict
  | z => OpOther z
  end.

Definition next_instr (sk : SrcKey) : SrcKey :=
  {| funcID := funcID sk; offset := offset sk + 1;
     resumeMode := resumeMode sk |}.

Definition SampleOp_eq_dec : EqDecision SampleOp.
Proof. solve_decision. Defined.

Definition runtime : Runtime := {|
  ArrayOp := SampleOp;
  ArrayOp_eq_dec := SampleOp_eq_dec;
  ReleaseUncounted := ReleaseUncountedOp;
  arrayOpToString := op_name;
  arrayOpIsRead := op_read;
  ArrayOp_raw := op_raw;
  ArrayOp_of_raw := op_of_raw;
  kInvalidDataType := -128;
  KindOfInt64 := 3;
  KindOfString := 5;
  KindOfPersistentString := 4;
  kMinDataType := -8;
  dt_modulo_persistence := modulo_persistence;
  tname := dt_name;
  isStatic := string_static;
  data := string_data;
  cEscape := id;
  KeyTypes := SampleKeyTypes;
  KeyTypes_raw := keys_raw;
  EntryTypes := SampleEntryTypes;
  keyTypes := s_keyTypes;
  valueTypes := s_valueTypes;
  valueDatatype := s_valueDatatype;
  asInt16 := et_asInt16;
  EntryTypes_of_int16 := et_of_int16;
  kNumArrTypes := 8;
  kNumKeyTypes := 5;
  kNumValTypes := 20;
  kNoValTypes := 18;
  kAnyValType := 19;
  LoggingArray_index := 0;
  sk_op := op_at;
  advanced := next_instr;
  Func_contains := fun func pc => (1000 <=? pc) && (pc <? 1100);
  Func_id := fun func => func / 1000;
  Func_offsetOf := fun func pc => pc - 1000;
  allowBespokeArrayLikes := true;
  EvalExportLoggingArrayDataPath := "bespoke-profile.txt";
  lookupArrayId := fun sk => 2^16 + offset sk;
  MakeStatic := fun ad _ => 2^17 + ad;
  makeSampledStaticArray := fun ad => 2^18 + ad
|}.

#[local] Existing Instance runtime.

Definition source_X : SrcKey :=
  {| funcID := Some 7; offset := 10; resumeMode := ResumeNone |}.

Definition sink_Y : Z * SrcKey :=
  (3, {| funcID := Some 7; offset := 42; resumeMode := ResumeNone |}).

(** Scenario S6: 300 vanilla arrays, 200 logging arrays with integer keys
    and string values, 100 arrays of another bespoke layout. *)
Definition vanilla_array : ArrayData :=
  {| kind := 4; isSampledArray := false; layout := Vanilla |}.

Definition logging_array : ArrayData :=
  {| kind := 5; isSampledArray := false;
     layout := Logging source_X
                 {| s_keyTypes := Ints; s_valueTypes := Monotype;
                    s_valueDatatype := 5 |} |}.

Definition other_bespoke_array : ArrayData :=
  {| kind := 5; isSampledArray := false; layout := OtherBespoke 17 |}.

Definition S6_arrays : list ArrayData :=
  replicate 300 vanilla_array ++ replicate 200 logging_array
  ++ replicate 100 other_bespoke_array.

(** A thread stopped at offset 42 of function 7, and one without frame.
    The bytecode of a function lies at addresses 1000 to 1099; the function
    at address 7000 has id 7. *)
Definition thread_at_Y : Thread :=
  {| rds_header := true; tl_regState := CLEAN; vmfp := Some 7000;
     vmpc := 1042 |}.

Definition thread_no_frame : Thread :=
  {| rds_header := true; tl_regState := DIRTY; vmfp := None; vmpc := 0 |}.

(** The source and the sink as the callers name them, in an async
    function. *)
Definition source_X_raw : SrcKey :=
  {| funcID := Some 7; offset := 10; resumeMode := ResumeAsync |}.

Definition sink_Y_raw : SrcKey :=
  {| funcID := Some 7; offset := 42; resumeMode := ResumeAsync |}.

Definition source_Z : SrcKey :=
  {| funcID := Some 8; offset := 20; resumeMode := ResumeNone |}.

(** The keys of [GetInt] at key 1 and of [ReleaseUncounted]. *)
Definition key_GetInt_1 : EventKey :=
  set_m_key 129 (set_key_spec Int8 (EventKey_init GetInt)).

Definition key_ReleaseUncounted : EventKey := EventKey_init ReleaseUncountedOp.

Definition three_calls : list (Thread * EventKey) :=
  [ (thread_at_Y, key_GetInt_1); (thread_no_frame, key_ReleaseUncounted);
    (thread_at_Y, key_GetInt_1) ].

(** The key of [GetInt] at key 300, and five events: two keys at one sink,
    one key at two sinks. *)
Definition key_GetInt_300 : EventKey :=
  set_key_spec Int16 (EventKey_init GetInt).

Definition five_calls : list (Thread * EventKey) :=
  [ (thread_at_Y, key_GetInt_1); (thread_at_Y, key_GetInt_300);
    (thread_no_frame, key_GetInt_1); (thread_at_Y, key_GetInt_1);
    (thread_no_frame, key_ReleaseUncounted) ].

(** A profiling session: a source and a sink are registered, events and an
    array are logged, export starts, and a second source is looked up. *)
Definition session_before_export : list Call :=
  [ CallGetLoggingProfile source_X_raw;
    CallGetSinkProfile 3 sink_Y_raw;
    CallLogEvent source_X thread_at_Y GetInt (LogInt 1);
    CallLogEvent source_X thread_at_Y GetInt (LogInt 1);
    CallLogEvent source_X thread_no_frame SetInt (LogIntVal 300 (TVInt 5));
    CallLogEvent source_X thread_at_Y ReleaseUncountedOp LogOp;
    CallLogEntryTypes source_X
      {| s_keyTypes := KeysEmpty; s_valueTypes := ValuesEmpty;
         s_valueDatatype := 0 |}
      {| s_keyTypes := Ints; s_valueTypes := Monotype;
         s_valueDatatype := 5 |};
    CallUpdate sink_Y logging_array ].

Definition session : list Call :=
  session_before_export
  ++ [ CallExportProfiles;
       CallGetLoggingProfile source_Z;
       CallLogEvent source_X thread_at_Y GetInt (LogInt 1) ].

End Sample.

(** ** Values of 64-bit counters *)

(** A value that a [uint64_t] holds. *)
Definition within64 (c : Z) : Prop := 0 <= c < 2^64.

(** ** Export: what the grouping loop of [sortSourceData] keeps *)

Section Grouping.
Context `{RT : Runtime}.

(** Every entry of [opsGrouped] is held under the enumerator value of its
    operation, has at least one event, has for total the 64-bit sum of the
    counts of its events, and holds events of that operation only. *)
Definition grouped (g : gmap Z OperationOutputData) : Prop :=
  forall k o, g !! k = Some o ->
    ArrayOp_raw (operation o) = k
    /\ op_events o <> []
    /\ totalCount o = Int.wrap64 (foldr Z.add 0 (ev_count <$> op_events o))
    /\ Forall (fun e => within64 (ev_count e)
                        /\ ArrayOp_raw (getOp (ev_event e)) = k)
              (op_events o).

End Grouping.

(** ** Export: sink profiles and the report text

    The names that the report prints come from the rest of the runtime
    ([array-data.h], [entry-types.h], [datatype.h], [srckey.h], folly); they
    are parameters as well. *)

Class ReportNames `{RT : Runtime} := {
  (* ArrayData::kindToString(ArrayData::ArrayKind(k)) *)
  kindToString : Z -> string;
  (* show(KeyTypes(type)) *)
  show_KeyTypes : Z -> string;
  (* the DATATYPES switch of getValTypeStr: the enumerator's name, or no
     case at all *)
  DataType_name : Z -> option string;
  (* EntryTypes::toString *)
  EntryTypes_toString : EntryTypes -> string;
  (* SrcKey::getSymbol and SrcKey::showInst *)
  getSymbol : SrcKey -> string;
  showInst : SrcKey -> string;
  (* a double under the format [{:.2f}] *)
  sformat_2f : double -> string
}.

Section Reporting.
Context `{RT : Runtime} {RN : ReportNames}.

Record SourceFrequencyData := {
  sf_sk : SrcKey;
  sf_count : Z
}.

Record SinkTypeData := {
  td_name : string;
  td_count : Z
}.

(** The helpers that undo the transformations in [SinkProfile::update];
    [None] is a failed assertion. *)
Definition getArrTypeStr (type : Z) : option string :=
  if type <=? kNumArrTypes then Some (kindToString (type * 2)) else None.

Definition getKeyTypeStr (type : Z) : option string :=
  if type <=? kNumKeyTypes then Some (show_KeyTypes type) else None.

Definition getValTypeStr (type : Z) : option string :=
  if negb (type <=? kNumValTypes) then None
  else if decide (type = kNoValTypes) then Some "Empty"
  else if decide (type = kAnyValType) then Some "Any"
  else
    t ← Int.safe_cast Int.int8_t type;
    (* DataType(int): the low byte, as a signed 8-bit value *)
    let dt := sign_extend8 ((t + kMinDataType) mod 2^8) in
    DataType_name dt.

(** The loop of [populateSortedCounts], from slot [i] on. *)
Fixpoint populate_from (fn : Z -> option string) (i : Z) (counts : list Z)
  : option (list SinkTypeData) :=
  match counts with
  | [] => Some []
  | count :: counts =>
      if decide (count = 0) then populate_from fn (i + 1) counts
      else
        name ← fn i;
        result ← populate_from fn (i + 1) counts;
        Some ({| td_name := name; td_count := count |} :: result)
  end.

Definition populateSortedCounts (counts : list Z) (fn : Z -> option string)
  : option (list SinkTypeData) :=
  result ← populate_from fn 0 counts;
  Some (std_sort (fun a b => td_count b <? td_count a) result).

Record SinkOutputData := {
  so_profile : SinkProfile;
  so_arrCounts : list SinkTypeData;
  so_keyCounts : list SinkTypeData;
  so_valCounts : list SinkTypeData;
  so_sources : list SourceFrequencyData;
  so_sampledCount : Z;
  so_unsampledCount : Z;
  so_weight : Z
}.

(** [sourceCounts[it.first->source] += it.second] over [profile->sources]:
    the pointer is followed into the source profile table. *)
Definition source_counts (st : State) (srcs : list (SrcKey * Z))
  : option (gmap SrcKey Z) :=
  foldl (fun acc it =>
           sourceCounts ← acc;
           p ← s_profileMap st !! it.1;
           Some (add_count (source p) it.2 sourceCounts))
        (Some ∅) srcs.

(** The constructor of [SinkOutputData].  The order in which [sourceCounts]
    is walked does not show, since the list is sorted next. *)
Definition SinkOutputData_new (st : State) (profile : SinkProfile)
  : option SinkOutputData :=
  sourceCounts ← source_counts st (map_to_list (sources profile));
  let srcs :=
    (fun it => {| sf_sk := it.1; sf_count := it.2 |})
      <$> map_to_list sourceCounts in
  arr ← populateSortedCounts (arrCounts profile) getArrTypeStr;
  key ← populateSortedCounts (keyCounts profile) getKeyTypeStr;
  val ← populateSortedCounts (valCounts profile) getValTypeStr;
  Some {| so_profile := profile;
          so_arrCounts := arr; so_keyCounts := key; so_valCounts := val;
          so_sources := std_sort (fun a b => sf_count b <? sf_count a) srcs;
          so_sampledCount := sampledCount profile;
          so_unsampledCount := unsampledCount profile;
          so_weight := add64 (sampledCount profile) (unsampledCount profile) |}.

Definition sortSinkData (st : State) : option (list SinkOutputData) :=
  sinkData ← mapM (fun it => SinkOutputData_new st it.2)
                  (map_to_list (s_sinkMap st));
  Some (std_sort (fun a b => so_weight b <? so_weight a) sinkData).

(** *** The report file *)

(** A [FILE*] open for writing: the text accepted so far and, for each
    [fwrite] to come, how many bytes the device will take; past the end of
    the list every write is taken in full. *)
Record FILE := {
  written : string;
  accepts : list nat
}.

(** [fwrite(entry.data(), 1, entry.length(), file)] *)
Definition fwrite (entry : string) (file : FILE) : nat * FILE :=
  match accepts file with
  | [] =>
      (String.length entry,
       {| written := written file +:+ entry; accepts := [] |})
  | n :: rest =>
      let k := Nat.min n (String.length entry) in
      (k, {| written := written file +:+ String.substring 0 k entry;
             accepts := rest |})
  end.

Definition logToFile (entry : string) (file : FILE) : bool * FILE :=
  let '(n, file) := fwrite entry file in
  (Nat.eqb n (String.length entry), file).

(** A function that writes to the report: [Some (b, file)] when it returns
    [b]; [None] is a failed assertion. *)
Definition Export : Type := FILE -> option (bool * FILE).

(** [LOG_OR_RETURN(file, ...); rest] *)
Definition LOG_OR_RETURN (entry : string) (rest : Export) : Export :=
  fun file =>
    let '(ok, file) := logToFile entry file in
    if ok then rest file else Some (false, file).

(** [if (!f(file, ...)) return false; rest] *)
Definition OR_RETURN (f : Export) (rest : Export) : Export :=
  fun file =>
    match f file with
    | Some (true, file) => rest file
    | r => r
    end.

Definition return_true : Export := fun file => Some (true, file).

(** A range-based [for] whose body either falls through (or [continue]s)
    or returns false from the function. *)
Fixpoint for_each {A} (body : A -> Export -> Export) (xs : list A)
  (rest : Export) : Export :=
  match xs with
  | [] => rest
  | x :: xs => body x (for_each body xs rest)
  end.

Definition newline : string := String (Ascii.ascii_of_nat 10) EmptyString.

Fixpoint spaces (n : nat) : string :=
  match n with
  | O => EmptyString
  | S n => String (Ascii.ascii_of_nat 32) (spaces n)
  end.

(** An unsigned integer under the format [{: >6}]: decimal, right-aligned
    in six columns, never cut. *)
Definition sformat_6 (n : Z) : string :=
  let s := pretty n in
  spaces (6 - String.length s) +:+ s.

(** An evaluation that may trip an assertion, before the rest. *)
Definition eval {A} (x : option A) (rest : A -> Export) : Export :=
  fun file => match x with Some a => rest a file | None => None end.

Definition exportOperationSet (operations : list OperationOutputData)
  : Export :=
  for_each
    (fun operationData continue =>
       match op_events operationData with
       | [eventData] =>
           (* There's only one distinct event for this op, print it at this
              level. *)
           eval (guard (totalCount operationData = ev_count eventData))
             (fun _ =>
           eval (toString (ev_event eventData)) (fun text =>
           LOG_OR_RETURN
             ("  " +:+ sformat_6 (ev_count eventData) +:+ "x " +:+ text
              +:+ newline)
             continue))
       | events =>
           LOG_OR_RETURN
             ("  " +:+ sformat_6 (totalCount operationData) +:+ "x "
              +:+ arrayOpToString (operation operationData) +:+ newline)
             (for_each
                (fun eventData continue =>
                   eval (toString (ev_event eventData)) (fun text =>
                   LOG_OR_RETURN
                     ("        " +:+ sformat_6 (ev_count eventData) +:+ "x "
                      +:+ text +:+ newline)
                     continue))
                events continue)
       end)
    operations return_true.

Definition exportTypeCounts (label : string) (counts : list SinkTypeData)
  : Export :=
  LOG_OR_RETURN ("  " +:+ label +:+ " Type Counts:" +:+ newline)
    (for_each
       (fun count continue =>
          LOG_OR_RETURN
            ("  " +:+ sformat_6 (td_count count) +:+ "x " +:+ td_name count
             +:+ newline)
            continue)
       counts return_true).

Definition rule : string :=
  "========================================================================"
  +:+ newline.

Definition exportSortedProfiles (profileData : list SourceOutputData)
  : Export :=
  LOG_OR_RETURN rule (
  LOG_OR_RETURN ("Sources:" +:+ newline +:+ newline) (
  for_each
    (fun sourceData continue =>
       let sourceProfile := out_profile sourceData in
       let sourceSk := source sourceProfile in
       LOG_OR_RETURN
         (getSymbol sourceSk +:+ " ["
          +:+ pretty (loggingArraysEmitted sourceProfile) +:+ "/"
          +:+ pretty (sampleCount sourceProfile) +:+ " sampled, "
          +:+ sformat_2f (weight sourceData) +:+ " weight]" +:+ newline) (
       LOG_OR_RETURN ("  " +:+ showInst sourceSk +:+ newline) (
       LOG_OR_RETURN
         ("  " +:+ pretty (readCount sourceData) +:+ " reads, "
          +:+ pretty (writeCount sourceData) +:+ " writes, "
          +:+ pretty (numDistinctSinks sourceData) +:+ " distinct sinks"
          +:+ newline) (
       LOG_OR_RETURN ("  Read operations:" +:+ newline) (
       OR_RETURN (exportOperationSet (readOperations sourceData)) (
       LOG_OR_RETURN ("  Write operations:" +:+ newline) (
       OR_RETURN (exportOperationSet (writeOperations sourceData)) (
       LOG_OR_RETURN ("  Entry Type Escalations:" +:+ newline) (
       for_each
         (fun escData continue =>
            LOG_OR_RETURN
              ("  " +:+ sformat_6 (esc_count escData) +:+ "x "
               +:+ EntryTypes_toString (esc_before escData) +:+ " -> "
               +:+ EntryTypes_toString (esc_after escData) +:+ newline)
              continue)
         (monotypeEscalations sourceData) (
       LOG_OR_RETURN ("  Entry Type Operations:" +:+ newline) (
       for_each
         (fun useData continue =>
            LOG_OR_RETURN
              ("  " +:+ sformat_6 (use_count useData) +:+ "x "
               +:+ EntryTypes_toString (use_state useData) +:+ newline)
              continue)
         (monotypeUses sourceData) (
       LOG_OR_RETURN newline continue))))))))))))
    profileData return_true)).

Definition exportSortedSinks (sinks : list SinkOutputData) : Export :=
  LOG_OR_RETURN rule (
  LOG_OR_RETURN ("Sinks:" +:+ newline +:+ newline) (
  for_each
    (fun sinkData continue =>
       let sk := (sink (so_profile sinkData)).2 in
       LOG_OR_RETURN
         (getSymbol sk +:+ " [" +:+ pretty (so_sampledCount sinkData) +:+ "/"
          +:+ pretty (so_weight sinkData) +:+ " sampled]" +:+ newline) (
       LOG_OR_RETURN ("  " +:+ showInst sk +:+ newline) (
       OR_RETURN (exportTypeCounts "Array" (so_arrCounts sinkData)) (
       OR_RETURN (exportTypeCounts "Key" (so_keyCounts sinkData)) (
       OR_RETURN (exportTypeCounts "Value" (so_valCounts sinkData)) (
       LOG_OR_RETURN newline continue))))))
    sinks return_true)).

(** An export function whose writes and result do not depend on what the
    file accepts, except that it returns false at the first short write:
    it writes the entries [es] in turn and then returns true, or trips an
    assertion after them. *)
Definition script (es : list string) (ok : bool) : Export :=
  for_each LOG_OR_RETURN es (if ok then return_true else fun _ => None).

Definition scripted (e : Export) : Prop :=
  exists es ok, forall file, e file = script es ok file.

(** The body of the thread that [exportProfiles] starts, given what
    [fopen] returns.  The result is the file as it is closed. *)
Definition export_thread (st : State) (fopen : option FILE)
  : option (option FILE) :=
  let sources := sortProfileData st in
  sinks ← sortSinkData st;
  match fopen with
  | None => Some None
  | Some file =>
      r1 ← exportSortedProfiles sources file;
      r2 ← exportSortedSinks sinks r1.2;
      Some (Some r2.2)
  end.

End Reporting.

(** ** Names and inputs for the small runtime *)

Module SampleReport.

#[local] Existing Instance Sample.runtime.

(** Array kinds 4 and 5 are the vanilla and the bespoke Vec, 6 and 7 the
    Dicts. *)
Definition kind_name (k : Z) : string :=
  if k =? 4 then "Vec" else if k =? 6 then "Dict" else "Other".

Definition keys_name (z : Z) : string :=
  match z with
  | 0 => "Empty" | 1 => "Ints" | 2 => "StaticStrings" | 3 => "Strings"
  | _ => "Any"
  end.

(** The datatypes that have an enumerator. *)
Definition datatype_name (dt : Z) : option string :=
  if dt =? 3 then Some "Int64"
  else if dt =? 4 then Some "PersistentString"
  else if dt =? 5 then Some "String"
  else if dt =? -8 then Some "Uninit"
  else None.

Definition entry_types_name (et : Sample.SampleEntryTypes) : string :=
  keys_name (Sample.keys_raw (Sample.s_keyTypes et)) +:+ ":"
  +:+ match Sample.s_valueTypes et with
      | ValuesEmpty => "Empty"
      | Monotype => Sample.dt_name (Sample.s_valueDatatype et)
      | ValuesAny => "Any"
      end.

Definition symbol (sk : SrcKey) : string :=
  match funcID sk with
  | Some f => "f" +:+ pretty f +:+ "@" +:+ pretty (offset sk)
  | None => "<unknown>"
  end.

(** A stand-in for the format [{:.2f}]: the exact value, as mantissa and
    binary exponent. *)
Definition exact_double (d : double) : string :=
  match d with
  | S754_zero _ => "0.00"
  | S754_infinity _ => "inf"
  | S754_nan => "nan"
  | S754_finite s m e =>
      (if s then "-" else EmptyString) +:+ pretty (Z.pos m) +:+ "p"
      +:+ pretty e
  end.

Definition names : @ReportNames Sample.runtime := {|
  kindToString := kind_name;
  show_KeyTypes := keys_name;
  DataType_name := datatype_name;
  EntryTypes_toString := entry_types_name;
  getSymbol := symbol;
  showInst := fun sk => "op " +:+ pretty (offset sk);
  sformat_2f := exact_double
|}.

#[local] Existing Instance names.

(** Calls made after export has started. *)
Definition late_calls : list Call :=
  [ CallGetLoggingProfile Sample.source_Z;
    CallGetSinkProfile 9 Sample.sink_Y_raw;
    CallLogEvent Sample.source_X Sample.thread_at_Y Sample.SetInt
                 (LogIntVal 7 (TVInt 5));
    CallLogEntryTypes Sample.source_X
      {| Sample.s_keyTypes := Sample.Ints; Sample.s_valueTypes := Monotype;
         Sample.s_valueDatatype := 5 |}
      {| Sample.s_keyTypes := Sample.KeysAny; Sample.s_valueTypes := ValuesAny;
         Sample.s_valueDatatype := 0 |};
    CallUpdate Sample.sink_Y Sample.vanilla_array;
    CallExportProfiles ].

(** Calls made after export has started, among them a second export once
    the worker of the first has been joined. *)
Definition calls_around_second_export : list Call :=
  [ CallGetLoggingProfile Sample.source_Z;
    CallLogEvent Sample.source_X Sample.thread_at_Y Sample.SetInt
                 (LogIntVal 7 (TVInt 5));
    CallUpdate Sample.sink_Y Sample.vanilla_array;
    CallWaitOnExportProfiles;
    CallGetSinkProfile 9 Sample.sink_Y_raw;
    CallExportProfiles;
    CallLogEvent Sample.source_X Sample.thread_at_Y Sample.GetInt (LogInt 1) ].

Definition invalid_key : SrcKey :=
  {| funcID := None; offset := 3; resumeMode := ResumeAsync |}.

Definition sampled_vanilla_array : ArrayData :=
  {| kind := 6; isSampledArray := true; layout := Vanilla |}.

Definition logging_array_Z : ArrayData :=
  {| kind := 7; isSampledArray := false;
     layout := Logging Sample.source_Z
                 {| Sample.s_keyTypes := Sample.Strings;
                    Sample.s_valueTypes := ValuesAny;
                    Sample.s_valueDatatype := 0 |} |}.

Definition arrays_1 : list ArrayData :=
  [ Sample.logging_array; Sample.vanilla_array; Sample.other_bespoke_array;
    sampled_vanilla_array ].

Definition arrays_2 : list ArrayData :=
  [ logging_array_Z; Sample.logging_array; Sample.vanilla_array ].

Definition entry_type_calls : list (EntryTypes * EntryTypes) :=
  let empty := {| Sample.s_keyTypes := Sample.KeysEmpty;
                  Sample.s_valueTypes := ValuesEmpty;
                  Sample.s_valueDatatype := 0 |} in
  let ints := {| Sample.s_keyTypes := Sample.Ints;
                 Sample.s_valueTypes := Monotype;
                 Sample.s_valueDatatype := 3 |} in
  [ (empty, ints); (ints, ints); (empty, ints) ].

(** The states of the sample session before export and once export has
    started, two sink profiles, and what export makes of them. *)
Definition state_before_export : State :=
  default State_init (run Sample.session_before_export State_init).

Definition state_exporting : State :=
  default State_init
          (run (Sample.session_before_export ++ [CallExportProfiles])
               State_init).

Definition sink_profile_1 : SinkProfile :=
  default (SinkProfile_new Sample.sink_Y)
          (update_seq false arrays_1 (SinkProfile_new Sample.sink_Y)).

Definition sink_profile_2 : SinkProfile :=
  default (SinkProfile_new (4, Sample.source_Z))
          (update_seq false arrays_2 (SinkProfile_new (4, Sample.source_Z))).

Definition empty_report (s : SinkProfile) : SinkOutputData :=
  {| so_profile := s; so_arrCounts := []; so_keyCounts := [];
     so_valCounts := []; so_sources := []; so_sampledCount := 0;
     so_unsampledCount := 0; so_weight := 0 |}.

Definition sink_report_1 : SinkOutputData :=
  default (empty_report sink_profile_1)
          (SinkOutputData_new state_before_export sink_profile_1).

Definition sink_reports : list SinkOutputData :=
  default [] (sortSinkData state_exporting).

Definition empty_file : FILE := {| written := EmptyString; accepts := [] |}.

(** A file that takes up to 100 bytes of the first write and up to 5 of
    the second. *)
Definition small_file : FILE :=
  {| written := EmptyString; accepts := [100%nat; 5%nat] |}.

Definition sources_section : FILE :=
  (default (false, empty_file)
           (exportSortedProfiles (sortProfileData state_exporting)
                                 empty_file)).2.

Definition sinks_section : FILE :=
  (default (false, empty_file) (exportSortedSinks sink_reports empty_file)).2.

Definition key_SetInt_5_str : EventKey :=
  setVal (TVStr false 4096)
         (set_m_key 133 (set_key_spec Int8 (EventKey_init Sample.SetInt))).

End SampleReport.

(** * Properties *)

(** ** Machine integers *)

Module IntFacts.
Import Int.

Lemma fits_spec T u : fits T u = true <-> lo T <= u <= hi T.
Proof. unfold fits. rewrite andb_true_iff, !Z.leb_le. tauto. Qed.

Lemma fits_false T u : fits T u = false <-> ~ (lo T <= u <= hi T).
Proof. rewrite <- fits_spec. destruct (fits T u); naive_solver. Qed.

Lemma safe_cast_fits T u : lo T <= u <= hi T -> safe_cast T u = Some u.
Proof. intros H. unfold safe_cast. apply fits_spec in H. now rewrite H. Qed.

Lemma wrap64_range x : 0 <= wrap64 x < 2^64.
Proof. unfold wrap64. apply Z.mod_pos_bound. lia. Qed.

Lemma wrap64_small x : 0 <= x < 2^64 -> wrap64 x = x.
Proof. intros H. unfold wrap64. now apply Z.mod_small. Qed.

Lemma wrap64_add_l x y : wrap64 (wrap64 x + y) = wrap64 (x + y).
Proof. unfold wrap64. now rewrite Zplus_mod_idemp_l. Qed.

Lemma wrap64_add_r x y : wrap64 (x + wrap64 y) = wrap64 (x + y).
Proof. unfold wrap64. now rewrite Zplus_mod_idemp_r. Qed.

Lemma incr64_small c : 0 <= c < 2^64 - 1 -> incr64 c = c + 1.
Proof. intros H. unfold incr64. apply wrap64_small. lia. Qed.

End IntFacts.

(** ** Canonical source keys *)

Lemma canonicalize_resumeMode sk sk' :
  canonicalize sk = Some sk' -> resumeMode sk' = ResumeNone.
Proof. unfold canonicalize. destruct (valid sk); naive_solver. Qed.

Lemma canonicalize_valid sk sk' :
  canonicalize sk = Some sk' -> valid sk' = true.
Proof.
  unfold canonicalize. destruct (valid sk) eqn:E; [|done].
  intros [= <-]. exact E.
Qed.

Lemma canonicalize_fixpoint sk :
  valid sk = true -> resumeMode sk = ResumeNone -> canonicalize sk = Some sk.
Proof.
  intros Hv Hr. unfold canonicalize. rewrite Hv.
  destruct sk; simpl in *; now subst.
Qed.

Lemma canonicalize_idempotent sk sk' :
  canonicalize sk = Some sk' -> canonicalize sk' = Some sk'.
Proof.
  intros H. apply canonicalize_fixpoint;
    eauto using canonicalize_valid, canonicalize_resumeMode.
Qed.

(** ** EventKey: construction and rendering *)

Section EventKeyFacts.
Context `{RT : Runtime}.

Lemma getSpec_int8 n : -128 <= n <= 127 -> getSpec (TVInt n) = Int8.
Proof.
  intros H. unfold getSpec.
  destruct (Int.fits Int.int8_t n) eqn:E; [done|].
  apply IntFacts.fits_false in E. simpl in E. lia.
Qed.

Lemma getSpec_int_wide n :
  ~ (-128 <= n <= 127) ->
  getSpec (TVInt n) = Int16 \/ getSpec (TVInt n) = Int32
  \/ getSpec (TVInt n) = Int64.
Proof.
  intros H. unfold getSpec.
  destruct (Int.fits Int.int8_t n) eqn:E.
  - apply IntFacts.fits_spec in E. simpl in E. lia.
  - destruct (Int.fits Int.int16_t n); [tauto|].
    destruct (Int.fits Int.int32_t n); tauto.
Qed.

Lemma getSpec_int16 n :
  ~ (-128 <= n <= 127) -> -2^15 <= n < 2^15 -> getSpec (TVInt n) = Int16.
Proof.
  intros H8 H16. unfold getSpec.
  destruct (Int.fits Int.int8_t n) eqn:E8.
  { apply IntFacts.fits_spec in E8. simpl in E8. lia. }
  destruct (Int.fits Int.int16_t n) eqn:E16; [done|].
  apply IntFacts.fits_false in E16. simpl in E16. lia.
Qed.

Lemma getSpec_int32 n :
  ~ (-2^15 <= n < 2^15) -> -2^31 <= n < 2^31 -> getSpec (TVInt n) = Int32.
Proof.
  intros H16 H32. unfold getSpec.
  destruct (Int.fits Int.int8_t n) eqn:E8.
  { apply IntFacts.fits_spec in E8. simpl in E8. lia. }
  destruct (Int.fits Int.int16_t n) eqn:E16.
  { apply IntFacts.fits_spec in E16. simpl in E16. lia. }
  destruct (Int.fits Int.int32_t n) eqn:E32; [done|].
  apply IntFacts.fits_false in E32. simpl in E32. lia.
Qed.

Lemma getSpec_int64 n : ~ (-2^31 <= n < 2^31) -> getSpec (TVInt n) = Int64.
Proof.
  intros H32. unfold getSpec.
  destruct (Int.fits Int.int8_t n) eqn:E8.
  { apply IntFacts.fits_spec in E8. simpl in E8. lia. }
  destruct (Int.fits Int.int16_t n) eqn:E16.
  { apply IntFacts.fits_spec in E16. simpl in E16. lia. }
  destruct (Int.fits Int.int32_t n) eqn:E32; [|done].
  apply IntFacts.fits_spec in E32. simpl in E32. lia.
Qed.

Lemma getSpec_str32 p k :
  isStatic k = true -> 0 <= k < 2^32 -> getSpec (TVStr p k) = Str32.
Proof.
  intros Hs Hk. unfold getSpec. rewrite Hs. simpl.
  destruct (Int.fits Int.uint32_t k) eqn:E; [done|].
  apply IntFacts.fits_false in E. simpl in E. lia.
Qed.

Lemma getSpec_str p k :
  ~ (isStatic k = true /\ 0 <= k < 2^32) -> getSpec (TVStr p k) = Str.
Proof.
  intros H. unfold getSpec. destruct (isStatic k); [|done]. simpl.
  destruct (Int.fits Int.uint32_t k) eqn:E; [|done].
  apply IntFacts.fits_spec in E. simpl in E. exfalso. apply H. lia.
Qed.

(** What [setKey] leaves in the key, case by case. *)
Lemma setKey_int_small n e :
  -128 <= n <= 127 ->
  setKey_int n e = Some (set_m_key (n + 128) (set_key_spec Int8 e)).
Proof.
  intros H. unfold setKey_int. rewrite (getSpec_int8 n H). simpl.
  rewrite IntFacts.safe_cast_fits by (unfold Int.kInt8Min; simpl; lia).
  unfold Int.kInt8Min. simpl. repeat f_equal; lia.
Qed.

Lemma setKey_int_wide n e :
  ~ (-128 <= n <= 127) ->
  setKey_int n e = Some (set_key_spec (getSpec (TVInt n)) e)
  /\ getSpec (TVInt n) ∈ [Int16; Int32; Int64].
Proof.
  intros H. unfold setKey_int.
  destruct (getSpec_int_wide n H) as [E|[E|E]]; rewrite E;
    (split; [done | repeat first [by left | right]]).
Qed.

Lemma setKey_str_small k e :
  isStatic k = true -> 0 <= k < 2^32 ->
  setKey_str k e = Some (set_m_key k (set_key_spec Str32 e)).
Proof.
  intros Hs Hk. unfold setKey_str. rewrite (getSpec_str32 false k Hs Hk). simpl.
  rewrite IntFacts.safe_cast_fits; [done|]. simpl. lia.
Qed.

Lemma setKey_str_other k e :
  ~ (isStatic k = true /\ 0 <= k < 2^32) ->
  setKey_str k e = Some (set_key_spec Str e).
Proof.
  intros H. unfold setKey_str. by rewrite (getSpec_str false k H).
Qed.

(** Rendering of the key part. *)
Lemma key_toString_int8 e n :
  -128 <= n <= 127 -> m_key_spec e = Int8 -> m_key e = n + 128 ->
  key_toString e = Some (" key=[i8:" +:+ pretty n +:+ "]").
Proof.
  intros Hn Hs Hk. unfold key_toString. rewrite Hs, Hk. simpl.
  rewrite IntFacts.safe_cast_fits by (simpl; lia). simpl.
  rewrite IntFacts.safe_cast_fits by (unfold Int.kInt8Min; simpl; lia).
  unfold Int.kInt8Min. simpl. repeat f_equal; lia.
Qed.

Lemma key_toString_str32 e k :
  0 <= k < 2^32 -> m_key_spec e = Str32 -> m_key e = k ->
  key_toString e =
    Some (" key=[s32:" +:+ quote +:+ cEscape (data k) +:+ quote +:+ "]").
Proof.
  intros Hk Hs Hm. unfold key_toString. rewrite Hs, Hm. simpl.
  rewrite IntFacts.safe_cast_fits by (simpl; lia). done.
Qed.

Lemma key_toString_category e :
  m_key_spec e ∈ [Int16; Int32; Int64; Str] ->
  key_toString e = Some (" key=[" +:+ specToStr (m_key_spec e) +:+ "]").
Proof.
  intros H. unfold key_toString.
  repeat (apply elem_of_cons in H as [H|H]; [by rewrite H|]).
  by apply elem_of_nil in H.
Qed.

End EventKeyFacts.

Section EventKeyRendering.
Context `{RT : Runtime}.

Lemma string_app_cons a (s t : string) :
  String a s +:+ t = String a (s +:+ t).
Proof. done. Qed.

Lemma string_app_nil_r (s : string) : s +:+ EmptyString = s.
Proof.
  induction s as [|a s IH]; [done|]. by rewrite string_app_cons, IH.
Qed.

Lemma string_app_length (s t : string) :
  String.length (s +:+ t) = (String.length s + String.length t)%nat.
Proof.
  induction s as [|a s IH]; [done|]. rewrite string_app_cons. simpl.
  by rewrite IH.
Qed.

Lemma string_app_inj_l (s1 s2 t : string) : s1 +:+ t = s2 +:+ t -> s1 = s2.
Proof.
  revert s2. induction s1 as [|a s1 IH]; intros [|b s2] H.
  - done.
  - apply (f_equal String.length) in H.
    rewrite string_app_cons in H. simpl in H.
    rewrite !string_app_length in H. simpl in H. lia.
  - apply (f_equal String.length) in H.
    rewrite string_app_cons in H. simpl in H.
    rewrite !string_app_length in H. simpl in H. lia.
  - rewrite !string_app_cons in H. injection H as -> H. f_equal. by apply IH.
Qed.

Lemma key_toString_setVal v e : key_toString (setVal v e) = key_toString e.
Proof. done. Qed.

Lemma toString_key e s :
  key_toString e = Some s ->
  toString e = Some (arrayOpToString (m_op e) +:+ s +:+ val_toString e).
Proof. intros H. unfold toString. by rewrite H. Qed.

Lemma toString_key_only e s :
  key_toString e = Some s -> m_val_type e = kInvalidDataType ->
  toString e = Some (arrayOpToString (m_op e) +:+ s).
Proof.
  intros H Hv. rewrite (toString_key e s H). unfold val_toString.
  rewrite decide_True by done. by rewrite string_app_nil_r.
Qed.

(** The decimal text of the key determines the key. *)
Lemma i8_text_inj (n m : Z) :
  " key=[i8:" +:+ pretty n +:+ "]" = " key=[i8:" +:+ pretty m +:+ "]" ->
  n = m.
Proof.
  intros H. apply String.app_inj in H. apply string_app_inj_l in H.
  by apply (inj pretty) in H.
Qed.

Ltac key_only tac :=
  match goal with
  | |- toString ?e = Some (_ +:+ ?s) =>
      rewrite (toString_key_only e s); [done | tac | done]
  end.

Ltac key_val tac :=
  match goal with
  | |- toString ?e = Some (_ +:+ ?s +:+ _) =>
      rewrite (toString_key e s); [done | tac]
  end.

(** An integer key outside the int8 range: the tag, by the width. *)
Lemma EventKey_int_wide_text (op : ArrayOp) (n : Z) (tag : string) :
  (~ (-128 <= n <= 127) /\ -2^15 <= n < 2^15 /\ tag = "i16")
  \/ (~ (-2^15 <= n < 2^15) /\ -2^31 <= n < 2^31 /\ tag = "i32")
  \/ (~ (-2^31 <= n < 2^31) /\ tag = "i64") ->
  (exists e, EventKey_int op n = Some e
     /\ toString e
        = Some (arrayOpToString op +:+ (" key=[" +:+ tag +:+ "]")))
  /\ (forall v, exists e, EventKey_int_val op n v = Some e
     /\ toString e
        = Some (arrayOpToString op +:+ (" key=[" +:+ tag +:+ "]")
                +:+ val_toString e)).
Proof.
  intros Hn.
  assert (~ (-128 <= n <= 127)
          /\ getSpec (TVInt n) ∈ [Int16; Int32; Int64; Str]
          /\ specToStr (getSpec (TVInt n)) = tag) as (Hwide & Hin & Htag).
  { destruct Hn as [(H8 & H16 & ->)|[(H16 & H32 & ->)|(H32 & ->)]].
    - rewrite (getSpec_int16 n H8 H16).
      split; [done|]. split; [|done]. repeat first [by left | right].
    - rewrite (getSpec_int32 n H16 H32).
      split; [lia|]. split; [|done]. repeat first [by left | right].
    - rewrite (getSpec_int64 n H32).
      split; [lia|]. split; [|done]. repeat first [by left | right]. }
  destruct (setKey_int_wide n (EventKey_init op) Hwide) as [Hset _].
  rewrite <- Htag. split.
  - eexists. split; [exact Hset|].
    key_only ltac:(by apply key_toString_category).
  - intros v. unfold EventKey_int_val. unfold EventKey_int in Hset.
    rewrite Hset. eexists. split; [done|].
    key_val ltac:(by apply key_toString_category).
Qed.

(** C3.  Round trip of the key through an EventKey, for the constructors
    that take a key (alone or with a value).  (1) An integer n with
    INT8_MIN <= n <= INT8_MAX is rendered as key=[i8:n], n printed in
    decimal, and that text determines n.  (2) A static string whose pointer
    has non-zero low 32 bits equal to the whole pointer is rendered as
    key=[s32:"..."] with the escaped contents of the string.  (3) Every
    other integer is rendered by its category tag alone, the integer itself
    does not appear: key=[i16] when it is a 16-bit value, key=[i32] when it
    is a 32-bit value that is not a 16-bit one, and key=[i64] otherwise
    (as 2^40 is).  (4) Every other string (a non-null pointer) is rendered
    as key=[str]. *)
Theorem EventKey_round_trip (op : ArrayOp) :
  (forall n, -128 <= n <= 127 ->
     (exists e, EventKey_int op n = Some e
        /\ toString e
           = Some (arrayOpToString op +:+ " key=[i8:" +:+ pretty n +:+ "]"))
     /\ (forall v, exists e, EventKey_int_val op n v = Some e
        /\ toString e
           = Some (arrayOpToString op +:+ (" key=[i8:" +:+ pretty n +:+ "]")
                   +:+ val_toString e))
     /\ (forall m, " key=[i8:" +:+ pretty n +:+ "]"
                   = " key=[i8:" +:+ pretty m +:+ "]" -> n = m))
  /\ (forall k, isStatic k = true -> k mod 2^32 <> 0 -> k mod 2^32 = k ->
     (exists e, EventKey_str op k = Some e
        /\ toString e
           = Some (arrayOpToString op
                   +:+ (" key=[s32:" +:+ quote +:+ cEscape (data k)
                        +:+ quote +:+ "]")))
     /\ (forall v, exists e, EventKey_str_val op k v = Some e
        /\ toString e
           = Some (arrayOpToString op
                   +:+ (" key=[s32:" +:+ quote +:+ cEscape (data k)
                        +:+ quote +:+ "]")
                   +:+ val_toString e)))
  /\ (forall n tag,
        (~ (-128 <= n <= 127) /\ -2^15 <= n < 2^15 /\ tag = "i16")
        \/ (~ (-2^15 <= n < 2^15) /\ -2^31 <= n < 2^31 /\ tag = "i32")
        \/ (~ (-2^31 <= n < 2^31) /\ tag = "i64") ->
     (exists e, EventKey_int op n = Some e
        /\ toString e
           = Some (arrayOpToString op +:+ (" key=[" +:+ tag +:+ "]")))
     /\ (forall v, exists e, EventKey_int_val op n v = Some e
        /\ toString e
           = Some (arrayOpToString op +:+ (" key=[" +:+ tag +:+ "]")
                   +:+ val_toString e)))
  /\ (forall k, k <> 0 ->
     ~ (isStatic k = true /\ k mod 2^32 <> 0 /\ k mod 2^32 = k) ->
     (exists e, EventKey_str op k = Some e
        /\ toString e = Some (arrayOpToString op +:+ " key=[str]"))
     /\ (forall v, exists e, EventKey_str_val op k v = Some e
        /\ toString e
           = Some (arrayOpToString op +:+ " key=[str]" +:+ val_toString e))).
Proof.
  split; [|split; [|split; [apply EventKey_int_wide_text|]]]; repeat split.
  - eexists. split; [by apply setKey_int_small|].
    key_only ltac:(by apply key_toString_int8).
  - unfold EventKey_int_val. rewrite setKey_int_small by done.
    eexists. split; [done|].
    key_val ltac:(by apply key_toString_int8).
  - apply i8_text_inj.
  - assert (0 <= k < 2^32) as Hk by (rewrite <- H1; by apply Z.mod_pos_bound).
    eexists. split; [by apply setKey_str_small|].
    key_only ltac:(by apply key_toString_str32).
  - assert (0 <= k < 2^32) as Hk by (rewrite <- H1; by apply Z.mod_pos_bound).
    unfold EventKey_str_val. rewrite setKey_str_small by done.
    eexists. split; [done|].
    key_val ltac:(by apply key_toString_str32).
  - assert (~ (isStatic k = true /\ 0 <= k < 2^32)) as Hk.
    { intros [Hs Hr]. apply H0. rewrite Z.mod_small by done. done. }
    eexists. split; [by apply setKey_str_other|].
    key_only ltac:(by apply key_toString_category;
                   repeat first [by left | right]).
  - intros v.
    assert (~ (isStatic k = true /\ 0 <= k < 2^32)) as Hk.
    { intros [Hs Hr]. apply H0. rewrite Z.mod_small by done. done. }
    unfold EventKey_str_val. rewrite setKey_str_other by done.
    eexists. split; [done|].
    key_val ltac:(by apply key_toString_category;
                  repeat first [by left | right]).
Qed.

End EventKeyRendering.

(** ** The sink of a logged event *)

Section SinkOfEvent.
Context `{RT : Runtime}.

Lemma getSrcKey_frame t fp :
  rds_header t = true -> tl_regState t = CLEAN -> vmfp t = Some fp ->
  Func_contains fp (vmpc t) = true ->
  getSrcKey t = Some (SrcKey_at fp (vmpc t) ResumeNone).
Proof.
  intros Hh Hc Hf Hp. unfold getSrcKey. rewrite Hh, Hc, Hf. simpl.
  rewrite Hp. simpl. by rewrite decide_True by done.
Qed.

Lemma getSrcKey_no_frame t :
  rds_header t = false \/ tl_regState t <> CLEAN \/ vmfp t = None
  \/ (exists fp, vmfp t = Some fp /\ Func_contains fp (vmpc t) = false) ->
  getSrcKey t = Some SrcKey_empty.
Proof.
  unfold getSrcKey. intros [H|[H|[H|(fp & Hf & Hp)]]].
  - by rewrite H.
  - destruct (rds_header t); [|done]. simpl.
    by rewrite (bool_decide_eq_false_2 _ H).
  - destruct (rds_header t); [|done]. simpl. rewrite H.
    by rewrite orb_true_r.
  - destruct (rds_header t); [|done]. simpl. rewrite Hf.
    destruct (negb _ || _); [done|]. simpl. by rewrite Hp.
Qed.

Lemma getSrcKey_cases t :
  getSrcKey t = Some SrcKey_empty
  \/ exists fp, vmfp t = Some fp
       /\ getSrcKey t = Some (SrcKey_at fp (vmpc t) ResumeNone).
Proof.
  destruct (rds_header t) eqn:Hh; [|left; apply getSrcKey_no_frame; tauto].
  destruct (decide (tl_regState t = CLEAN)) as [Hc|Hc];
    [|left; apply getSrcKey_no_frame; tauto].
  destruct (vmfp t) as [fp|] eqn:Hf; [|left; apply getSrcKey_no_frame; tauto].
  destruct (Func_contains fp (vmpc t)) eqn:Hp.
  - right. exists fp. split; [done|]. by apply getSrcKey_frame.
  - left. apply getSrcKey_no_frame. right. right. right. by exists fp.
Qed.

Lemma getSrcKey_total t : exists sk, getSrcKey t = Some sk.
Proof. destruct (getSrcKey_cases t) as [H|(fp & _ & H)]; eauto. Qed.

Lemma getSrcKey_resumeMode t sk :
  getSrcKey t = Some sk -> resumeMode sk = ResumeNone.
Proof.
  destruct (getSrcKey_cases t) as [H|(fp & _ & H)]; rewrite H;
    by intros [= <-].
Qed.

Lemma getSrcKey_canonical t sk :
  getSrcKey t = Some sk -> valid sk = true -> canonicalize sk = Some sk.
Proof.
  intros H Hv. apply canonicalize_fixpoint; [done|].
  by apply (getSrcKey_resumeMode t).
Qed.

Lemma setKey_int_total k e :
  exists e', setKey_int k e = Some e' /\ m_op e' = m_op e.
Proof.
  destruct (decide (-128 <= k <= 127)) as [H|H].
  - rewrite setKey_int_small by done. eauto.
  - destruct (setKey_int_wide k e H) as [-> _]. eauto.
Qed.

Lemma setKey_str_total k e :
  exists e', setKey_str k e = Some e' /\ m_op e' = m_op e.
Proof.
  destruct (decide (isStatic k = true /\ 0 <= k < 2^32)) as [[Hs Hk]|H].
  - rewrite setKey_str_small by done. eauto.
  - rewrite setKey_str_other by done. eauto.
Qed.

(** The constructors never trip a checked cast, and keep the operation. *)
Lemma EventKey_make_total op a :
  exists key, EventKey_make op a = Some key /\ getOp key = op.
Proof.
  destruct a as [|k|k|v|k v|k v]; simpl.
  - eauto.
  - apply (setKey_int_total k (EventKey_init op)).
  - apply (setKey_str_total k (EventKey_init op)).
  - eauto.
  - unfold EventKey_int_val.
    destruct (setKey_int_total k (EventKey_init op)) as (e & -> & He). eauto.
  - unfold EventKey_str_val.
    destruct (setKey_str_total k (EventKey_init op)) as (e & -> & He). eauto.
Qed.

Lemma event_pair_total t key : exists pair, event_pair t key = Some pair.
Proof.
  unfold event_pair. destruct (negb _); simpl; [|eauto].
  destruct (getSrcKey_total t) as [sk ->]. simpl. eauto.
Qed.

(** C7.  A call of [logEvent] made before export starts records the event
    under a sink: in the profile it returns, the events map holds a counter
    for the pair of that sink and the packed key of the event, at 1 when the
    pair was not there and one more (on 64 bits) than before otherwise;
    every other counter, so every counter under another sink, is what it
    was, and so are the other fields of the profile.  The sink is the empty
    SrcKey when the operation is ReleaseUncounted, whatever the state of
    the calling thread; otherwise it is the result of [getSrcKey], which is
    the SrcKey (function of the current frame, current pc, resume mode None)
    when the thread has an RDS header, clean registers under the anchor, a
    frame, and a pc inside the frame's function, and the empty SrcKey in
    every other case. *)
Theorem logEvent_sink (t : Thread) (op : ArrayOp) (a : LogArgs)
  (p : LoggingProfile) :
  exists key sink p',
    EventKey_make op a = Some key /\ getOp key = op
    /\ logEvent false t op a p = Some p'
    /\ p' = with_events (count_one (sink, toUInt64 key)) p
    /\ events p' !! (sink, toUInt64 key)
       = Some (match events p !! (sink, toUInt64 key) with
               | None => 1
               | Some c => Int.incr64 c
               end)
    /\ (forall other, other <> (sink, toUInt64 key) ->
          events p' !! other = events p !! other)
    /\ (events p = ∅ -> events p' = {[ (sink, toUInt64 key) := 1 ]})
    /\ (source p' = source p /\ monotypeEvents p' = monotypeEvents p
        /\ loggingArraysEmitted p' = loggingArraysEmitted p
        /\ sampleCount p' = sampleCount p
        /\ staticLoggingArray p' = staticLoggingArray p
        /\ staticSampledArray p' = staticSampledArray p)
    /\ (op = ReleaseUncounted -> sink = SrcKey_empty)
    /\ (op <> ReleaseUncounted ->
        getSrcKey t = Some sink
        /\ (forall fp, rds_header t = true -> tl_regState t = CLEAN ->
              vmfp t = Some fp -> Func_contains fp (vmpc t) = true ->
              sink = SrcKey_at fp (vmpc t) ResumeNone)
        /\ (rds_header t = false \/ tl_regState t <> CLEAN \/ vmfp t = None
            \/ (exists fp, vmfp t = Some fp
                  /\ Func_contains fp (vmpc t) = false) ->
            sink = SrcKey_empty)).
Proof.
  assert (forall sink key,
            events (with_events (count_one (sink, toUInt64 key)) p)
              !! (sink, toUInt64 key)
            = Some (match events p !! (sink, toUInt64 key) with
                    | None => 1
                    | Some c => Int.incr64 c
                    end)
            /\ (forall other, other <> (sink, toUInt64 key) ->
                  events (with_events (count_one (sink, toUInt64 key)) p)
                    !! other = events p !! other)
            /\ (events p = ∅ ->
                events (with_events (count_one (sink, toUInt64 key)) p)
                = {[ (sink, toUInt64 key) := 1 ]})) as Hrec.
  { intros sink key. simpl. split; [|split].
    - unfold count_one.
      destruct (events p !! (sink, toUInt64 key));
        by rewrite lookup_insert_eq.
    - intros other Hne. unfold count_one.
      destruct (events p !! (sink, toUInt64 key));
        by rewrite lookup_insert_ne.
    - intros ->. unfold count_one. rewrite lookup_empty.
      by rewrite insert_empty. }
  destruct (EventKey_make_total op a) as (key & Hkey & Hop).
  exists key. unfold logEvent. rewrite Hkey. simpl.
  unfold event_pair. rewrite Hop.
  destruct (decide (op = ReleaseUncounted)) as [->|Hne].
  - exists SrcKey_empty. eexists.
    rewrite bool_decide_eq_true_2 by done. simpl.
    split; [done|]. split; [done|]. split; [reflexivity|].
    split; [reflexivity|].
    destruct (Hrec SrcKey_empty key) as (H1 & H2 & H3).
    repeat split; done.
  - destruct (getSrcKey_total t) as [sink Hsink]. exists sink. eexists.
    rewrite bool_decide_eq_false_2 by done. simpl. rewrite Hsink. simpl.
    split; [done|]. split; [done|]. split; [reflexivity|].
    split; [reflexivity|].
    destruct (Hrec sink key) as (H1 & H2 & H3).
    repeat split; try done.
    + intros fp Hh Hc Hf Hp.
      rewrite (getSrcKey_frame t fp Hh Hc Hf Hp) in Hsink. congruence.
    + intros Hnf. rewrite (getSrcKey_no_frame t Hnf) in Hsink. congruence.
Qed.

End SinkOfEvent.

(** ** Counting in a concurrent map *)

Section Counting.
Context `{Countable K}.
Implicit Types m : gmap K Z.

Lemma sum_counts_empty : sum_counts (∅ : gmap K Z) = 0.
Proof. unfold sum_counts. by rewrite map_fold_empty. Qed.

Lemma sum_counts_insert_None m k v :
  m !! k = None -> sum_counts (<[k := v]> m) = sum_counts m + v.
Proof.
  intros Hk. unfold sum_counts.
  rewrite map_fold_insert_L; [done | intros; lia | done].
Qed.

Lemma sum_counts_insert_Some m k c v :
  m !! k = Some c -> sum_counts (<[k := v]> m) = sum_counts m - c + v.
Proof.
  intros Hk.
  rewrite <- (insert_delete_eq m k v).
  rewrite sum_counts_insert_None by apply lookup_delete_eq.
  rewrite <- (insert_id m k c Hk) at 2.
  rewrite <- (insert_delete_eq m k c).
  rewrite sum_counts_insert_None by apply lookup_delete_eq. lia.
Qed.

(** The loop of [getTotalEvents] computes the sum modulo 2^64. *)
Lemma total_wrap m :
  map_fold (fun (_ : K) count total => Int.wrap64 (total + count)) 0 m
  = Int.wrap64 (sum_counts m).
Proof.
  induction m as [|k c m Hk IH] using map_ind.
  - by rewrite sum_counts_empty, map_fold_empty.
  - rewrite sum_counts_insert_None by done.
    rewrite map_fold_insert_L; [|intros|done].
    + by rewrite IH, IntFacts.wrap64_add_l.
    + rewrite !IntFacts.wrap64_add_l. f_equal. lia.
Qed.

Lemma count_one_lookup m k :
  count_one k m !! k
  = Some (match m !! k with None => 1 | Some c => Int.incr64 c end).
Proof.
  unfold count_one. destruct (m !! k); by rewrite lookup_insert_eq.
Qed.

Lemma count_one_lookup_ne m k j : k <> j -> count_one k m !! j = m !! j.
Proof.
  intros Hne. unfold count_one.
  destruct (m !! k); by rewrite lookup_insert_ne.
Qed.

Lemma count_one_sum m k :
  Int.wrap64 (sum_counts (count_one k m)) = Int.wrap64 (sum_counts m + 1).
Proof.
  unfold count_one. destruct (m !! k) as [c|] eqn:Hk.
  - rewrite (sum_counts_insert_Some m k c) by done.
    unfold Int.incr64.
    rewrite IntFacts.wrap64_add_r. f_equal. lia.
  - by rewrite sum_counts_insert_None.
Qed.

Lemma after_increments_succ n :
  Some (match after_increments n with
        | None => 1
        | Some c => Int.incr64 c
        end) = after_increments (S n).
Proof.
  destruct n as [|n]; [done|]. unfold after_increments, Int.incr64.
  rewrite IntFacts.wrap64_add_l. do 2 f_equal. lia.
Qed.

Lemma occurrences_snoc_eq (x : K) l : occurrences x (l ++ [x]) = S (occurrences x l).
Proof.
  unfold occurrences. rewrite filter_app, length_app.
  rewrite filter_cons_True by done. simpl. lia.
Qed.

Lemma occurrences_snoc_ne (x y : K) l :
  y <> x -> occurrences x (l ++ [y]) = occurrences x l.
Proof.
  intros Hne. unfold occurrences. rewrite filter_app, length_app.
  rewrite filter_cons_False by done. simpl. lia.
Qed.

End Counting.

(** ** The packed form of an EventKey *)

Section Packing.
Context `{RT : Runtime}.

Lemma low_byte a x : 0 <= a < 2^8 -> (a + 2^8 * x) mod 2^8 = a.
Proof.
  intros Ha. rewrite (Z.mul_comm (2^8) x), Z.mod_add by lia.
  by apply Z.mod_small.
Qed.

Lemma drop_byte a x : 0 <= a < 2^8 -> (a + 2^8 * x) / 2^8 = x.
Proof.
  intros Ha. rewrite (Z.mul_comm (2^8) x), Z.div_add by lia.
  rewrite (Z.div_small a) by done. lia.
Qed.

Lemma Spec_raw_range s : 0 <= Spec_raw s < 2^8.
Proof. destruct s; simpl; lia. Qed.

Lemma Spec_of_raw_raw s : Spec_of_raw (Spec_raw s) = s.
Proof. by destruct s. Qed.

Lemma sign_extend8_mod d : -2^7 <= d < 2^7 -> sign_extend8 (d mod 2^8) = d.
Proof.
  intros Hd. unfold sign_extend8.
  destruct (Z.neg_nonneg_cases d) as [Hneg|Hpos].
  - replace (d mod 2^8) with (d + 2^8).
    + destruct (d + 2^8 <? 2^7) eqn:E; [apply Z.ltb_lt in E|]; lia.
    + apply Z.mod_unique with (q := -1); lia.
  - rewrite Z.mod_small by lia.
    destruct (d <? 2^7) eqn:E; [done|]. apply Z.ltb_ge in E. lia.
Qed.

(** The eight bytes identify the key: reading a packed key back gives the
    key, for an operation whose enumerator is a byte, a value datatype that
    is an int8 and a 32-bit [m_key]. *)
Lemma EventKey_of_toUInt64 e :
  0 <= ArrayOp_raw (m_op e) < 2^8 ->
  ArrayOp_of_raw (ArrayOp_raw (m_op e)) = m_op e ->
  -2^7 <= m_val_type e < 2^7 -> 0 <= m_key e < 2^32 ->
  EventKey_of_uint64 (toUInt64 e) = e.
Proof.
  intros Hop Hinv Hvt Hkey. destruct e as [op ks vs vt key]. simpl in *.
  pose proof (Spec_raw_range ks) as Hks. pose proof (Spec_raw_range vs) as Hvs.
  pose proof (Z.mod_pos_bound vt (2^8) ltac:(lia)) as Hvb.
  unfold EventKey_of_uint64, toUInt64. simpl.
  set (a := ArrayOp_raw op) in *. set (b := Spec_raw ks) in *.
  set (c := Spec_raw vs) in *. set (d := vt mod 2^8) in *.
  assert (a + 2^8 * b + 2^16 * c + 2^24 * d + 2^32 * key
          = a + 2^8 * (b + 2^8 * (c + 2^8 * (d + 2^8 * key)))) as -> by lia.
  assert (forall x, x / 2^16 = x / 2^8 / 2^8) as E16
    by (intros x; rewrite Z.div_div by lia; done).
  assert (forall x, x / 2^24 = x / 2^8 / 2^8 / 2^8) as E24
    by (intros x; rewrite !Z.div_div by lia; done).
  assert (forall x, x / 2^32 = x / 2^8 / 2^8 / 2^8 / 2^8) as E32
    by (intros x; rewrite !Z.div_div by lia; done).
  rewrite E16, E24, E32.
  rewrite !drop_byte, !low_byte by done.
  rewrite (Z.mod_small key) by lia.
  subst a b c d. rewrite Hinv, !Spec_of_raw_raw, sign_extend8_mod by done.
  done.
Qed.

Lemma toUInt64_inj e1 e2 :
  (forall e, e = e1 \/ e = e2 ->
     0 <= ArrayOp_raw (m_op e) < 2^8
     /\ ArrayOp_of_raw (ArrayOp_raw (m_op e)) = m_op e
     /\ -2^7 <= m_val_type e < 2^7 /\ 0 <= m_key e < 2^32) ->
  toUInt64 e1 = toUInt64 e2 -> e1 = e2.
Proof.
  intros Hwf Heq.
  destruct (Hwf e1 ltac:(by left)) as (H1 & H2 & H3 & H4).
  destruct (Hwf e2 ltac:(by right)) as (H5 & H6 & H7 & H8).
  rewrite <- (EventKey_of_toUInt64 e1), <- (EventKey_of_toUInt64 e2) by done.
  by rewrite Heq.
Qed.

End Packing.

(** ** Event counts of a source profile *)

Section EventCounts.
Context `{RT : Runtime}.

Lemma getTotalEvents_wrap p :
  getTotalEvents p = Int.wrap64 (sum_counts (events p)).
Proof. unfold getTotalEvents. apply total_wrap. Qed.

(** One call: the slot of the event's pair is created at 1 or incremented,
    and no other slot changes. *)
Lemma logEventImpl_step t key pair p :
  event_pair t key = Some pair ->
  exists p', logEventImpl false t key p = Some p'
    /\ events p' !! pair
       = Some (match events p !! pair with
               | None => 1
               | Some c => Int.incr64 c
               end)
    /\ (forall other, other <> pair -> events p' !! other = events p !! other)
    /\ getTotalEvents p' = Int.wrap64 (getTotalEvents p + 1).
Proof.
  intros Hpair. unfold logEventImpl. rewrite Hpair. simpl.
  eexists. split; [done|]. simpl. split; [apply count_one_lookup|]. split.
  - intros other Hne. by apply count_one_lookup_ne.
  - rewrite !getTotalEvents_wrap. simpl.
    by rewrite count_one_sum, IntFacts.wrap64_add_l.
Qed.

Lemma logEventImpl_seq_counts calls : forall pairs seen p,
  Forall2 (fun c pr => event_pair c.1 c.2 = Some pr) calls pairs ->
  (forall pair, events p !! pair = after_increments (occurrences pair seen)) ->
  exists p', logEventImpl_seq false calls p = Some p'
    /\ (forall pair,
          events p' !! pair
          = after_increments (occurrences pair (seen ++ pairs)))
    /\ getTotalEvents p'
       = Int.wrap64 (getTotalEvents p + Z.of_nat (length calls))
    /\ (Z.of_nat (length seen + length calls) < 2^64 ->
        sum_counts (events p) = Z.of_nat (length seen) ->
        sum_counts (events p') = Z.of_nat (length seen + length calls)).
Proof.
  induction calls as [|[t key] calls IH]; intros pairs seen p Hpairs Hseen.
  - apply Forall2_nil_inv_l in Hpairs as ->. exists p.
    rewrite app_nil_r. simpl. rewrite Z.add_0_r, Nat.add_0_r.
    rewrite getTotalEvents_wrap at 1.
    rewrite getTotalEvents_wrap.
    unfold Int.wrap64. by rewrite Zmod_mod.
  - apply Forall2_cons_inv_l in Hpairs as (pair & pairs' & Hpair & Hrest & ->).
    simpl in Hpair.
    destruct (logEventImpl_step t key pair p Hpair)
      as (p1 & Hstep & Hat & Hother & Htot).
    destruct (IH pairs' (seen ++ [pair]) p1 Hrest)
      as (p' & Hrun & Hcnt & Htot' & Hsum').
    { intros pr. destruct (decide (pr = pair)) as [->|Hne].
      - rewrite Hat, Hseen, occurrences_snoc_eq.
        apply after_increments_succ.
      - rewrite (Hother pr Hne), Hseen.
        by rewrite occurrences_snoc_ne. }
    exists p'. cbn [logEventImpl_seq]. rewrite Hstep. simpl.
    split; [done|]. split; [|split].
    + intros pr. rewrite Hcnt. by rewrite <- app_assoc.
    + rewrite Htot', Htot, IntFacts.wrap64_add_l. f_equal. lia.
    + intros Hlen Hsum. rewrite length_app in Hsum'. simpl in Hsum'.
      replace (length seen + S (length calls))%nat
        with (length seen + 1 + length calls)%nat by lia.
      apply Hsum'; [lia|].
      (* the step adds exactly one: the incremented counter did not wrap *)
      unfold logEventImpl in Hstep. rewrite Hpair in Hstep.
      injection Hstep as <-. simpl. unfold count_one.
      assert (occurrences pair seen <= length seen)%nat as Hocc
        by apply length_filter.
      rewrite Hseen. destruct (occurrences pair seen) as [|k] eqn:Hk.
      * simpl. rewrite sum_counts_insert_None by (by rewrite Hseen, Hk).
        lia.
      * simpl.
        rewrite (sum_counts_insert_Some _ _ (Int.wrap64 (Z.of_nat (S k))))
          by (by rewrite Hseen, Hk).
        rewrite (IntFacts.wrap64_small (Z.of_nat (S k))) by lia.
        rewrite IntFacts.incr64_small by lia. lia.
Qed.

(** The calls of a sequence that were made with the EventKey [key] and
    whose sink was [sink]. *)
Lemma occurrences_per_key calls pairs sink key :
  Forall2 (fun c pr => event_pair c.1 c.2 = Some pr) calls pairs ->
  Forall (fun c => EventKey_representable c.2) calls ->
  EventKey_representable key ->
  occurrences (sink, toUInt64 key) pairs
  = length (filter (fun c => c.2 = key
                             /\ fst <$> event_pair c.1 c.2 = Some sink)
                   calls).
Proof.
  intros Hpairs. induction Hpairs as [|[t k] pr calls pairs Hpr Hrest IH];
    intros Hcalls Hkey; [done|].
  apply Forall_cons in Hcalls as [Hk Hcalls]. simpl in Hpr, Hk.
  specialize (IH Hcalls Hkey). unfold occurrences in *.
  assert (exists s, pr = (s, toUInt64 k)) as [s ->].
  { revert Hpr. unfold event_pair.
    destruct (if negb _ then _ else _) as [s|]; [|done]. simpl.
    intros [= <-]. by exists s. }
  destruct (decide (k = key /\ s = sink)) as [[-> ->]|Hne].
  - rewrite filter_cons_True by done.
    rewrite (filter_cons_True _ (t, key)) by (simpl; by rewrite Hpr).
    simpl. by rewrite IH.
  - rewrite filter_cons_False.
    2:{ intros [= -> Hw]. apply Hne. split; [|done].
        apply toUInt64_inj; [|done]. by intros e [->| ->]. }
    rewrite filter_cons_False; [done|]. simpl. rewrite Hpr. simpl.
    intros [-> [= ->]]. by apply Hne.
Qed.

(** C4.  (1) A call of [logEventImpl] made before export starts creates the
    counter of its (sink, EventKey) pair at 1 when the pair is new and adds
    1 to it (on 64 bits) otherwise, and touches no other counter; the sink
    of the pair is the empty SrcKey for ReleaseUncounted and the result of
    [getSrcKey] otherwise.  (2) The
    64-bit word under which the counter is kept identifies the EventKey:
    two keys, with members in the ranges of their C++ types, that pack into
    the same word are equal, so that different EventKeys, and the same
    EventKey at different sinks, have different counters.  (3) After any
    sequence of fewer than 2^64 such calls on a new profile, every call has
    been counted: for every sink and every EventKey the counter of the pair
    equals the number of calls made with that EventKey whose sink was that
    sink (a pair no call mapped to has no counter, and there are no other
    counters), and the sum of all counters, which is also what
    [getTotalEvents] returns, equals the number of calls. *)
Theorem logEventImpl_counts (sk : SrcKey) (calls : list (Thread * EventKey)) :
  Z.of_nat (length calls) < 2^64 ->
  Forall (fun c => EventKey_representable c.2) calls ->
  (forall t key (p : LoggingProfile),
     exists pair p', event_pair t key = Some pair
       /\ pair.2 = toUInt64 key
       /\ (getOp key = ReleaseUncounted -> pair.1 = SrcKey_empty)
       /\ (getOp key <> ReleaseUncounted -> getSrcKey t = Some pair.1)
       /\ logEventImpl false t key p = Some p'
       /\ events p' !! pair
          = Some (match events p !! pair with
                  | None => 1
                  | Some c => Int.incr64 c
                  end)
       /\ (forall c, events p !! pair = Some c -> 0 <= c < 2^64 - 1 ->
             events p' !! pair = Some (c + 1))
       /\ (forall other, other <> pair ->
             events p' !! other = events p !! other))
  /\ (forall key key',
        EventKey_representable key -> EventKey_representable key' ->
        toUInt64 key = toUInt64 key' -> key = key')
  /\ exists pairs p,
       Forall2 (fun c pr => event_pair c.1 c.2 = Some pr) calls pairs
       /\ logEventImpl_seq false calls (LoggingProfile_new sk) = Some p
       /\ (forall sink key, EventKey_representable key ->
             events p !! (sink, toUInt64 key)
             = match length (filter
                               (fun c => c.2 = key
                                         /\ fst <$> event_pair c.1 c.2
                                            = Some sink) calls) with
               | O => None
               | S k => Some (Z.of_nat (S k))
               end)
       /\ (forall pair,
             events p !! pair
             = match occurrences pair pairs with
               | O => None
               | S k => Some (Z.of_nat (S k))
               end)
       /\ sum_counts (events p) = Z.of_nat (length calls)
       /\ getTotalEvents p = Z.of_nat (length calls).
Proof.
  intros Hlen Hrep. split; [|split].
  - intros t key p. destruct (event_pair_total t key) as [pair Hpair].
    destruct (logEventImpl_step t key pair p Hpair)
      as (p' & Hstep & Hat & Hother & _).
    exists pair, p'. repeat split; try done.
    + revert Hpair. unfold event_pair.
      destruct (if negb _ then _ else _) as [s|]; [|done]. simpl.
      by intros [= <-].
    + intros Hop. revert Hpair. unfold event_pair.
      rewrite bool_decide_eq_true_2 by done. simpl. by intros [= <-].
    + intros Hop. revert Hpair. unfold event_pair.
      rewrite bool_decide_eq_false_2 by done. simpl.
      destruct (getSrcKey t) as [s|]; [|done]. simpl. by intros [= <-].
    + intros c Hc Hr. rewrite Hat, Hc. by rewrite IntFacts.incr64_small.
  - intros key key' Hk Hk' Heq. apply toUInt64_inj; [|done].
    by intros e [->| ->].
  - assert (exists pairs,
               Forall2 (fun c pr => event_pair c.1 c.2 = Some pr) calls pairs)
      as [pairs Hpairs].
    { clear Hlen Hrep. induction calls as [|[t key] calls [pairs IH]].
      - exists []. constructor.
      - destruct (event_pair_total t key) as [pair Hpair].
        exists (pair :: pairs). by constructor. }
    destruct (logEventImpl_seq_counts calls pairs [] (LoggingProfile_new sk)
                Hpairs) as (p & Hrun & Hcnt & Htot & Hsum); [done|].
    assert (length pairs = length calls) as Hlp
      by (symmetry; by eapply Forall2_length).
    assert (forall pair,
               events p !! pair
               = match occurrences pair pairs with
                 | O => None
                 | S k => Some (Z.of_nat (S k))
                 end) as Hexact.
    { intros pair. rewrite Hcnt. simpl.
      assert (occurrences pair pairs <= length pairs)%nat as Hle
        by apply length_filter.
      destruct (occurrences pair pairs) as [|k]; [done|].
      unfold after_increments. rewrite IntFacts.wrap64_small; [done|lia]. }
    assert (getTotalEvents p = Z.of_nat (length calls)) as Htotal.
    { rewrite Htot. unfold getTotalEvents at 1. simpl.
      rewrite map_fold_empty. simpl.
      rewrite IntFacts.wrap64_small; lia. }
    exists pairs, p. split; [done|]. split; [done|]. split.
    { intros sink key Hkey. rewrite Hexact.
      by rewrite (occurrences_per_key calls pairs sink key Hpairs Hrep Hkey). }
    split; [done|]. split; [|done].
    apply Hsum; [simpl; lia|]. simpl. apply sum_counts_empty.
Qed.

End EventCounts.

(** ** Conversion of a 64-bit count to double *)

Module DoubleFacts.

Lemma digits2_pos_bound p :
  forall k, 0 <= k -> Z.pos p < 2^k -> Z.pos (digits2_pos p) <= k.
Proof.
  induction p as [p IH|p IH|]; intros k Hk Hp; simpl.
  - assert (k <> 0) by (intros ->; simpl in Hp; lia).
    replace k with (Z.succ (k - 1)) in Hp by lia.
    rewrite Z.pow_succ_r in Hp by lia.
    specialize (IH (k - 1) ltac:(lia) ltac:(lia)). lia.
  - assert (k <> 0) by (intros ->; simpl in Hp; lia).
    replace k with (Z.succ (k - 1)) in Hp by lia.
    rewrite Z.pow_succ_r in Hp by lia.
    specialize (IH (k - 1) ltac:(lia) ltac:(lia)). lia.
  - assert (k <> 0) by (intros ->; simpl in Hp; lia). lia.
Qed.

Lemma Zdigits2_bound m k : 0 <= k -> 0 <= m < 2^k -> 0 <= Zdigits2 m <= k.
Proof.
  intros Hk [H0 Hm]. destruct m as [|p|p]; simpl; [lia| |lia].
  split; [lia|]. by apply digits2_pos_bound.
Qed.

Lemma iter_pos_invariant {A} (P : A -> Prop) (f : A -> A) :
  (forall x, P x -> P (f x)) ->
  forall n x, P x -> P (SpecFloat.iter_pos f n x).
Proof.
  intros Hf. induction n as [n IH|n IH|]; intros x Hx; simpl; auto.
Qed.

(** A right shift keeps a mantissa between 0 and its bound. *)
Lemma shr_1_bound B mrs : 0 <= shr_m mrs <= B -> 0 <= shr_m (shr_1 mrs) <= B.
Proof.
  destruct mrs as [m r s]. simpl. destruct m as [|[p|p|]|[p|p|]]; simpl; lia.
Qed.

Lemma shr_bound B mrs e n mrs' e' :
  shr mrs e n = (mrs', e') -> 0 <= shr_m mrs <= B ->
  0 <= shr_m mrs' <= B /\ e' = e + Z.max 0 n.
Proof.
  unfold shr. destruct n as [|p|p]; intros [= <- <-] Hm.
  - split; [done|lia].
  - split; [|lia].
    apply (iter_pos_invariant (fun x => 0 <= shr_m x <= B)); [|done].
    apply shr_1_bound.
  - split; [done|lia].
Qed.

Lemma round_nearest_even_bound m l :
  0 <= m -> 0 <= round_nearest_even m l <= m + 1.
Proof.
  intros Hm. unfold round_nearest_even.
  destruct l as [|[]]; try lia. destruct (Z.even m); lia.
Qed.

(** Rounding a positive mantissa below 2^116 at a non-positive exponent
    stays far from the overflow threshold. *)
Lemma binary_round_aux_finite (mx : positive) ex :
  Z.pos mx < 2^116 -> ex <= 0 ->
  finite_nonneg (binary_round_aux 53 1024 false (Z.pos mx) ex loc_Exact).
Proof.
  intros Hm He. unfold binary_round_aux.
  destruct (shr_fexp 53 1024 (Z.pos mx) ex loc_Exact) as [mrs1 e1] eqn:H1.
  unfold shr_fexp in H1.
  apply (shr_bound (2^116 - 1)) in H1 as [Hm1 He1]; [|simpl; lia].
  pose proof (Zdigits2_bound (Z.pos mx) 116 ltac:(lia) ltac:(lia)) as Hd.
  pose proof (round_nearest_even_bound (shr_m mrs1) (loc_of_shr_record mrs1)
                ltac:(lia)) as Hr.
  set (m1 := round_nearest_even (shr_m mrs1) (loc_of_shr_record mrs1)) in *.
  destruct (shr_fexp 53 1024 m1 e1 loc_Exact) as [mrs2 e2] eqn:H2.
  unfold shr_fexp in H2.
  apply (shr_bound (2^116)) in H2 as [Hm2 He2]; [|simpl; lia].
  pose proof (Zdigits2_bound m1 117 ltac:(lia) ltac:(lia)) as Hd1.
  unfold fexp, emin in He1, He2.
  destruct (shr_m mrs2) as [|p|p] eqn:Hm2'; [done| |lia].
  destruct (e2 <=? 1024 - 53) eqn:Hle; [done|].
  apply Z.leb_gt in Hle. lia.
Qed.

Lemma double_of_uint64_finite n :
  0 <= n < 2^64 -> finite_nonneg (double_of_uint64 n).
Proof.
  intros [H0 Hn]. unfold double_of_uint64, binary_normalize.
  destruct n as [|m|m]; [done| |lia].
  unfold binary_round, double_prec, double_emax.
  pose proof (digits2_pos_bound m 64 ltac:(lia) Hn) as Hd.
  unfold shl_align, fexp, emin.
  destruct (Z.max (Z.pos (digits2_pos m) + 0 - 53) (3 - 1024 - 53) - 0)
    as [|d|d] eqn:Hs.
  - apply binary_round_aux_finite; lia.
  - apply binary_round_aux_finite; lia.
  - apply binary_round_aux_finite; [|lia].
    change (Pos.iter xO m d) with (shift_pos d m).
    rewrite shift_pos_correct, Z.pow_pos_fold.
    assert (Z.pos d <= 52) by lia.
    assert (2 ^ Z.pos d <= 2 ^ 52) by (apply Z.pow_le_mono_r; lia).
    change (2^116) with (2^52 * 2^64). nia.
Qed.

Lemma double_mul_zero_r x :
  finite_nonneg x -> double_mul x double_zero = double_zero.
Proof. destruct x as [[]| | |[] m e]; done. Qed.

Lemma double_div_zero_r x :
  finite_nonneg x ->
  is_nan (double_div x double_zero) || is_infinity (double_div x double_zero)
  = true.
Proof. destruct x as [[]| | |[] m e]; done. Qed.

End DoubleFacts.

(** ** Profile weight *)

Lemma getTotalEvents_range (p : LoggingProfile) : 0 <= getTotalEvents p < 2^64.
Proof.
  unfold getTotalEvents. rewrite total_wrap. apply IntFacts.wrap64_range.
Qed.

Lemma getProfileWeight_unguarded (p : LoggingProfile) :
  loggingArraysEmitted p <> 0 ->
  getProfileWeight p
  = double_mul (double_of_uint64 (getTotalEvents p))
      (double_div (double_of_uint64 (sampleCount p))
                  (double_of_uint64 (loggingArraysEmitted p))).
Proof.
  intros H. unfold getProfileWeight, getSampleCountMultiplier.
  by rewrite decide_False by done.
Qed.

Lemma getProfileWeight_guarded (p : LoggingProfile) :
  loggingArraysEmitted p = 0 ->
  getSampleCountMultiplier p = double_zero
  /\ getProfileWeight p = double_zero.
Proof.
  intros H. unfold getProfileWeight, getSampleCountMultiplier.
  rewrite decide_True by done. split; [done|].
  apply DoubleFacts.double_mul_zero_r, DoubleFacts.double_of_uint64_finite.
  apply getTotalEvents_range.
Qed.

(** C10.  With [loggingArraysEmitted] at 0, [getSampleCountMultiplier]
    returns 0.0 and so does [getProfileWeight], for any events and any
    sample count.  The quotient that the guard skips would have been a NaN
    or an infinity, not 0.0. *)
Theorem zero_emitted_weight (p : LoggingProfile) :
  loggingArraysEmitted p = 0 ->
  getSampleCountMultiplier p = double_zero
  /\ getProfileWeight p = double_zero
  /\ (0 <= sampleCount p < 2^64 ->
      let quotient :=
        double_div (double_of_uint64 (sampleCount p))
                   (double_of_uint64 (loggingArraysEmitted p)) in
      is_nan quotient || is_infinity quotient = true).
Proof.
  intros H. destruct (getProfileWeight_guarded p H) as [Hm Hw].
  repeat split; [done..|]. intros Hs. simpl. rewrite H.
  by apply DoubleFacts.double_div_zero_r, DoubleFacts.double_of_uint64_finite.
Qed.

Lemma zero_emitted_weight_witness :
  loggingArraysEmitted (LoggingProfile_new SrcKey_empty) = 0
  /\ getProfileWeight (LoggingProfile_new SrcKey_empty) = double_zero.
Proof.
  split; [reflexivity|].
  exact (proj1 (proj2 (zero_emitted_weight (LoggingProfile_new SrcKey_empty)
                         eq_refl))).
Defined.

(** C5 as stated does not hold of a profile that has emitted no logging
    array, such as one just created: the weight is 0.0 while the formula
    0 * (0 / 0) is a NaN. *)
Lemma getProfileWeight_formula_fails :
  let p := LoggingProfile_new SrcKey_empty in
  getProfileWeight p
  <> double_mul (double_of_uint64 (getTotalEvents p))
       (double_div (double_of_uint64 (sampleCount p))
                   (double_of_uint64 (loggingArraysEmitted p))).
Proof.
  intros p Heq. apply (f_equal is_nan) in Heq. vm_compute in Heq.
  discriminate.
Qed.

(** C5, amended.  When the counts of the events map sum to less than 2^64:
    [getTotalEvents] is that sum; for a profile with a non-zero
    [loggingArraysEmitted], [getProfileWeight] is the sum times
    (sampleCount / loggingArraysEmitted), in double arithmetic; for a profile
    with [loggingArraysEmitted] at 0 it is 0.0. *)
Theorem getProfileWeight_formula (p : LoggingProfile) :
  0 <= sum_counts (events p) < 2^64 ->
  getTotalEvents p = sum_counts (events p)
  /\ (loggingArraysEmitted p <> 0 ->
      getProfileWeight p
      = double_mul (double_of_uint64 (sum_counts (events p)))
          (double_div (double_of_uint64 (sampleCount p))
                      (double_of_uint64 (loggingArraysEmitted p))))
  /\ (loggingArraysEmitted p = 0 -> getProfileWeight p = double_zero).
Proof.
  intros Hsum.
  assert (getTotalEvents p = sum_counts (events p)) as Htot.
  { unfold getTotalEvents. rewrite total_wrap.
    by apply IntFacts.wrap64_small. }
  repeat split; [done| |].
  - intros H. rewrite <- Htot. by apply getProfileWeight_unguarded.
  - intros H. by apply getProfileWeight_guarded.
Qed.

Lemma getProfileWeight_formula_witness :
  let p := {| source := SrcKey_empty; loggingArraysEmitted := 4;
              sampleCount := 2; staticLoggingArray := None;
              staticSampledArray := None;
              events := {[ (SrcKey_empty, 7) := 3 ]};
              monotypeEvents := ∅ |} in
  0 <= sum_counts (events p) < 2^64
  /\ getTotalEvents p = 3
  /\ getProfileWeight p = S754_finite false 6755399441055744 (-52).
Proof.
  intros p.
  assert (0 <= sum_counts (events p) < 2^64) as Hr by (vm_compute; split; congruence).
  split; [exact Hr|].
  destruct (getProfileWeight_formula p Hr) as (Ht & Hw & _).
  split; [exact Ht|]. rewrite Hw; [reflexivity|]. simpl. lia.
Defined.

(** ** Export: entry-type escalations and uses *)

Section MonotypeExport.
Context `{RT : Runtime}.

Lemma std_sort_Permutation {A} (comp : A -> A -> bool) (l : list A) :
  std_sort comp l ≡ₚ l.
Proof. unfold std_sort. apply merge_sort_Permutation. Qed.

Lemma in_key_order_Permutation {A} (m : gmap Z A) :
  in_key_order m ≡ₚ map_to_list m.
Proof. unfold in_key_order. apply merge_sort_Permutation. Qed.

(** The escalations collected by the loop: one per pair with distinct
    states, in iteration order. *)
Lemma monotype_fold_escalations l : forall acc,
  (foldl monotype_step acc l).1
  = acc.1 ++ (escalation_of <$> filter (fun e => e.1.1 <> e.1.2) l).
Proof.
  induction l as [|e l IH]; intros acc; simpl.
  - by rewrite app_nil_r.
  - rewrite IH. unfold monotype_step. simpl.
    destruct (decide (e.1.1 <> e.1.2)) as [Hne|Heq].
    + rewrite filter_cons_True by done. simpl. by rewrite <- app_assoc.
    + by rewrite filter_cons_False by done.
Qed.

(** The use count of a state after the loop: what was there before plus
    the counts of all pairs that end in the state, on 64 bits. *)
Lemma monotype_fold_uses l : forall acc after,
  (foldl monotype_step acc l).2 !! after
  = match snd <$> filter (fun e => e.1.2 = after) l with
    | [] => acc.2 !! after
    | cs => Some (Int.wrap64 (default 0 (acc.2 !! after) + foldr Z.add 0 cs))
    end.
Proof.
  induction l as [|e l IH]; intros acc after; [done|].
  cbn [foldl]. rewrite IH.
  destruct (decide (e.1.2 = after)) as [Heq|Hne].
  - rewrite filter_cons_True by done. rewrite fmap_cons.
    assert ((monotype_step acc e).2 !! after
            = Some (Int.wrap64 (default 0 (acc.2 !! after) + e.2))) as ->.
    { unfold monotype_step, add_count. simpl. rewrite Heq.
      apply lookup_insert_eq. }
    destruct (snd <$> filter (fun e0 => e0.1.2 = after) l) as [|c cs]; simpl.
    + repeat f_equal; lia.
    + f_equal. rewrite IntFacts.wrap64_add_l. f_equal. lia.
  - rewrite filter_cons_False by done.
    assert ((monotype_step acc e).2 !! after = acc.2 !! after) as ->; [|done].
    unfold monotype_step, add_count. simpl. by apply lookup_insert_ne.
Qed.

(** C6.  In the aggregation that export runs on a source profile:
    (1) the escalations emitted are, up to order, exactly the monotype
    event pairs whose before state differs from their after state, each
    with its count; so a pair with before <> after is emitted, and nothing
    is emitted for a pair with before = after; (2) the uses emitted are, up
    to order, the entries of the use map, and the use count of a state is
    the sum (on 64 bits) of the counts of all pairs whose after state it is,
    every pair included, also those with before = after. *)
Theorem monotype_aggregation (p : LoggingProfile) :
  let out := sortSourceData p in
  let pairs := map_to_list (monotypeEvents p) in
  monotypeEscalations out
    ≡ₚ escalation_of <$> filter (fun e => e.1.1 <> e.1.2) pairs
  /\ (forall before after c,
        monotypeEvents p !! (before, after) = Some c -> before <> after ->
        {| esc_before := EntryTypes_of_int16 before;
           esc_after := EntryTypes_of_int16 after;
           esc_count := c |} ∈ monotypeEscalations out)
  /\ exists usesMap : gmap Z Z,
       monotypeUses out
         ≡ₚ (fun u => {| use_state := EntryTypes_of_int16 u.1;
                         use_count := u.2 |}) <$> map_to_list usesMap
       /\ (forall after,
             usesMap !! after
             = match snd <$> filter (fun e => e.1.2 = after) pairs with
               | [] => None
               | cs => Some (Int.wrap64 (foldr Z.add 0 cs))
               end)
       /\ (forall before after c,
             monotypeEvents p !! (before, after) = Some c ->
             c ∈ snd <$> filter (fun e => e.1.2 = after) pairs).
Proof.
  intros out pairs.
  assert (monotypeEscalations out
            ≡ₚ escalation_of <$> filter (fun e => e.1.1 <> e.1.2) pairs
          /\ monotypeUses out
            ≡ₚ (fun u => {| use_state := EntryTypes_of_int16 u.1;
                            use_count := u.2 |})
                 <$> map_to_list (monotype_operations p).2) as [Hesc Huses].
  { subst out. unfold sortSourceData, monotype_operations. fold pairs.
    destruct (aggregate_events p) as [eventCounts sinkCounts].
    pose proof (monotype_fold_escalations pairs ([], ∅)) as Hfold.
    destruct (foldl monotype_step ([], ∅) pairs) as [escalations usesMap].
    simpl in Hfold. simpl. rewrite !std_sort_Permutation.
    split; [by rewrite Hfold|].
    unfold uses_of. by rewrite in_key_order_Permutation. }
  split; [exact Hesc|]. split.
  - intros before after c Hc Hne. rewrite Hesc.
    apply (list_elem_of_fmap_2 escalation_of _ (before, after, c)).
    apply list_elem_of_filter. split; [done|].
    by apply elem_of_map_to_list.
  - exists (monotype_operations p).2. split; [exact Huses|]. split.
    + intros after. unfold monotype_operations.
      rewrite monotype_fold_uses. fold pairs. simpl.
      by rewrite lookup_empty.
    + intros before after c Hc.
      apply (list_elem_of_fmap_2 snd _ (before, after, c)).
      apply list_elem_of_filter. split; [done|].
      by apply elem_of_map_to_list.
Qed.

End MonotypeExport.

(** ** Sink profiles: what [update] counts *)

Section SinkUpdate.
Context `{RT : Runtime}.

Lemma incr_slot_in_range N i counts :
  0 <= i < N ->
  incr_slot N i counts = Some (alter Int.incr64 (Z.to_nat i) counts).
Proof.
  intros [H0 HN]. unfold incr_slot.
  apply Z.leb_le in H0. apply Z.ltb_lt in HN. by rewrite H0, HN.
Qed.

Lemma histogram_total_alter f n counts :
  histogram_total (alter f n counts)
  = histogram_total counts
    + match counts !! n with Some c => f c - c | None => 0 end.
Proof.
  revert n. induction counts as [|c counts IH]; intros [|n]; simpl;
    try lia.
  change (list_alter f n counts) with (alter f n counts). rewrite IH. lia.
Qed.

Lemma histogram_total_bound counts n c :
  Forall (fun x => 0 <= x) counts -> counts !! n = Some c ->
  0 <= c <= histogram_total counts.
Proof.
  intros Hpos. revert n. induction Hpos as [|x counts Hx Hpos IH];
    intros [|n] Hn; simplify_eq/=.
  - assert (0 <= histogram_total counts); [|unfold histogram_total in *; lia].
    clear -Hpos. induction Hpos; simpl; unfold histogram_total in *; simpl;
      lia.
  - specialize (IH n Hn). unfold histogram_total in *. lia.
Qed.

Lemma zeros_lookup N i : 0 <= i < N -> zeros N !! Z.to_nat i = Some 0.
Proof. intros H. unfold zeros. apply lookup_replicate_2. lia. Qed.

Lemma zeros_total N : histogram_total (zeros N) = 0.
Proof.
  unfold zeros. induction (Z.to_nat N) as [|n IH]; [done|].
  simpl. by rewrite IH.
Qed.

Lemma zeros_nonneg N : Forall (fun x => 0 <= x) (zeros N).
Proof. unfold zeros. apply Forall_replicate. lia. Qed.

(** An array of another bespoke layout leaves the profile as it is. *)
Lemma update_other_bespoke ad s :
  is_other_bespoke ad = true -> update false ad s = Some s.
Proof.
  unfold is_other_bespoke, update, isVanilla, layout_index.
  destruct (layout ad) as [| |i]; [done..|]. intros Hi. simpl.
  apply negb_true_iff, bool_decide_eq_false in Hi.
  rewrite bool_decide_eq_false_2; [done|]. congruence.
Qed.

Lemma update_vanilla ad s :
  layout ad = Vanilla -> isSampledArray ad = false ->
  0 <= kind ad / 2 < kNumArrTypes ->
  update false ad s
  = Some {| sink := sink s;
            arrCounts :=
              alter Int.incr64 (Z.to_nat (kind ad / 2)) (arrCounts s);
            keyCounts := keyCounts s; valCounts := valCounts s;
            sampledCount := sampledCount s;
            unsampledCount := Int.incr64 (unsampledCount s);
            sources := sources s |}.
Proof.
  intros Hl Hs Hk. unfold update, isVanilla. rewrite Hl, Hs. simpl.
  by rewrite incr_slot_in_range.
Qed.

Lemma update_logging ad s profile et :
  layout ad = Logging profile et ->
  0 <= kind ad / 2 < kNumArrTypes ->
  0 <= KeyTypes_raw (keyTypes et) < kNumKeyTypes ->
  0 <= val_slot et < kNumValTypes ->
  update false ad s
  = Some {| sink := sink s;
            arrCounts :=
              alter Int.incr64 (Z.to_nat (kind ad / 2)) (arrCounts s);
            keyCounts :=
              alter Int.incr64 (Z.to_nat (KeyTypes_raw (keyTypes et)))
                    (keyCounts s);
            valCounts :=
              alter Int.incr64 (Z.to_nat (val_slot et)) (valCounts s);
            sampledCount := Int.incr64 (sampledCount s);
            unsampledCount := unsampledCount s;
            sources := count_one profile (sources s) |}.
Proof.
  intros Hl Hk Hkey Hval.
  unfold update, isVanilla, layout_index, LoggingArray_As. rewrite Hl. simpl.
  rewrite bool_decide_eq_true_2 by done. simpl.
  rewrite incr_slot_in_range by done. simpl.
  rewrite incr_slot_in_range by done. simpl.
  by rewrite incr_slot_in_range by done.
Qed.

Lemma incr_arrCounts_counts (counts : list Z) i total :
  Forall (fun x => 0 <= x) counts -> histogram_total counts = total ->
  total < 2^64 - 1 -> (Z.to_nat i < length counts)%nat ->
  Forall (fun x => 0 <= x) (alter Int.incr64 (Z.to_nat i) counts)
  /\ histogram_total (alter Int.incr64 (Z.to_nat i) counts) = total + 1
  /\ length (alter Int.incr64 (Z.to_nat i) counts) = length counts.
Proof.
  intros Hpos Htot Hlt Hi.
  destruct (lookup_lt_is_Some_2 counts _ Hi) as [c Hc].
  pose proof (histogram_total_bound counts _ c Hpos Hc) as Hcb.
  split; [|split].
  - apply Forall_alter; [done|]. intros x Hx.
    pose proof (IntFacts.wrap64_range (x + 1)). unfold Int.incr64. lia.
  - rewrite histogram_total_alter, Hc.
    rewrite IntFacts.incr64_small by lia. lia.
  - apply length_alter.
Qed.

Lemma incr_slot_counts (counts : list Z) i c :
  counts !! Z.to_nat i = Some c -> 0 <= c < 2^64 - 1 ->
  alter Int.incr64 (Z.to_nat i) counts !! Z.to_nat i = Some (c + 1).
Proof.
  intros Hc Hr. rewrite list_lookup_alter_eq, Hc. simpl.
  by rewrite IntFacts.incr64_small.
Qed.

Lemma update_seq_S6 kslot vslot ads : forall s v l,
  0 <= kslot < kNumKeyTypes -> 0 <= vslot < kNumValTypes ->
  forallb (S6_array kslot vslot) ads = true ->
  0 <= v -> 0 <= l -> v + l + Z.of_nat (length ads) < 2^64 ->
  sink_counts kslot vslot s v l ->
  exists s',
    update_seq false ads s = Some s'
    /\ sink_counts kslot vslot s'
         (v + Z.of_nat (length (filter (fun ad => isVanilla ad = true) ads)))
         (l + Z.of_nat (length (filter (fun ad => is_logging ad = true) ads)))
    /\ update_seq false
         (filter (fun ad => is_other_bespoke ad = false) ads) s = Some s'.
Proof.
  induction ads as [|ad ads IH]; intros s v l Hks Hvs Hall Hv Hl Hlen Hinv.
  - exists s. simpl. by rewrite !Z.add_0_r.
  - cbn [forallb] in Hall. apply andb_true_iff in Hall as [Had Hall].
    cbn [length] in Hlen.
    destruct Hinv as (Hsc & Huc & Hkc & Hvc & Hpos & Htot & Harr).
    unfold S6_array in Had.
    destruct (layout ad) as [|profile et|i] eqn:Hlay.
    + (* a vanilla array *)
      apply andb_true_iff in Had as [Hns Hkind].
      apply negb_true_iff in Hns.
      apply andb_true_iff in Hkind as [Hk0 Hk1].
      apply Z.leb_le in Hk0. apply Z.ltb_lt in Hk1.
      destruct (incr_arrCounts_counts (arrCounts s) (kind ad / 2) (v + l))
        as (Hpos' & Htot' & Harr'); [done|done|lia|lia|].
      pose proof (update_vanilla ad s Hlay Hns ltac:(done)) as Hup.
      match type of Hup with _ = Some ?x => set (s1 := x) in * end.
      destruct (IH s1 (v + 1) l Hks Hvs Hall) as (s' & Hrun & Hinv' & Hskip);
        [lia|lia|lia| |].
      { repeat split; simpl; try done.
        - rewrite Huc. apply IntFacts.incr64_small. lia.
        - rewrite Htot'. lia.
        - by rewrite Harr'. }
      exists s'. cbn [update_seq]. rewrite Hup. simpl.
      assert (isVanilla ad = true) as Hvan by (unfold isVanilla; by rewrite Hlay).
      assert (is_logging ad = false) as Hlog
        by (unfold is_logging; by rewrite Hlay).
      assert (is_other_bespoke ad = false) as Hoth
        by (unfold is_other_bespoke; by rewrite Hlay).
      rewrite filter_cons_True by done.
      rewrite (filter_cons_False (fun ad => is_logging ad = true))
        by (by rewrite Hlog).
      rewrite filter_cons_True by done. cbn [length update_seq].
      rewrite Hup. simpl.
      split; [done|]. split; [|done].
      replace (v + Z.of_nat (S (length (filter (fun ad0 => isVanilla ad0 = true) ads))))
        with (v + 1 + Z.of_nat (length (filter (fun ad0 => isVanilla ad0 = true) ads)))
        by lia.
      done.
    + (* a logging array *)
      apply andb_true_iff in Had as [Hkv Hkind].
      apply andb_true_iff in Hkv as [Hkey Hval].
      apply Z.eqb_eq in Hkey. apply Z.eqb_eq in Hval.
      apply andb_true_iff in Hkind as [Hk0 Hk1].
      apply Z.leb_le in Hk0. apply Z.ltb_lt in Hk1.
      destruct (incr_arrCounts_counts (arrCounts s) (kind ad / 2) (v + l))
        as (Hpos' & Htot' & Harr'); [done|done|lia|lia|].
      pose proof (update_logging ad s profile et Hlay ltac:(done)
                    ltac:(lia) ltac:(lia)) as Hup.
      match type of Hup with _ = Some ?x => set (s1 := x) in * end.
      destruct (IH s1 v (l + 1) Hks Hvs Hall) as (s' & Hrun & Hinv' & Hskip);
        [lia|lia|lia| |].
      { repeat split; simpl; try done.
        - rewrite Hsc. apply IntFacts.incr64_small. lia.
        - rewrite Hkey. apply incr_slot_counts; [done|lia].
        - rewrite Hval. apply incr_slot_counts; [done|lia].
        - rewrite Htot'. lia.
        - by rewrite Harr'. }
      exists s'. cbn [update_seq]. rewrite Hup. simpl.
      assert (isVanilla ad = false) as Hvan
        by (unfold isVanilla; by rewrite Hlay).
      assert (is_logging ad = true) as Hlog
        by (unfold is_logging; by rewrite Hlay).
      assert (is_other_bespoke ad = false) as Hoth
        by (unfold is_other_bespoke; by rewrite Hlay).
      rewrite (filter_cons_False (fun ad => isVanilla ad = true))
        by (by rewrite Hvan).
      rewrite !filter_cons_True by done. cbn [length update_seq].
      rewrite Hup. simpl.
      split; [done|]. split; [|done].
      replace (l + Z.of_nat (S (length (filter (fun ad0 => is_logging ad0 = true) ads))))
        with (l + 1 + Z.of_nat (length (filter (fun ad0 => is_logging ad0 = true) ads)))
        by lia.
      done.
    + (* another bespoke layout: skipped *)
      assert (is_other_bespoke ad = true) as Hoth
        by (unfold is_other_bespoke; by rewrite Hlay).
      destruct (IH s v l Hks Hvs Hall) as (s' & Hrun & Hinv' & Hskip);
        [lia|lia|lia|done|].
      exists s'. cbn [update_seq].
      rewrite (update_other_bespoke ad s Hoth). simpl.
      rewrite (filter_cons_False (fun ad => isVanilla ad = true))
        by (unfold isVanilla; by rewrite Hlay).
      rewrite (filter_cons_False (fun ad => is_logging ad = true))
        by (unfold is_logging; by rewrite Hlay).
      rewrite (filter_cons_False (fun ad => is_other_bespoke ad = false))
        by (by rewrite Hoth).
      done.
Qed.

End SinkUpdate.

Section SinkScenario.
Context `{RT : Runtime}.

Lemma SinkProfile_new_counts key kslot vslot :
  0 <= kslot < kNumKeyTypes -> 0 <= vslot < kNumValTypes ->
  sink_counts kslot vslot (SinkProfile_new key) 0 0.
Proof.
  intros Hk Hv. unfold sink_counts, SinkProfile_new. simpl.
  repeat split; try done.
  - by apply zeros_lookup.
  - by apply zeros_lookup.
  - apply zeros_nonneg.
  - apply zeros_total.
  - unfold zeros. apply length_replicate.
Qed.

(** C1, amended.  Before export starts, let a new sink profile process, in
    any order, fewer than 2^64 arrays, each of them a vanilla array that is
    not sampled, a LoggingArray whose key types and values fall in given
    slots of the key and value histograms, or an array of another bespoke
    layout.  With v vanilla and l logging arrays among them: sampledCount is
    l, unsampledCount is v, the key slot and the value slot both hold l, and
    the array-kind histogram holds v + l entries in total.  The arrays of
    the other bespoke layout are counted nowhere: the profile is the one
    obtained from the same sequence without them. *)
Theorem update_counts_S6 (key : Z * SrcKey) (kslot vslot : Z)
  (ads : list ArrayData) :
  0 <= kslot < kNumKeyTypes -> 0 <= vslot < kNumValTypes ->
  forallb (S6_array kslot vslot) ads = true ->
  Z.of_nat (length ads) < 2^64 ->
  let v := Z.of_nat (length (filter (fun ad => isVanilla ad = true) ads)) in
  let l := Z.of_nat (length (filter (fun ad => is_logging ad = true) ads)) in
  exists s,
    update_seq false ads (SinkProfile_new key) = Some s
    /\ sampledCount s = l
    /\ unsampledCount s = v
    /\ keyCounts s !! Z.to_nat kslot = Some l
    /\ valCounts s !! Z.to_nat vslot = Some l
    /\ histogram_total (arrCounts s) = v + l
    /\ update_seq false (filter (fun ad => is_other_bespoke ad = false) ads)
         (SinkProfile_new key) = Some s.
Proof.
  intros Hk Hv Hall Hlen v l.
  destruct (update_seq_S6 kslot vslot ads (SinkProfile_new key) 0 0
              Hk Hv Hall) as (s & Hrun & Hinv & Hskip);
    [lia|lia|lia|by apply SinkProfile_new_counts|].
  rewrite !Z.add_0_l in Hinv. fold v l in Hinv.
  destruct Hinv as (Hsc & Huc & Hkc & Hvc & _ & Htot & _).
  exists s. repeat split; done.
Qed.

End SinkScenario.

Section SinkScenarioOnSample.
#[local] Existing Instance Sample.runtime.

Lemma update_counts_S6_witness :
  exists s,
    update_seq false Sample.S6_arrays (SinkProfile_new Sample.sink_Y) = Some s
    /\ sampledCount s = 200
    /\ unsampledCount s = 300
    /\ keyCounts s !! 1%nat = Some 200
    /\ valCounts s !! 13%nat = Some 200
    /\ histogram_total (arrCounts s) = 500.
Proof.
  destruct (update_counts_S6 Sample.sink_Y 1 13 Sample.S6_arrays)
    as (s & Hrun & Hsc & Huc & Hkc & Hvc & Htot & _).
  - simpl. lia.
  - simpl. lia.
  - vm_compute. reflexivity.
  - vm_compute. reflexivity.
  - exists s. repeat split; assumption.
Defined.

(** C1 as stated fails on scenario S6: the 100 arrays of the other bespoke
    layout are not counted as unsampled, nor in the array-kind histogram. *)
Lemma update_S6_as_stated_fails :
  ~ (forall s,
       update_seq false Sample.S6_arrays (SinkProfile_new Sample.sink_Y)
       = Some s ->
       sampledCount s = 200 /\ unsampledCount s = 400
       /\ keyCounts s !! 1%nat = Some 200
       /\ valCounts s !! 13%nat = Some 200
       /\ histogram_total (arrCounts s) = 600).
Proof.
  intros Hclaim.
  assert (exists s,
             update_seq false Sample.S6_arrays (SinkProfile_new Sample.sink_Y)
             = Some s /\ unsampledCount s = 300) as (s & Hrun & Hu).
  { eexists. split; [vm_compute; reflexivity | reflexivity]. }
  destruct (Hclaim s Hrun) as (_ & Hu' & _). rewrite Hu in Hu'. lia.
Qed.

End SinkScenarioOnSample.

(** ** Stored source keys are canonical *)

Section CanonicalKeys.
Context `{RT : Runtime}.

Lemma event_pair_canonical t key snk code :
  event_pair t key = Some (snk, code) ->
  resumeMode snk = ResumeNone
  /\ (valid snk = true -> canonicalize snk = Some snk).
Proof.
  unfold event_pair. destruct (negb _); simpl.
  - destruct (getSrcKey t) as [sk|] eqn:Hsk; [|done]. simpl.
    intros [= <- _]. split.
    + by apply (getSrcKey_resumeMode t).
    + by apply (getSrcKey_canonical t).
  - intros [= <- _]. done.
Qed.

Lemma count_one_keys `{Countable K} (k j : K) (m : gmap K Z) c :
  count_one k m !! j = Some c -> j = k \/ m !! j = Some c.
Proof.
  destruct (decide (j = k)) as [->|Hne]; [by left|].
  rewrite count_one_lookup_ne by done. by right.
Qed.

Lemma logEvent_events_canonical started t op a p p' :
  logEvent started t op a p = Some p' ->
  (forall snk code c, events p !! (snk, code) = Some c ->
     resumeMode snk = ResumeNone
     /\ (valid snk = true -> canonicalize snk = Some snk)) ->
  forall snk code c, events p' !! (snk, code) = Some c ->
    resumeMode snk = ResumeNone
    /\ (valid snk = true -> canonicalize snk = Some snk).
Proof.
  unfold logEvent, logEventImpl. intros Hlog Hold snk code c.
  destruct (EventKey_make op a) as [key|]; [|done]. simpl in Hlog.
  destruct started; [simplify_eq; apply Hold|].
  destruct (event_pair t key) as [[snk0 code0]|] eqn:Hpair; [|done].
  simpl in Hlog. simplify_eq. simpl. intros Hc.
  apply count_one_keys in Hc as [[= -> ->]|Hc].
  - by apply (event_pair_canonical t key snk0 code0).
  - by apply (Hold snk code c).
Qed.

Lemma getLoggingProfile_locked_canonical sk st r st' :
  resumeMode sk = ResumeNone -> canonicalize sk = Some sk ->
  getLoggingProfile_locked sk st = (r, st') ->
  stored_keys_canonical st -> stored_keys_canonical st'.
Proof.
  intros Hr Hc. unfold getLoggingProfile_locked.
  destruct (s_exportStarted st); [by intros [= _ <-]|].
  destruct (s_profileMap st !! sk) eqn:Hsk; [by intros [= _ <-]|].
  intros [= _ <-] (Hsrc & Hsnk & Hev). split; [|split]; simpl.
  - intros sk0 p Hp. destruct (decide (sk0 = sk)) as [->|Hne]; [done|].
    rewrite lookup_insert_ne in Hp by congruence. by apply (Hsrc sk0 p).
  - exact Hsnk.
  - intros src p snk code c Hp Hc'.
    destruct (decide (src = sk)) as [->|Hne].
    + rewrite lookup_insert_eq in Hp. injection Hp as <-. revert Hc'.
      destruct (_ && _); simpl; by rewrite lookup_empty.
    + rewrite lookup_insert_ne in Hp by congruence.
      by apply (Hev src p snk code c).
Qed.

Lemma getSinkProfile_locked_canonical id sk st r st' :
  resumeMode sk = ResumeNone -> canonicalize sk = Some sk ->
  getSinkProfile_locked (id, sk) st = (r, st') ->
  stored_keys_canonical st -> stored_keys_canonical st'.
Proof.
  intros Hr Hc. unfold getSinkProfile_locked.
  destruct (s_exportStarted st); [by intros [= _ <-]|].
  destruct (s_sinkMap st !! (id, sk)) eqn:Hsk; [by intros [= _ <-]|].
  intros [= _ <-] (Hsrc & Hsnk & Hev). split; [|split]; simpl.
  - exact Hsrc.
  - intros id0 sk0 s Hs.
    destruct (decide ((id0, sk0) = (id, sk))) as [[= -> ->]|Hne]; [done|].
    rewrite lookup_insert_ne in Hs by congruence. by apply (Hsnk id0 sk0 s).
  - exact Hev.
Qed.

Lemma State_init_canonical : stored_keys_canonical State_init.
Proof.
  split; [|split]; simpl; intros *; by rewrite lookup_empty.
Qed.

(** Every entry point keeps the stored keys canonical. *)
Lemma exec_canonical c st st' :
  exec c st = Some st' ->
  stored_keys_canonical st -> stored_keys_canonical st'.
Proof.
  destruct c as [skRaw|id skRaw|profile t op a|profile before after
                |sinkp ad| |]; simpl; intros Hexec Hinv.
  - (* getLoggingProfile *)
    unfold getLoggingProfile in Hexec.
    destruct (negb (shouldLogAtSrcKey skRaw)); [by simplify_eq/=|].
    destruct (canonicalize skRaw) as [sk|] eqn:Hsk; [|done]. simpl in Hexec.
    destruct (s_profileMap st !! sk); [by simplify_eq/=|].
    destruct (getLoggingProfile_locked sk st) as [r st1] eqn:Hlocked.
    simplify_eq/=.
    eapply getLoggingProfile_locked_canonical; [| |exact Hlocked|done].
    + by eapply canonicalize_resumeMode.
    + by eapply canonicalize_idempotent.
  - (* getSinkProfile *)
    unfold getSinkProfile in Hexec.
    destruct (canonicalize skRaw) as [sk|] eqn:Hsk; [|done]. simpl in Hexec.
    destruct (s_sinkMap st !! (id, sk)); [by simplify_eq/=|].
    destruct (getSinkProfile_locked (id, sk) st) as [r st1] eqn:Hlocked.
    simplify_eq/=.
    eapply getSinkProfile_locked_canonical; [| |exact Hlocked|done].
    + by eapply canonicalize_resumeMode.
    + by eapply canonicalize_idempotent.
  - (* logEvent *)
    destruct (s_profileMap st !! profile) as [p|] eqn:Hp; [|done].
    simpl in Hexec.
    destruct (logEvent (s_exportStarted st) t op a p) as [p'|] eqn:Hlog;
      [|done].
    simplify_eq/=. destruct Hinv as (Hsrc & Hsnk & Hev).
    split; [|split]; simpl.
    + intros sk0 p0 Hp0.
      destruct (decide (sk0 = profile)) as [->|Hne]; [by apply (Hsrc _ p)|].
      rewrite lookup_insert_ne in Hp0 by congruence. by apply (Hsrc sk0 p0).
    + exact Hsnk.
    + intros src p0 snk code c Hp0 Hc.
      destruct (decide (src = profile)) as [->|Hne].
      * rewrite lookup_insert_eq in Hp0. injection Hp0 as <-.
        eapply (logEvent_events_canonical _ _ _ _ p p' Hlog); [|exact Hc].
        intros snk1 code1 c1. by apply (Hev profile p).
      * rewrite lookup_insert_ne in Hp0 by congruence.
        by apply (Hev src p0 snk code c).
  - (* logEntryTypes *)
    destruct (s_profileMap st !! profile) as [p|] eqn:Hp; [|done].
    simplify_eq/=. destruct Hinv as (Hsrc & Hsnk & Hev).
    split; [|split]; simpl.
    + intros sk0 p0 Hp0.
      destruct (decide (sk0 = profile)) as [->|Hne]; [by apply (Hsrc _ p)|].
      rewrite lookup_insert_ne in Hp0 by congruence. by apply (Hsrc sk0 p0).
    + exact Hsnk.
    + intros src p0 snk code c Hp0 Hc.
      destruct (decide (src = profile)) as [->|Hne].
      * rewrite lookup_insert_eq in Hp0. injection Hp0 as <-.
        apply (Hev profile p snk code c Hp). revert Hc.
        unfold logEntryTypes. by destruct (s_exportStarted st).
      * rewrite lookup_insert_ne in Hp0 by congruence.
        by apply (Hev src p0 snk code c).
  - (* SinkProfile::update *)
    destruct (s_sinkMap st !! sinkp) as [s|] eqn:Hs; [|done].
    simpl in Hexec.
    destruct (update (s_exportStarted st) ad s) as [s'|]; [|done].
    simplify_eq/=. destruct Hinv as (Hsrc & Hsnk & Hev).
    split; [|split]; simpl.
    + exact Hsrc.
    + intros id0 sk0 s0 Hs0.
      destruct (decide ((id0, sk0) = sinkp)) as [<-|Hne];
        [by apply (Hsnk id0 sk0 s)|].
      rewrite lookup_insert_ne in Hs0 by congruence.
      by apply (Hsnk id0 sk0 s0).
    + exact Hev.
  - (* exportProfiles *)
    unfold exportProfiles in Hexec.
    destruct (negb allowBespokeArrayLikes); [done|].
    destruct (decide (EvalExportLoggingArrayDataPath = _));
      [simplify_eq/=; exact Hinv|].
    destruct (s_exportProfilesThread st); simplify_eq/=; exact Hinv.
  - (* waitOnExportProfiles *)
    unfold waitOnExportProfiles in Hexec.
    destruct (s_exportStarted st), (s_exportProfilesThread st);
      simplify_eq/=; exact Hinv.
Qed.

Lemma run_canonical calls : forall st st',
  run calls st = Some st' ->
  stored_keys_canonical st -> stored_keys_canonical st'.
Proof.
  induction calls as [|c calls IH]; intros st st' Hrun Hinv; simpl in Hrun.
  - by simplify_eq.
  - destruct (exec c st) as [st1|] eqn:Hexec; [|done]. simpl in Hrun.
    eapply IH; [exact Hrun|]. by eapply exec_canonical.
Qed.

Lemma logEvent_source started t op a p p' :
  logEvent started t op a p = Some p' -> source p' = source p.
Proof.
  unfold logEvent, logEventImpl.
  destruct (EventKey_make op a) as [key|]; [|done]. simpl.
  destruct started; [by intros [= <-]|].
  destruct (event_pair t key); [|done]. by intros [= <-].
Qed.

Lemma logEntryTypes_source started before after p :
  source (logEntryTypes started before after p) = source p.
Proof. unfold logEntryTypes. by destruct started. Qed.

Lemma update_sink started ad s s' :
  update started ad s = Some s' -> sink s' = sink s.
Proof.
  unfold update. destruct started; [by intros [= <-]|].
  destruct (negb (isVanilla ad) && _); [by intros [= <-]|].
  destruct (if negb (isVanilla ad) then _ else _) as [lad|]; [|done]. simpl.
  destruct (incr_slot kNumArrTypes _ _); [|done]. simpl.
  destruct lad as [[profile et]|]; [|by intros [= <-]].
  destruct (incr_slot kNumKeyTypes _ _); [|done]. simpl.
  destruct (incr_slot kNumValTypes _ _); [|done]. simpl.
  by intros [= <-].
Qed.

Lemma State_init_fields_match : stored_fields_match State_init.
Proof. split; simpl; intros *; by rewrite lookup_empty. Qed.

Lemma exec_fields_match c st st' :
  exec c st = Some st' -> stored_fields_match st -> stored_fields_match st'.
Proof.
  destruct c as [skRaw|id skRaw|profile t op a|profile before after
                |sinkp ad| |]; simpl; intros Hexec [Hsource Hsink].
  - (* getLoggingProfile *)
    unfold getLoggingProfile, getLoggingProfile_locked in Hexec.
    destruct (negb (shouldLogAtSrcKey skRaw)); [by simplify_eq/=|].
    destruct (canonicalize skRaw) as [sk|]; [|done]. simpl in Hexec.
    destruct (s_profileMap st !! sk) eqn:Hsk; [by simplify_eq/=|].
    destruct (s_exportStarted st); [by simplify_eq/=|].
    simplify_eq/=. split; [|done]. simpl.
    intros sk0 p Hp. destruct (decide (sk0 = sk)) as [->|Hne].
    + rewrite lookup_insert_eq in Hp. injection Hp as <-.
      by destruct (_ && _).
    + rewrite lookup_insert_ne in Hp by congruence. by apply Hsource.
  - (* getSinkProfile *)
    unfold getSinkProfile, getSinkProfile_locked in Hexec.
    destruct (canonicalize skRaw) as [sk|]; [|done]. simpl in Hexec.
    destruct (s_sinkMap st !! (id, sk)) eqn:Hsk; [by simplify_eq/=|].
    destruct (s_exportStarted st); [by simplify_eq/=|].
    simplify_eq/=. split; [done|]. simpl.
    intros key s Hs. destruct (decide (key = (id, sk))) as [->|Hne].
    + rewrite lookup_insert_eq in Hs. by injection Hs as <-.
    + rewrite lookup_insert_ne in Hs by congruence. by apply Hsink.
  - (* logEvent *)
    destruct (s_profileMap st !! profile) as [p|] eqn:Hp; [|done].
    simpl in Hexec.
    destruct (logEvent (s_exportStarted st) t op a p) as [p'|] eqn:Hlog;
      [|done].
    simplify_eq/=. split; [|done]. simpl.
    intros sk0 p0 Hp0. destruct (decide (sk0 = profile)) as [->|Hne].
    + rewrite lookup_insert_eq in Hp0. injection Hp0 as <-.
      rewrite (logEvent_source _ _ _ _ _ _ Hlog). by apply Hsource.
    + rewrite lookup_insert_ne in Hp0 by congruence. by apply Hsource.
  - (* logEntryTypes *)
    destruct (s_profileMap st !! profile) as [p|] eqn:Hp; [|done].
    simplify_eq/=. split; [|done]. simpl.
    intros sk0 p0 Hp0. destruct (decide (sk0 = profile)) as [->|Hne].
    + rewrite lookup_insert_eq in Hp0. injection Hp0 as <-.
      rewrite logEntryTypes_source. by apply Hsource.
    + rewrite lookup_insert_ne in Hp0 by congruence. by apply Hsource.
  - (* SinkProfile::update *)
    destruct (s_sinkMap st !! sinkp) as [s|] eqn:Hs; [|done].
    simpl in Hexec.
    destruct (update (s_exportStarted st) ad s) as [s'|] eqn:Hup; [|done].
    simplify_eq/=. split; [done|]. simpl.
    intros key s0 Hs0. destruct (decide (key = sinkp)) as [->|Hne].
    + rewrite lookup_insert_eq in Hs0. injection Hs0 as <-.
      rewrite (update_sink _ _ _ _ Hup). by apply Hsink.
    + rewrite lookup_insert_ne in Hs0 by congruence. by apply Hsink.
  - (* exportProfiles *)
    unfold exportProfiles in Hexec.
    destruct (negb allowBespokeArrayLikes); [done|].
    destruct (decide (EvalExportLoggingArrayDataPath = _));
      [by simplify_eq/=|].
    by destruct (s_exportProfilesThread st); simplify_eq/=.
  - (* waitOnExportProfiles *)
    unfold waitOnExportProfiles in Hexec.
    by destruct (s_exportStarted st), (s_exportProfilesThread st);
      simplify_eq/=.
Qed.

Lemma run_fields_match calls : forall st st',
  run calls st = Some st' -> stored_fields_match st -> stored_fields_match st'.
Proof.
  induction calls as [|c calls IH]; intros st st' Hrun Hinv; simpl in Hrun.
  - by simplify_eq.
  - destruct (exec c st) as [st1|] eqn:Hexec; [|done]. simpl in Hrun.
    eapply IH; [exact Hrun|]. by eapply exec_fields_match.
Qed.
(** C8.  In every state that the profiling code reaches from the empty
    tables, by any sequence of calls, every stored SrcKey has resume mode
    None: each key of the source profile table (which the [source] field of
    its profile repeats), the SrcKey of each key of the sink profile table
    (which the [sink] field repeats), and the sink of each key of each
    events map.  The table keys are fixed points of [canonicalize], and so
    is every valid sink (the empty sink is stored as it is).
    [canonicalize] forces the resume mode to None and is idempotent. *)
Theorem stored_keys_are_canonical (calls : list Call) (st : State) :
  run calls State_init = Some st ->
  stored_keys_canonical st
  /\ stored_fields_match st
  /\ (forall sk sk', canonicalize sk = Some sk' ->
        resumeMode sk' = ResumeNone /\ canonicalize sk' = Some sk').
Proof.
  intros Hrun. split; [|split].
  - eapply run_canonical; [exact Hrun|]. apply State_init_canonical.
  - eapply run_fields_match; [exact Hrun|]. apply State_init_fields_match.
  - intros sk sk' Hc. split.
    + by eapply canonicalize_resumeMode.
    + by eapply canonicalize_idempotent.
Qed.

End CanonicalKeys.

(** ** The export gate *)

Section ExportGate.
Context `{RT : Runtime}.

Lemma exportProfiles_started st st' :
  EvalExportLoggingArrayDataPath <> EmptyString ->
  exportProfiles st = Some st' ->
  s_exportStarted st' = true
  /\ s_profileMap st' = s_profileMap st /\ s_sinkMap st' = s_sinkMap st.
Proof.
  intros Hp. unfold exportProfiles.
  destruct (negb allowBespokeArrayLikes); [done|].
  rewrite decide_False by done.
  destruct (s_exportProfilesThread st); [done|]. by intros [= <-].
Qed.

Lemma shouldLogAtSrcKey_valid sk : shouldLogAtSrcKey sk = true -> valid sk = true.
Proof. unfold shouldLogAtSrcKey. by destruct (valid sk). Qed.

(** After export has started the locked part of [getLoggingProfile] gives
    up at once. *)
Lemma getLoggingProfile_locked_started sk st :
  s_exportStarted st = true -> getLoggingProfile_locked sk st = (None, st).
Proof. intros H. unfold getLoggingProfile_locked. by rewrite H. Qed.

(** C2, amended.  Once export has started (as it has in the state that
    [exportProfiles] leaves when an export path is configured), a call of
    [getLoggingProfile] changes nothing: no entry is added to the profile
    table.  It returns null for every SrcKey that has no profile in the
    table, and for those that are not logged at all; for a SrcKey whose
    canonical form already has a profile, it returns that profile. *)
Theorem getLoggingProfile_after_export (st : State) (skRaw : SrcKey) :
  s_exportStarted st = true ->
  exists r,
    getLoggingProfile skRaw st = Some (r, st)
    /\ (forall sk, canonicalize skRaw = Some sk ->
          s_profileMap st !! sk = None -> r = None)
    /\ (shouldLogAtSrcKey skRaw = false -> r = None)
    /\ (forall sk, shouldLogAtSrcKey skRaw = true ->
          canonicalize skRaw = Some sk -> is_Some (s_profileMap st !! sk) ->
          r = Some sk)
    /\ (forall sk, r = Some sk ->
          canonicalize skRaw = Some sk /\ is_Some (s_profileMap st !! sk))
    /\ (forall st0 st1, EvalExportLoggingArrayDataPath <> EmptyString ->
          exportProfiles st0 = Some st1 -> s_exportStarted st1 = true).
Proof.
  intros Hstarted.
  assert (forall st0 st1, EvalExportLoggingArrayDataPath <> EmptyString ->
            exportProfiles st0 = Some st1 -> s_exportStarted st1 = true)
    as Hexport.
  { intros st0 st1 Hpath Hexp. by apply (exportProfiles_started st0 st1). }
  unfold getLoggingProfile.
  destruct (shouldLogAtSrcKey skRaw) eqn:Hlog; simpl.
  - pose proof (shouldLogAtSrcKey_valid skRaw Hlog) as Hvalid.
    destruct (canonicalize skRaw) as [sk|] eqn:Hsk.
    2:{ unfold canonicalize in Hsk. by rewrite Hvalid in Hsk. }
    simpl. destruct (s_profileMap st !! sk) as [p|] eqn:Hp.
    + exists (Some sk). split; [done|].
      split; [intros sk' [= <-]; congruence|].
      split; [done|]. split; [by intros sk' _ [= <-] _|].
      split; [|done]. intros sk' [= <-]. split; [done|]. by rewrite Hp.
    + rewrite getLoggingProfile_locked_started by done.
      exists None. split; [done|]. split; [done|]. split; [done|].
      split; [|done]. intros sk' _ [= <-]. rewrite Hp. by intros [? ?].
  - exists None. repeat split; done.
Qed.
End ExportGate.

Section OnSample.
#[local] Existing Instance Sample.runtime.

Lemma getLoggingProfile_after_export_witness :
  exists st,
    run Sample.session State_init = Some st
    /\ s_exportStarted st = true
    /\ s_profileMap st !! Sample.source_Z = None
    /\ getLoggingProfile Sample.source_Z st = Some (None, st).
Proof.
  assert (exists st,
             run Sample.session State_init = Some st
             /\ s_exportStarted st = true
             /\ s_profileMap st !! Sample.source_Z = None)
    as (st & Hrun & Hstarted & Hnone).
  { eexists. split; [vm_compute; reflexivity|].
    split; [reflexivity | vm_compute; reflexivity]. }
  exists st. repeat split; try assumption.
  destruct (getLoggingProfile_after_export st Sample.source_Z Hstarted)
    as (r & Hget & Hnull & _).
  rewrite Hget. by rewrite (Hnull Sample.source_Z eq_refl Hnone).
Defined.

(** C2 as stated fails for a SrcKey that has a profile: after export has
    started, [getLoggingProfile] still returns that profile. *)
Lemma getLoggingProfile_after_export_not_null :
  ~ (forall st,
       run Sample.session State_init = Some st ->
       s_exportStarted st = true ->
       fst <$> getLoggingProfile Sample.source_X_raw st = Some None).
Proof.
  intros Hclaim.
  assert (exists st,
             run Sample.session State_init = Some st
             /\ s_exportStarted st = true
             /\ fst <$> getLoggingProfile Sample.source_X_raw st
                = Some (Some Sample.source_X)) as (st & Hrun & Hs & Hget).
  { eexists. split; [vm_compute; reflexivity|].
    split; [reflexivity | vm_compute; reflexivity]. }
  specialize (Hclaim st Hrun Hs). rewrite Hget in Hclaim. discriminate.
Qed.

Lemma stored_keys_are_canonical_witness :
  exists st,
    run Sample.session State_init = Some st
    /\ stored_keys_canonical st
    /\ is_Some (s_profileMap st !! Sample.source_X)
    /\ is_Some (s_sinkMap st !! Sample.sink_Y).
Proof.
  assert (exists st,
             run Sample.session State_init = Some st
             /\ is_Some (s_profileMap st !! Sample.source_X)
             /\ is_Some (s_sinkMap st !! Sample.sink_Y))
    as (st & Hrun & Hsrc & Hsnk).
  { eexists. split; [vm_compute; reflexivity|].
    split; vm_compute; eexists; reflexivity. }
  exists st. split; [exact Hrun|].
  split; [exact (proj1 (stored_keys_are_canonical Sample.session st Hrun))|].
  split; assumption.
Defined.
End OnSample.

(** ** Reserved blocks of layout indices *)

Module LayoutFacts.
Import Layout.

Lemma isPowTwo_pow2 k : 0 <= k -> isPowTwo (2^k) = true.
Proof.
  intros Hk. unfold isPowTwo.
  assert (0 < 2^k) as Hpos by (apply Z.pow_pos_nonneg; lia).
  apply andb_true_iff. split; [by apply Z.ltb_lt|]. apply Z.eqb_eq.
  replace (2^k - 1) with (Z.ones k) by (rewrite Z.ones_equiv; lia).
  rewrite Z.land_ones by done. apply Z.mod_same. lia.
Qed.

(** Masking off the low k bits rounds down to a multiple of 2^k. *)
Lemma mask_low_bits x k :
  0 <= k -> Z.land x (Z.lnot (2^k - 1)) = x / 2^k * 2^k.
Proof.
  intros Hk.
  replace (2^k - 1) with (Z.ones k) by (rewrite Z.ones_equiv; lia).
  rewrite <- Z.ldiff_land, Z.ldiff_ones_r by done.
  by rewrite Z.shiftr_div_pow2, Z.shiftl_mul_pow2.
Qed.

(** The first multiple of 2^k at or above [next]. *)
Lemma align_up_spec next k :
  0 <= k ->
  let n := 2^k in
  let r := Z.land (next + n - 1) (Z.lnot (n - 1)) in
  r mod n = 0 /\ next <= r < next + n
  /\ (forall i, next <= i -> i mod n = 0 -> r <= i).
Proof.
  intros Hk n r.
  assert (0 < n) as Hpos by (apply Z.pow_pos_nonneg; lia).
  assert (r = (next + n - 1) / n * n) as Hr by (by apply mask_low_bits).
  pose proof (Z.div_mod (next + n - 1) n ltac:(lia)) as Hdm.
  pose proof (Z.mod_pos_bound (next + n - 1) n Hpos) as Hmb.
  split; [|split].
  - rewrite Hr. apply Z.mod_mul. lia.
  - revert Hr Hdm Hmb.
    generalize ((next + n - 1) / n), ((next + n - 1) mod n).
    clearbody r n. intros q m -> Hdm Hmb. nia.
  - intros i Hi Hmod.
    pose proof (Z.div_mod i n ltac:(lia)) as Hi'. rewrite Hmod in Hi'.
    revert Hr Hdm Hmb Hi'.
    generalize ((next + n - 1) / n), ((next + n - 1) mod n), (i / n).
    clearbody r n. intros q m j -> Hdm Hmb ->.
    destruct (Z.le_gt_cases q j) as [Hle|Hgt].
    + apply Z.mul_le_mono_nonneg_r with (p := n) in Hle; lia.
    + assert ((j + 1) * n <= q * n)
        by (apply Z.mul_le_mono_nonneg_r; lia).
      lia.
Qed.

Lemma ReserveIndices_pow2 k next :
  0 <= k ->
  ReserveIndices (2^k) next
  = let r := Z.land (next + 2^k - 1) (Z.lnot (2^k - 1)) in
    if r + 2^k <=? kMaxIndex + 1 then Some (r, r + 2^k) else None.
Proof.
  intros Hk. unfold ReserveIndices. by rewrite isPowTwo_pow2 by done.
Qed.

(** C9.  For a size n that is a power of two and a mark [next] of the first
    index not yet handed out, [ReserveIndices n] either returns an index i
    with i mod n = 0 that starts a block of n consecutive indices
    i, ..., i + n - 1, none of them handed out before (next <= i), all of
    them layout indices (i + n <= 2^15), and moves the mark past the block;
    or it fails, and then no block of n indices aligned to n fits between
    the mark and 2^15. *)
Theorem ReserveIndices_aligned (k next : Z) :
  0 <= k -> 0 <= next ->
  let n := 2^k in
  match ReserveIndices n next with
  | Some (i, next') =>
      i mod n = 0 /\ next <= i < next + n /\ next' = i + n
      /\ 0 <= i /\ i + n - 1 <= kMaxIndex
  | None => forall i, next <= i -> i mod n = 0 -> kMaxIndex < i + n - 1
  end.
Proof.
  intros Hk Hnext n. unfold n. rewrite ReserveIndices_pow2 by done.
  fold n. cbv zeta.
  destruct (align_up_spec next k Hk) as (Hmod & Hrange & Hleast).
  fold n in Hmod, Hrange, Hleast.
  set (r := Z.land (next + n - 1) (Z.lnot (n - 1))) in *.
  destruct (r + n <=? kMaxIndex + 1) eqn:Hfit.
  - apply Z.leb_le in Hfit. repeat split; lia.
  - apply Z.leb_gt in Hfit. intros i Hi Himod.
    specialize (Hleast i Hi Himod). lia.
Qed.

Lemma ReserveIndices_aligned_witness :
  ReserveIndices 8 3 = Some (8, 16) /\ 8 mod 8 = 0.
Proof.
  pose proof (ReserveIndices_aligned 3 3 ltac:(lia) ltac:(lia)) as H.
  simpl in H. split; [reflexivity|]. exact (proj1 H).
Defined.

(** Scenario S2: two reservations of 8 indices in a row return indices
    that are multiples of 8 and 8 apart. *)
Lemma ReserveIndices_twice next i1 next1 :
  0 <= next -> ReserveIndices 8 next = Some (i1, next1) ->
  i1 + 16 <= kMaxIndex + 1 ->
  ReserveIndices 8 next1 = Some (i1 + 8, i1 + 16)
  /\ i1 mod 8 = 0 /\ (i1 + 8) mod 8 = 0.
Proof.
  intros Hnext H1 Hfit. change 8 with (2^3) in H1 |- * at 1.
  rewrite ReserveIndices_pow2 in H1 by lia. cbv zeta in H1.
  destruct (align_up_spec next 3 ltac:(lia)) as (Hmod1 & Hr1 & _).
  change (2^3) with 8 in *.
  set (r1 := Z.land (next + 8 - 1) (Z.lnot (8 - 1))) in *.
  destruct (r1 + 8 <=? kMaxIndex + 1); [|done].
  injection H1 as <- <-.
  change 8 with (2^3) at 1. rewrite ReserveIndices_pow2 by lia. cbv zeta.
  destruct (align_up_spec (r1 + 8) 3 ltac:(lia)) as (Hmod2 & Hr2 & _).
  change (2^3) with 8 in *.
  set (r2 := Z.land (r1 + 8 + 8 - 1) (Z.lnot (8 - 1))) in *.
  assert (r2 = r1 + 8) as Hr.
  { apply Z.mod_divide in Hmod1, Hmod2; try lia.
    destruct Hmod1 as [a Ha], Hmod2 as [b Hb]. lia. }
  rewrite Hr. rewrite Hr in Hmod2.
  assert ((r1 + 8 + 8 <=? kMaxIndex + 1) = true) as -> by (apply Z.leb_le; lia).
  repeat split; try done. do 2 f_equal. lia.
Qed.

End LayoutFacts.

(** ** The theorems on concrete inputs *)

Section QuickChecks.
#[local] Existing Instance Sample.runtime.

Lemma EventKey_round_trip_witness :
  -128 <= 5 <= 127
  /\ (exists e, @EventKey_int Sample.runtime Sample.GetInt 5 = Some e
        /\ toString e = Some "GetInt key=[i8:5]")
  /\ (exists e, @EventKey_int Sample.runtime Sample.GetInt 300 = Some e
        /\ toString e = Some "GetInt key=[i16]")
  /\ (exists e, @EventKey_int Sample.runtime Sample.GetInt (-70000) = Some e
        /\ toString e = Some "GetInt key=[i32]")
  /\ (exists e, @EventKey_int Sample.runtime Sample.GetInt (2^40) = Some e
        /\ toString e = Some "GetInt key=[i64]").
Proof.
  split; [lia|].
  destruct (@EventKey_round_trip Sample.runtime Sample.GetInt)
    as (Hsmall & _ & Hwide & _).
  split; [|split; [|split]].
  - destruct (Hsmall 5 ltac:(lia)) as [(e & He & Hs) _].
    exists e. split; [exact He|]. rewrite Hs. vm_compute. reflexivity.
  - destruct (Hwide 300 "i16") as [(e & He & Hs) _].
    { left. split; [lia|]. split; [lia|reflexivity]. }
    exists e. split; [exact He|]. rewrite Hs. vm_compute. reflexivity.
  - destruct (Hwide (-70000) "i32") as [(e & He & Hs) _].
    { right. left. split; [lia|]. split; [lia|reflexivity]. }
    exists e. split; [exact He|]. rewrite Hs. vm_compute. reflexivity.
  - destruct (Hwide (2^40) "i64") as [(e & He & Hs) _].
    { right. right. split; [lia|reflexivity]. }
    exists e. split; [exact He|]. rewrite Hs. vm_compute. reflexivity.
Defined.

Lemma logEventImpl_counts_witness :
  Z.of_nat (length Sample.five_calls) < 2^64
  /\ Forall (fun c => EventKey_representable c.2) Sample.five_calls
  /\ Sample.key_GetInt_1 <> Sample.key_GetInt_300
  /\ exists p,
       logEventImpl_seq false Sample.five_calls
         (LoggingProfile_new Sample.source_X) = Some p
       /\ events p !! (snd Sample.sink_Y, toUInt64 Sample.key_GetInt_1)
          = Some 2
       /\ events p !! (snd Sample.sink_Y, toUInt64 Sample.key_GetInt_300)
          = Some 1
       /\ events p !! (SrcKey_empty, toUInt64 Sample.key_GetInt_1) = Some 1
       /\ events p !! (SrcKey_empty, toUInt64 Sample.key_GetInt_300) = None
       /\ getTotalEvents p = 5.
Proof.
  assert (Z.of_nat (length Sample.five_calls) < 2^64) as Hlen
    by (vm_compute; reflexivity).
  assert (forall key,
            key = Sample.key_GetInt_1 \/ key = Sample.key_GetInt_300
            \/ key = Sample.key_ReleaseUncounted ->
            EventKey_representable key) as Hkeys.
  { intros key [->|[->| ->]]; vm_compute;
      (split; [split; [discriminate|reflexivity]|]);
      (split; [reflexivity|]);
      split; split; first [discriminate | reflexivity]. }
  assert (Forall (fun c => EventKey_representable c.2) Sample.five_calls)
    as Hrep.
  { repeat (apply Forall_cons; split; [apply Hkeys; simpl; tauto|]).
    by apply Forall_nil. }
  split; [exact Hlen|]. split; [exact Hrep|]. split; [discriminate|].
  destruct (logEventImpl_counts Sample.source_X Sample.five_calls Hlen Hrep)
    as (_ & _ & pairs & p & _ & Hrun & Hcount & _ & _ & Htotal).
  exists p. split; [exact Hrun|].
  assert (EventKey_representable Sample.key_GetInt_1) as H1
    by (apply Hkeys; tauto).
  assert (EventKey_representable Sample.key_GetInt_300) as H300
    by (apply Hkeys; tauto).
  split; [rewrite (Hcount (snd Sample.sink_Y) Sample.key_GetInt_1 H1);
          vm_compute; reflexivity|].
  split; [rewrite (Hcount (snd Sample.sink_Y) Sample.key_GetInt_300 H300);
          vm_compute; reflexivity|].
  split; [rewrite (Hcount SrcKey_empty Sample.key_GetInt_1 H1);
          vm_compute; reflexivity|].
  split; [rewrite (Hcount SrcKey_empty Sample.key_GetInt_300 H300);
          vm_compute; reflexivity|].
  exact Htotal.
Defined.

(** S3: the rendering of two integer keys. *)
Example render_Get_5_and_big :
  (@EventKey_int Sample.runtime Sample.GetInt 5 ≫= toString) = Some "GetInt key=[i8:5]"
  /\ (@EventKey_int Sample.runtime Sample.GetInt (2^40) ≫= toString) = Some "GetInt key=[i64]".
Proof. split; vm_compute; reflexivity. Qed.

(** The packed key is read back as it was written. *)
Example pack_unpack :
  EventKey_of_uint64 (toUInt64 Sample.key_GetInt_1) = Sample.key_GetInt_1.
Proof. reflexivity. Qed.

(** An event of ReleaseUncounted is counted under the empty sink although
    the thread is inside a frame; an event of GetInt under the frame's
    position. *)
Example sinks_of_two_events :
  event_pair Sample.thread_at_Y Sample.key_ReleaseUncounted
  = Some (SrcKey_empty, toUInt64 Sample.key_ReleaseUncounted)
  /\ event_pair Sample.thread_at_Y Sample.key_GetInt_1
    = Some (snd Sample.sink_Y, toUInt64 Sample.key_GetInt_1).
Proof. split; vm_compute; reflexivity. Qed.

End QuickChecks.

(** ** After export has started nothing is recorded any more *)

Section Frozen.
Context `{RT : Runtime}.

Lemma with_profileMap_insert_id st sk p :
  s_profileMap st !! sk = Some p -> with_profileMap (insert sk p) st = st.
Proof.
  intros Hp. destruct st as [started pm sm th]; simpl in *.
  unfold with_profileMap; simpl. f_equal. by apply insert_id.
Qed.

Lemma with_sinkMap_insert_id st key s :
  s_sinkMap st !! key = Some s -> with_sinkMap (insert key s) st = st.
Proof.
  intros Hs. destruct st as [started pm sm th]; simpl in *.
  unfold with_sinkMap; simpl. f_equal. by apply insert_id.
Qed.

Lemma exec_frozen c st st' :
  s_exportStarted st = true -> exec c st = Some st' ->
  s_exportStarted st' = true
  /\ s_profileMap st' = s_profileMap st
  /\ s_sinkMap st' = s_sinkMap st
  /\ (c <> CallExportProfiles -> c <> CallWaitOnExportProfiles -> st' = st).
Proof.
  intros Hstarted.
  assert (st' = st ->
          s_exportStarted st' = true
          /\ s_profileMap st' = s_profileMap st
          /\ s_sinkMap st' = s_sinkMap st
          /\ (c <> CallExportProfiles -> c <> CallWaitOnExportProfiles ->
              st' = st)) as Hsame by (by intros ->).
  destruct c as [skRaw|id skRaw|profile t op a|profile before after
                |sinkp ad| |]; simpl; intros Hexec.
  - apply Hsame.
    unfold getLoggingProfile, getLoggingProfile_locked in Hexec.
    rewrite Hstarted in Hexec.
    destruct (negb (shouldLogAtSrcKey skRaw)); [by simplify_eq/=|].
    destruct (canonicalize skRaw) as [sk|]; [|done]. simpl in Hexec.
    destruct (s_profileMap st !! sk); by simplify_eq/=.
  - apply Hsame.
    unfold getSinkProfile, getSinkProfile_locked in Hexec.
    rewrite Hstarted in Hexec.
    destruct (canonicalize skRaw) as [sk|]; [|done]. simpl in Hexec.
    destruct (s_sinkMap st !! (id, sk)); by simplify_eq/=.
  - apply Hsame.
    destruct (s_profileMap st !! profile) as [p|] eqn:Hp; [|done].
    simpl in Hexec. rewrite Hstarted in Hexec.
    unfold logEvent, logEventImpl in Hexec.
    destruct (EventKey_make op a); [|done]. simpl in Hexec.
    injection Hexec as <-. by apply with_profileMap_insert_id.
  - apply Hsame.
    destruct (s_profileMap st !! profile) as [p|] eqn:Hp; [|done].
    simpl in Hexec. rewrite Hstarted in Hexec. unfold logEntryTypes in Hexec.
    injection Hexec as <-. by apply with_profileMap_insert_id.
  - apply Hsame.
    destruct (s_sinkMap st !! sinkp) as [s|] eqn:Hs; [|done].
    simpl in Hexec. rewrite Hstarted in Hexec. unfold update in Hexec.
    simpl in Hexec. injection Hexec as <-. by apply with_sinkMap_insert_id.
  - unfold exportProfiles in Hexec.
    destruct (negb allowBespokeArrayLikes); [done|].
    destruct (decide (EvalExportLoggingArrayDataPath = _));
      [apply Hsame; by simplify_eq|].
    destruct (s_exportProfilesThread st); [done|].
    injection Hexec as <-. by simpl.
  - unfold waitOnExportProfiles in Hexec. rewrite Hstarted in Hexec.
    destruct (s_exportProfilesThread st); [|done].
    injection Hexec as <-. by simpl.
Qed.

Lemma run_app cs1 cs2 st : run (cs1 ++ cs2) st = run cs1 st ≫= run cs2.
Proof.
  revert st. induction cs1 as [|c cs1 IH]; intros st; simpl; [done|].
  destruct (exec c st) as [st1|]; simpl; [apply IH|done].
Qed.

(** X1.  Once the export flag is set, no entry point records anything.
    After any sequence of calls that the program survives
    ([getLoggingProfile], [getSinkProfile], the six [logEvent] overloads,
    [logEntryTypes], [SinkProfile::update], [exportProfiles],
    [waitOnExportProfiles]) the flag is still set and both profile tables,
    with every counter in them, are what they were: a worker reads tables
    that no longer move.  Only the worker's thread object can have changed,
    and only by [exportProfiles] or [waitOnExportProfiles]: without these
    two the whole state is what it was.  When the sequence leaves a worker
    that has not been joined, one more [exportProfiles] (with an export
    path configured) is not survived. *)
Theorem export_freezes_the_tables (calls : list Call) (st st' : State) :
  s_exportStarted st = true ->
  run calls st = Some st' ->
  s_exportStarted st' = true
  /\ s_profileMap st' = s_profileMap st
  /\ s_sinkMap st' = s_sinkMap st
  /\ (CallExportProfiles ∉ calls -> CallWaitOnExportProfiles ∉ calls ->
      st' = st)
  /\ (EvalExportLoggingArrayDataPath <> EmptyString ->
      s_exportProfilesThread st' = true ->
      run (calls ++ [CallExportProfiles]) st = None).
Proof.
  intros Hstarted Hrun. repeat split.
  - revert st st' Hstarted Hrun.
    induction calls as [|c calls IH]; intros st st' Hstarted Hrun;
      simpl in Hrun; [by simplify_eq|].
    destruct (exec c st) as [st1|] eqn:Hexec; [|done]. simpl in Hrun.
    apply (exec_frozen c st st1 Hstarted) in Hexec as (H1 & _). by eapply IH.
  - revert st st' Hstarted Hrun.
    induction calls as [|c calls IH]; intros st st' Hstarted Hrun;
      simpl in Hrun; [by simplify_eq|].
    destruct (exec c st) as [st1|] eqn:Hexec; [|done]. simpl in Hrun.
    apply (exec_frozen c st st1 Hstarted) in Hexec as (H1 & H2 & _).
    rewrite <- H2. by eapply IH.
  - revert st st' Hstarted Hrun.
    induction calls as [|c calls IH]; intros st st' Hstarted Hrun;
      simpl in Hrun; [by simplify_eq|].
    destruct (exec c st) as [st1|] eqn:Hexec; [|done]. simpl in Hrun.
    apply (exec_frozen c st st1 Hstarted) in Hexec as (H1 & _ & H3 & _).
    rewrite <- H3. by eapply IH.
  - revert st st' Hstarted Hrun.
    induction calls as [|c calls IH]; intros st st' Hstarted Hrun He Hw;
      simpl in Hrun; [by simplify_eq|].
    destruct (exec c st) as [st1|] eqn:Hexec; [|done]. simpl in Hrun.
    apply not_elem_of_cons in He as [He1 He2].
    apply not_elem_of_cons in Hw as [Hw1 Hw2].
    apply (exec_frozen c st st1 Hstarted) in Hexec as (_ & _ & _ & H4).
    rewrite H4 in Hrun by done. by eapply IH.
  - intros Hpath Hjoinable. rewrite run_app, Hrun. simpl.
    unfold exportProfiles.
    destruct (negb allowBespokeArrayLikes); [done|].
    rewrite decide_False by done. by rewrite Hjoinable.
Qed.

End Frozen.

(** ** Registration of profiles *)

Section Registration.
Context `{RT : Runtime}.

Lemma shouldLogAtSrcKey_canonicalize sk :
  shouldLogAtSrcKey sk = true -> exists sk', canonicalize sk = Some sk'.
Proof.
  intros Hlog. apply shouldLogAtSrcKey_valid in Hlog.
  unfold canonicalize. rewrite Hlog. by eexists.
Qed.

(** X2.  Before export starts, [getLoggingProfile] on a source key that is
    logged never returns null: it returns the profile held under the
    canonical key.  A profile that is already in the table is returned as it
    is and the state does not change; otherwise a profile for the canonical
    key is inserted that has no events and no counts, with static arrays
    exactly when the instruction is an Array, Vec, Dict or Keyset literal.
    No other entry of the table changes, nor the sink table, nor the flag. *)
Theorem getLoggingProfile_before_export (st : State) (skRaw : SrcKey) :
  s_exportStarted st = false ->
  shouldLogAtSrcKey skRaw = true ->
  exists sk st' p,
    canonicalize skRaw = Some sk
    /\ getLoggingProfile skRaw st = Some (Some sk, st')
    /\ s_profileMap st' !! sk = Some p
    /\ (forall old, s_profileMap st !! sk = Some old -> p = old /\ st' = st)
    /\ (s_profileMap st !! sk = None ->
          source p = sk
          /\ events p = ∅ /\ monotypeEvents p = ∅
          /\ loggingArraysEmitted p = 0 /\ sampleCount p = 0
          /\ (is_Some (staticLoggingArray p)
              <-> sk_op sk ∈ [OpArray; OpVec; OpDict; OpKeyset])
          /\ (is_Some (staticSampledArray p)
              <-> sk_op sk ∈ [OpArray; OpVec; OpDict; OpKeyset]))
    /\ (forall sk0, sk0 <> sk ->
          s_profileMap st' !! sk0 = s_profileMap st !! sk0)
    /\ s_sinkMap st' = s_sinkMap st
    /\ s_exportStarted st' = false.
Proof.
  intros Hstarted Hlog.
  destruct (shouldLogAtSrcKey_canonicalize skRaw Hlog) as [sk Hsk].
  unfold getLoggingProfile, getLoggingProfile_locked.
  rewrite Hlog, Hsk, Hstarted. simpl.
  destruct (s_profileMap st !! sk) as [old|] eqn:Hold.
  - exists sk, st, old. split; [done|]. split; [done|]. split; [done|].
    split; [intros ? Ho; rewrite Hold in Ho; by injection Ho as <-|].
    split; [by rewrite Hold|]. done.
  - eexists sk, _, _. split; [done|]. split; [done|]. simpl.
    split; [apply lookup_insert_eq|]. split; [by rewrite Hold|].
    split; [|split; [|done]].
    2:{ intros sk0 Hne. by rewrite lookup_insert_ne. }
    intros _.
    assert (forall o : Op, o ∈ [OpArray; OpVec; OpDict; OpKeyset]
              <-> (o = OpArray \/ o = OpVec \/ o = OpDict \/ o = OpKeyset))
      as Hmem.
    { intros o. rewrite !elem_of_cons, elem_of_nil. tauto. }
    rewrite !Hmem.
    destruct (sk_op sk) eqn:Hop; simpl;
      (split; [done|]); (split; [done|]); (split; [done|]);
      (split; [done|]); (split; [done|]);
      split; split; intros Hx;
        first [ by eexists | tauto
              | by destruct Hx as [? [=]]
              | by destruct Hx as [[=]|[[=]|[[=]|[=]]]] ].
Qed.

(** X3.  [getLoggingProfile] is idempotent: a second call with the same
    source key, in the state that the first call left, returns the same
    pointer (or null again) and changes nothing, whether or not export had
    started. *)
Theorem getLoggingProfile_idempotent (st st' : State) (skRaw : SrcKey)
  (r : option SrcKey) :
  getLoggingProfile skRaw st = Some (r, st') ->
  getLoggingProfile skRaw st' = Some (r, st').
Proof.
  unfold getLoggingProfile, getLoggingProfile_locked.
  destruct (negb (shouldLogAtSrcKey skRaw)); [by intros [= <- <-]|].
  destruct (canonicalize skRaw) as [sk|]; [|done]. simpl.
  destruct (s_profileMap st !! sk) as [old|] eqn:Hold.
  - intros [= <- <-]. by rewrite Hold.
  - destruct (s_exportStarted st) eqn:Hstarted.
    + intros [= <- <-]. by rewrite Hold, Hstarted.
    + intros [= <- <-]. simpl. by rewrite lookup_insert_eq.
Qed.

(** X4.  Before export starts, [getSinkProfile] with a valid SrcKey returns
    the sink profile held under (id, canonical key), never null.  A profile
    already in the table is returned as it is; otherwise one is inserted
    whose [sink] is that key, whose three histograms have their full sizes
    and hold zeros, and whose counts and sources are empty.  No other entry
    changes, nor the source table, nor the flag. *)
Theorem getSinkProfile_before_export (st : State) (id : Z) (skRaw : SrcKey) :
  s_exportStarted st = false ->
  valid skRaw = true ->
  exists sk st' s,
    canonicalize skRaw = Some sk
    /\ getSinkProfile id skRaw st = Some (Some (id, sk), st')
    /\ s_sinkMap st' !! (id, sk) = Some s
    /\ (forall old, s_sinkMap st !! (id, sk) = Some old -> s = old /\ st' = st)
    /\ (s_sinkMap st !! (id, sk) = None ->
          sink s = (id, sk)
          /\ arrCounts s = replicate (Z.to_nat kNumArrTypes) 0
          /\ keyCounts s = replicate (Z.to_nat kNumKeyTypes) 0
          /\ valCounts s = replicate (Z.to_nat kNumValTypes) 0
          /\ sampledCount s = 0 /\ unsampledCount s = 0 /\ sources s = ∅)
    /\ (forall key, key <> (id, sk) -> s_sinkMap st' !! key = s_sinkMap st !! key)
    /\ s_profileMap st' = s_profileMap st
    /\ s_exportStarted st' = false.
Proof.
  intros Hstarted Hvalid.
  unfold getSinkProfile, getSinkProfile_locked, canonicalize.
  rewrite Hvalid, Hstarted. simpl.
  set (sk := {| funcID := funcID skRaw; offset := offset skRaw;
                resumeMode := ResumeNone |}).
  destruct (s_sinkMap st !! (id, sk)) as [old|] eqn:Hold.
  - exists sk, st, old. split; [done|]. split; [done|]. split; [done|].
    split; [intros ? Ho; rewrite Hold in Ho; by injection Ho as <-|].
    split; [by rewrite Hold|]. done.
  - eexists sk, _, _. split; [done|]. split; [done|]. simpl.
    split; [apply lookup_insert_eq|]. split; [by rewrite Hold|].
    split; [done|]. split; [|done].
    intros key Hne. by rewrite lookup_insert_ne.
Qed.

(** X5.  The two lookups treat an invalid SrcKey differently:
    [getLoggingProfile] checks validity first and returns null, leaving the
    state as it is, while [getSinkProfile] canonicalizes without a check and
    trips the assertion of [canonicalize]. *)
Theorem invalid_SrcKey_lookups (st : State) (id : Z) (skRaw : SrcKey) :
  valid skRaw = false ->
  getLoggingProfile skRaw st = Some (None, st)
  /\ getSinkProfile id skRaw st = None.
Proof.
  unfold getLoggingProfile, getSinkProfile, shouldLogAtSrcKey, canonicalize.
  intros Hv. by rewrite Hv.
Qed.

Lemma exec_keeps_profiles c st st' :
  exec c st = Some st' ->
  (forall sk, is_Some (s_profileMap st !! sk) ->
              is_Some (s_profileMap st' !! sk))
  /\ (forall key, is_Some (s_sinkMap st !! key) ->
                  is_Some (s_sinkMap st' !! key)).
Proof.
  assert (forall `{Countable K} {A} (m : gmap K A) k (x : A) j,
            is_Some (m !! j) -> is_Some (<[k := x]> m !! j)) as Hins.
  { intros K ? ? A m k x j Hj. destruct (decide (j = k)) as [->|Hne].
    - rewrite lookup_insert_eq. by eexists.
    - by rewrite lookup_insert_ne. }
  destruct c as [skRaw|id skRaw|profile t op a|profile before after
                |sinkp ad| |]; simpl; intros Hexec.
  - unfold getLoggingProfile, getLoggingProfile_locked in Hexec.
    destruct (negb (shouldLogAtSrcKey skRaw)); [by simplify_eq/=|].
    destruct (canonicalize skRaw) as [sk|]; [|done]. simpl in Hexec.
    destruct (s_profileMap st !! sk); [by simplify_eq/=|].
    destruct (s_exportStarted st); [by simplify_eq/=|].
    simplify_eq/=. split; [|done]. intros sk0. apply Hins.
  - unfold getSinkProfile, getSinkProfile_locked in Hexec.
    destruct (canonicalize skRaw) as [sk|]; [|done]. simpl in Hexec.
    destruct (s_sinkMap st !! (id, sk)); [by simplify_eq/=|].
    destruct (s_exportStarted st); [by simplify_eq/=|].
    simplify_eq/=. split; [done|]. intros key. apply Hins.
  - destruct (s_profileMap st !! profile) as [p|]; [|done]. simpl in Hexec.
    destruct (logEvent _ t op a p) as [p'|]; [|done].
    simplify_eq/=. split; [|done]. intros sk0. apply Hins.
  - destruct (s_profileMap st !! profile) as [p|]; [|done].
    simplify_eq/=. split; [|done]. intros sk0. apply Hins.
  - destruct (s_sinkMap st !! sinkp) as [s|]; [|done]. simpl in Hexec.
    destruct (update _ ad s) as [s'|]; [|done].
    simplify_eq/=. split; [done|]. intros key. apply Hins.
  - unfold exportProfiles in Hexec.
    destruct (negb allowBespokeArrayLikes); [done|].
    destruct (decide (EvalExportLoggingArrayDataPath = _));
      [by simplify_eq/=|].
    by destruct (s_exportProfilesThread st); simplify_eq/=.
  - unfold waitOnExportProfiles in Hexec.
    by destruct (s_exportStarted st), (s_exportProfilesThread st);
      simplify_eq/=.
Qed.

(** X24.  A profile pointer stays good: no call ever removes an entry from
    the source table or from the sink table, so a profile that
    [getLoggingProfile] or [getSinkProfile] has returned is still in its
    table, under the same key, after any further calls. *)
Theorem profiles_are_never_removed (calls : list Call) (st st' : State) :
  run calls st = Some st' ->
  (forall sk, is_Some (s_profileMap st !! sk) ->
              is_Some (s_profileMap st' !! sk))
  /\ (forall key, is_Some (s_sinkMap st !! key) ->
                  is_Some (s_sinkMap st' !! key)).
Proof.
  revert st st'. induction calls as [|c calls IH]; intros st st' Hrun;
    simpl in Hrun.
  - by simplify_eq.
  - destruct (exec c st) as [st1|] eqn:Hexec; [|done]. simpl in Hrun.
    destruct (exec_keeps_profiles c st st1 Hexec) as [Hp1 Hs1].
    destruct (IH st1 st' Hrun) as [Hp Hs]. split.
    + intros sk Hsk. by apply Hp, Hp1.
    + intros key Hkey. by apply Hs, Hs1.
Qed.

(** X25.  Every call touches its own profile only.  A [logEvent] or
    [logEntryTypes] on one source profile leaves every other source profile
    and the whole sink table as they are; an [update] on one sink profile
    leaves every other sink profile and the whole source table as they are;
    [getLoggingProfile] and [getSinkProfile] leave every profile that is
    already in a table exactly as it is, counters included, and do not touch
    the other table; [exportProfiles] and [waitOnExportProfiles] leave both
    tables as they are.  No call clears the export flag. *)
Theorem calls_touch_only_their_profile (c : Call) (st st' : State) :
  exec c st = Some st' ->
  match c with
  | CallLogEvent profile _ _ _ | CallLogEntryTypes profile _ _ =>
      s_sinkMap st' = s_sinkMap st
      /\ forall sk, sk <> profile ->
           s_profileMap st' !! sk = s_profileMap st !! sk
  | CallUpdate sinkp _ =>
      s_profileMap st' = s_profileMap st
      /\ forall key, key <> sinkp -> s_sinkMap st' !! key = s_sinkMap st !! key
  | CallGetLoggingProfile _ =>
      s_sinkMap st' = s_sinkMap st
      /\ forall sk p, s_profileMap st !! sk = Some p ->
           s_profileMap st' !! sk = Some p
  | CallGetSinkProfile _ _ =>
      s_profileMap st' = s_profileMap st
      /\ forall key s, s_sinkMap st !! key = Some s ->
           s_sinkMap st' !! key = Some s
  | CallExportProfiles | CallWaitOnExportProfiles =>
      s_profileMap st' = s_profileMap st /\ s_sinkMap st' = s_sinkMap st
  end
  /\ (s_exportStarted st = true -> s_exportStarted st' = true).
Proof.
  destruct c as [skRaw|id skRaw|profile t op a|profile before after
                |sinkp ad| |]; simpl; intros Hexec.
  - unfold getLoggingProfile, getLoggingProfile_locked in Hexec.
    destruct (negb (shouldLogAtSrcKey skRaw)); [simplify_eq/=; tauto|].
    destruct (canonicalize skRaw) as [sk|]; [|done]. simpl in Hexec.
    destruct (s_profileMap st !! sk) eqn:Hsk; [simplify_eq/=; tauto|].
    destruct (s_exportStarted st) eqn:Hst; [simplify_eq/=; tauto|].
    simplify_eq/=. split; [|done]. split; [done|].
    intros sk0 p Hp. rewrite lookup_insert_ne; [done|]. congruence.
  - unfold getSinkProfile, getSinkProfile_locked in Hexec.
    destruct (canonicalize skRaw) as [sk|]; [|done]. simpl in Hexec.
    destruct (s_sinkMap st !! (id, sk)) eqn:Hsk; [simplify_eq/=; tauto|].
    destruct (s_exportStarted st) eqn:Hst; [simplify_eq/=; tauto|].
    simplify_eq/=. split; [|done]. split; [done|].
    intros key s Hs. rewrite lookup_insert_ne; [done|]. congruence.
  - destruct (s_profileMap st !! profile) as [p|]; [|done]. simpl in Hexec.
    destruct (logEvent _ t op a p) as [p'|]; [|done].
    simplify_eq/=. split; [|done]. split; [done|].
    intros sk Hne. by rewrite lookup_insert_ne.
  - destruct (s_profileMap st !! profile) as [p|]; [|done].
    simplify_eq/=. split; [|done]. split; [done|].
    intros sk Hne. by rewrite lookup_insert_ne.
  - destruct (s_sinkMap st !! sinkp) as [s|]; [|done]. simpl in Hexec.
    destruct (update _ ad s) as [s'|]; [|done].
    simplify_eq/=. split; [|done]. split; [done|].
    intros key Hne. by rewrite lookup_insert_ne.
  - unfold exportProfiles in Hexec.
    destruct (negb allowBespokeArrayLikes); [done|].
    destruct (decide (EvalExportLoggingArrayDataPath = _));
      [simplify_eq/=; tauto|].
    destruct (s_exportProfilesThread st); simplify_eq/=; tauto.
  - unfold waitOnExportProfiles in Hexec.
    destruct (s_exportStarted st) eqn:Hst, (s_exportProfilesThread st);
      simplify_eq/=; intuition congruence.
Qed.

End Registration.

(** ** Counting of entry-type transitions *)

Section EntryTypeCounts.
Context `{RT : Runtime}.

Lemma count_one_foldl `{Countable K} (keys : list K) : forall seen (m : gmap K Z),
  (forall k, m !! k = after_increments (occurrences k seen)) ->
  forall k, foldl (fun m k => count_one k m) m keys !! k
            = after_increments (occurrences k (seen ++ keys)).
Proof.
  induction keys as [|j keys IH]; intros seen m Hm k; simpl.
  - by rewrite app_nil_r.
  - rewrite (IH (seen ++ [j])); [by rewrite <- app_assoc|].
    intros k'. destruct (decide (k' = j)) as [->|Hne].
    + rewrite count_one_lookup, Hm, occurrences_snoc_eq.
      apply after_increments_succ.
    + rewrite count_one_lookup_ne by done.
      by rewrite Hm, occurrences_snoc_ne.
Qed.

Lemma after_increments_small n :
  Z.of_nat n < 2^64 ->
  after_increments n
  = match n with O => None | S k => Some (Z.of_nat (S k)) end.
Proof.
  intros Hn. destruct n as [|n]; [done|]. unfold after_increments.
  rewrite IntFacts.wrap64_small; [done|lia].
Qed.

Lemma logEntryTypes_foldl_monotypeEvents calls : forall p,
  monotypeEvents (foldl (fun p c => logEntryTypes false c.1 c.2 p) p calls)
  = foldl (fun m k => count_one k m) (monotypeEvents p)
          ((fun c => (asInt16 c.1, asInt16 c.2)) <$> calls).
Proof.
  induction calls as [|c calls IH]; intros p; [done|]. simpl. by rewrite IH.
Qed.

Lemma logEntryTypes_foldl_events started calls : forall p,
  events (foldl (fun p c => logEntryTypes started c.1 c.2 p) p calls)
  = events p.
Proof.
  induction calls as [|c calls IH]; intros p; [done|]. simpl. rewrite IH.
  unfold logEntryTypes. by destruct started.
Qed.

(** X6.  After any sequence of fewer than 2^64 calls of [logEntryTypes] on a
    new profile, made before export starts, the counter of each pair of
    16-bit summaries (before, after) equals the number of calls whose
    arguments have these summaries, and a pair that no call had has no
    counter; the event counters are not touched.  A call made after export
    has started changes nothing. *)
Theorem logEntryTypes_counts (sk : SrcKey)
  (calls : list (EntryTypes * EntryTypes)) :
  Z.of_nat (length calls) < 2^64 ->
  let p := foldl (fun p c => logEntryTypes false c.1 c.2 p)
                 (LoggingProfile_new sk) calls in
  (forall before after,
     monotypeEvents p !! (before, after)
     = match occurrences (before, after)
               ((fun c => (asInt16 c.1, asInt16 c.2)) <$> calls) with
       | O => None
       | S n => Some (Z.of_nat (S n))
       end)
  /\ events p = ∅
  /\ (forall before after (p0 : LoggingProfile),
        logEntryTypes true before after p0 = p0).
Proof.
  intros Hlen p. split; [|split].
  - intros before after. subst p.
    rewrite logEntryTypes_foldl_monotypeEvents.
    unfold LoggingProfile_new; cbn [monotypeEvents].
    rewrite (count_one_foldl _ [] ∅) by done. cbn [app].
    apply after_increments_small.
    assert (occurrences (before, after)
              ((fun c => (asInt16 c.1, asInt16 c.2)) <$> calls)
            <= length calls)%nat; [|lia].
    etrans; [apply length_filter|]. by rewrite length_fmap.
  - subst p. by rewrite logEntryTypes_foldl_events.
  - done.
Qed.

End EntryTypeCounts.

(** ** Sink profiles: tallies, and merging with [reduce] *)

Section SinkTallies.
Context `{RT : Runtime}.

Lemma incr64_range c : 0 <= Int.incr64 c < 2^64.
Proof. apply IntFacts.wrap64_range. Qed.

Lemma add64_range a b : 0 <= add64 a b < 2^64.
Proof. apply IntFacts.wrap64_range. Qed.

Lemma wrap64_wrap64 x : Int.wrap64 (Int.wrap64 x) = Int.wrap64 x.
Proof. unfold Int.wrap64. by rewrite Zmod_mod. Qed.

Lemma wrap64_add_incr t c :
  Int.wrap64 (t + (Int.incr64 c - c)) = Int.wrap64 (t + 1).
Proof.
  unfold Int.incr64.
  replace (t + (Int.wrap64 (c + 1) - c)) with (Int.wrap64 (c + 1) + (t - c))
    by lia.
  rewrite IntFacts.wrap64_add_l. f_equal. lia.
Qed.

Lemma add64_incr64 a b : add64 a (Int.incr64 b) = Int.incr64 (add64 a b).
Proof.
  unfold add64, Int.incr64.
  rewrite IntFacts.wrap64_add_r, IntFacts.wrap64_add_l. f_equal. lia.
Qed.

Lemma add64_0_r a : 0 <= a < 2^64 -> add64 a 0 = a.
Proof. intros Ha. unfold add64. rewrite Z.add_0_r. by apply IntFacts.wrap64_small. Qed.

Lemma histogram_alter_incr i counts :
  (i < length counts)%nat ->
  Int.wrap64 (histogram_total (alter Int.incr64 i counts))
  = Int.wrap64 (histogram_total counts + 1).
Proof.
  intros Hi. destruct (lookup_lt_is_Some_2 counts i Hi) as [c Hc].
  rewrite histogram_total_alter, Hc. apply wrap64_add_incr.
Qed.

Lemma Forall_alter_incr i counts :
  Forall within64 counts -> Forall within64 (alter Int.incr64 i counts).
Proof.
  intros H. apply Forall_alter; [done|]. intros x _ _. apply incr64_range.
Qed.

Lemma zeros_within64 N : Forall within64 (zeros N).
Proof. unfold zeros. apply Forall_replicate. unfold within64. lia. Qed.

Lemma zeros_length N : length (zeros N) = Z.to_nat N.
Proof. unfold zeros. apply length_replicate. Qed.

Lemma incr_slot_Some N i counts counts' :
  incr_slot N i counts = Some counts' ->
  0 <= i < N /\ counts' = alter Int.incr64 (Z.to_nat i) counts.
Proof.
  unfold incr_slot. destruct (0 <=? i) eqn:H0; [|done].
  destruct (i <? N) eqn:H1; [|done]. simpl. intros [= <-].
  apply Z.leb_le in H0. apply Z.ltb_lt in H1. done.
Qed.

(** The cases of one [update] that counts the array. *)
Lemma update_cases ad s s' :
  update false ad s = Some s' ->
  (is_other_bespoke ad = true /\ s' = s)
  \/ (layout ad = Vanilla /\ 0 <= kind ad / 2 < kNumArrTypes
      /\ s' = {| sink := sink s;
                 arrCounts :=
                   alter Int.incr64 (Z.to_nat (kind ad / 2)) (arrCounts s);
                 keyCounts := keyCounts s; valCounts := valCounts s;
                 sampledCount :=
                   if isSampledArray ad then Int.incr64 (sampledCount s)
                   else sampledCount s;
                 unsampledCount :=
                   if isSampledArray ad then unsampledCount s
                   else Int.incr64 (unsampledCount s);
                 sources := sources s |})
  \/ (exists profile et,
        layout ad = Logging profile et
        /\ 0 <= kind ad / 2 < kNumArrTypes
        /\ 0 <= KeyTypes_raw (keyTypes et) < kNumKeyTypes
        /\ 0 <= val_slot et < kNumValTypes
        /\ s' = {| sink := sink s;
                   arrCounts :=
                     alter Int.incr64 (Z.to_nat (kind ad / 2)) (arrCounts s);
                   keyCounts :=
                     alter Int.incr64 (Z.to_nat (KeyTypes_raw (keyTypes et)))
                           (keyCounts s);
                   valCounts :=
                     alter Int.incr64 (Z.to_nat (val_slot et)) (valCounts s);
                   sampledCount := Int.incr64 (sampledCount s);
                   unsampledCount := unsampledCount s;
                   sources := count_one profile (sources s) |}).
Proof.
  unfold update, isVanilla, layout_index, LoggingArray_As, is_other_bespoke.
  destruct (layout ad) as [|profile et|i] eqn:Hlay; simpl.
  - destruct (incr_slot kNumArrTypes _ _) as [arr|] eqn:Harr; [|done].
    apply incr_slot_Some in Harr as [Hk ->]. simpl. intros [= <-].
    right; left. split; [done|]. split; [done|].
    by destruct (isSampledArray ad).
  - rewrite bool_decide_eq_true_2 by done. simpl.
    destruct (incr_slot kNumArrTypes _ _) as [arr|] eqn:Harr; [|done].
    apply incr_slot_Some in Harr as [Hk ->]. simpl.
    destruct (incr_slot kNumKeyTypes _ _) as [key|] eqn:Hkey; [|done].
    apply incr_slot_Some in Hkey as [Hkr ->]. simpl.
    destruct (incr_slot kNumValTypes _ _) as [val|] eqn:Hval; [|done].
    apply incr_slot_Some in Hval as [Hvr ->]. simpl. intros [= <-].
    right; right. by exists profile, et.
  - destruct (decide (i = LoggingArray_index)) as [->|Hne].
    + rewrite bool_decide_eq_true_2 by done. done.
    + rewrite bool_decide_eq_false_2 by congruence. simpl. intros [= <-].
      left. split; [|reflexivity].
      by rewrite bool_decide_eq_false_2.
Qed.

Lemma update_seq_app started ads1 : forall ads2 s,
  update_seq started (ads1 ++ ads2) s
  = (update_seq started ads1 s ≫= update_seq started ads2).
Proof.
  induction ads1 as [|ad ads1 IH]; intros ads2 s; [done|].
  cbn [app update_seq].
  destruct (update started ad s) as [s1|]; [|done]. simpl. apply IH.
Qed.

Lemma update_seq_ind (P : SinkProfile -> Prop) ads : forall s s',
  (forall ad s s', update false ad s = Some s' -> P s -> P s') ->
  update_seq false ads s = Some s' -> P s -> P s'.
Proof.
  induction ads as [|ad ads IH]; intros s s' Hstep Hrun Hs;
    cbn [update_seq] in Hrun.
  - by simplify_eq.
  - destruct (update false ad s) as [s1|] eqn:Hup; [|done]. simpl in Hrun.
    eapply IH; [exact Hstep|exact Hrun|]. by eapply Hstep.
Qed.

Lemma update_keeps_sizes ad s s' :
  update false ad s = Some s' ->
  length (arrCounts s') = length (arrCounts s)
  /\ length (keyCounts s') = length (keyCounts s)
  /\ length (valCounts s') = length (valCounts s).
Proof.
  intros Hup.
  destruct (update_cases ad s s' Hup)
    as [[_ ->]|[(_ & _ & ->)|(profile & et & _ & _ & _ & _ & ->)]];
    simpl; rewrite ?length_alter; done.
Qed.

Lemma update_keeps_within64 ad s s' :
  update false ad s = Some s' ->
  Forall within64 (arrCounts s) /\ Forall within64 (keyCounts s)
  /\ Forall within64 (valCounts s)
  /\ within64 (sampledCount s) /\ within64 (unsampledCount s) ->
  Forall within64 (arrCounts s') /\ Forall within64 (keyCounts s')
  /\ Forall within64 (valCounts s')
  /\ within64 (sampledCount s') /\ within64 (unsampledCount s').
Proof.
  intros Hup (Ha & Hk & Hv & Hs & Hu).
  destruct (update_cases ad s s' Hup)
    as [[_ ->]|[(_ & _ & ->)|(profile & et & _ & _ & _ & _ & ->)]];
    simpl; [done| |].
  - split; [by apply Forall_alter_incr|]. split; [done|]. split; [done|].
    destruct (isSampledArray ad); split; try done; apply incr64_range.
  - split; [by apply Forall_alter_incr|].
    split; [by apply Forall_alter_incr|].
    split; [by apply Forall_alter_incr|].
    split; [apply incr64_range|done].
Qed.

Lemma update_keeps_totals ad s s' :
  update false ad s = Some s' ->
  length (arrCounts s) = Z.to_nat kNumArrTypes
  /\ length (keyCounts s) = Z.to_nat kNumKeyTypes
  /\ length (valCounts s) = Z.to_nat kNumValTypes ->
  Int.wrap64 (histogram_total (arrCounts s))
    = add64 (sampledCount s) (unsampledCount s)
  /\ Int.wrap64 (histogram_total (keyCounts s))
    = Int.wrap64 (sum_counts (sources s))
  /\ Int.wrap64 (histogram_total (valCounts s))
    = Int.wrap64 (sum_counts (sources s)) ->
  Int.wrap64 (histogram_total (arrCounts s'))
    = add64 (sampledCount s') (unsampledCount s')
  /\ Int.wrap64 (histogram_total (keyCounts s'))
    = Int.wrap64 (sum_counts (sources s'))
  /\ Int.wrap64 (histogram_total (valCounts s'))
    = Int.wrap64 (sum_counts (sources s')).
Proof.
  intros Hup (La & Lk & Lv) (Ta & Tk & Tv).
  destruct (update_cases ad s s' Hup)
    as [[_ ->]|[(_ & Hkind & ->)|(profile & et & _ & Hkind & Hkey & Hval & ->)]];
    simpl; [done| |].
  - split; [|done]. rewrite histogram_alter_incr by lia.
    rewrite <- IntFacts.wrap64_add_l, Ta. unfold add64, Int.incr64.
    destruct (isSampledArray ad);
      rewrite ?IntFacts.wrap64_add_l, ?IntFacts.wrap64_add_r; f_equal; lia.
  - rewrite !histogram_alter_incr by lia. rewrite count_one_sum.
    rewrite <- (IntFacts.wrap64_add_l (histogram_total (arrCounts s))), Ta.
    rewrite <- (IntFacts.wrap64_add_l (histogram_total (keyCounts s))), Tk.
    rewrite <- (IntFacts.wrap64_add_l (histogram_total (valCounts s))), Tv.
    rewrite !IntFacts.wrap64_add_l. split; [|done].
    unfold add64, Int.incr64.
    rewrite ?IntFacts.wrap64_add_l, ?IntFacts.wrap64_add_r. f_equal. lia.
Qed.

(** The tallies of a sink profile that [update] has built. *)
Lemma update_seq_tallies (key : Z * SrcKey) (ads : list ArrayData)
  (s : SinkProfile) :
  update_seq false ads (SinkProfile_new key) = Some s ->
  sink s = key
  /\ (length (arrCounts s) = Z.to_nat kNumArrTypes
      /\ length (keyCounts s) = Z.to_nat kNumKeyTypes
      /\ length (valCounts s) = Z.to_nat kNumValTypes)
  /\ (Forall within64 (arrCounts s) /\ Forall within64 (keyCounts s)
      /\ Forall within64 (valCounts s)
      /\ within64 (sampledCount s) /\ within64 (unsampledCount s))
  /\ (Int.wrap64 (histogram_total (arrCounts s))
        = add64 (sampledCount s) (unsampledCount s)
      /\ Int.wrap64 (histogram_total (keyCounts s))
        = Int.wrap64 (sum_counts (sources s))
      /\ Int.wrap64 (histogram_total (valCounts s))
        = Int.wrap64 (sum_counts (sources s))).
Proof.
  intros Hrun.
  pose proof (zeros_within64 kNumArrTypes) as Wa.
  pose proof (zeros_within64 kNumKeyTypes) as Wk.
  pose proof (zeros_within64 kNumValTypes) as Wv.
  split; [|split; [|split]].
  - apply (update_seq_ind (fun s => sink s = key) ads (SinkProfile_new key) s);
      [|exact Hrun|done].
    intros ad s0 s1 Hup Hs0.
    pose proof (update_sink false ad s0 s1 Hup). congruence.
  - apply (update_seq_ind
             (fun s => length (arrCounts s) = Z.to_nat kNumArrTypes
                       /\ length (keyCounts s) = Z.to_nat kNumKeyTypes
                       /\ length (valCounts s) = Z.to_nat kNumValTypes)
             ads (SinkProfile_new key) s); [|exact Hrun|].
    + intros ad s0 s1 Hup (La & Lk & Lv).
      destruct (update_keeps_sizes ad s0 s1 Hup) as (-> & -> & ->). done.
    + simpl. by rewrite !zeros_length.
  - apply (update_seq_ind
             (fun s => Forall within64 (arrCounts s)
                       /\ Forall within64 (keyCounts s)
                       /\ Forall within64 (valCounts s)
                       /\ within64 (sampledCount s)
                       /\ within64 (unsampledCount s))
             ads (SinkProfile_new key) s); [|exact Hrun|].
    + intros ad s0 s1 Hup. by apply (update_keeps_within64 ad).
    + simpl. unfold within64. repeat split; try done; lia.
  - enough ((length (arrCounts s) = Z.to_nat kNumArrTypes
             /\ length (keyCounts s) = Z.to_nat kNumKeyTypes
             /\ length (valCounts s) = Z.to_nat kNumValTypes)
            /\ (Int.wrap64 (histogram_total (arrCounts s))
                  = add64 (sampledCount s) (unsampledCount s)
                /\ Int.wrap64 (histogram_total (keyCounts s))
                  = Int.wrap64 (sum_counts (sources s))
                /\ Int.wrap64 (histogram_total (valCounts s))
                  = Int.wrap64 (sum_counts (sources s)))) as [_ Ht]
      by exact Ht.
    apply (update_seq_ind
             (fun s => (length (arrCounts s) = Z.to_nat kNumArrTypes
                        /\ length (keyCounts s) = Z.to_nat kNumKeyTypes
                        /\ length (valCounts s) = Z.to_nat kNumValTypes)
                       /\ (Int.wrap64 (histogram_total (arrCounts s))
                             = add64 (sampledCount s) (unsampledCount s)
                           /\ Int.wrap64 (histogram_total (keyCounts s))
                             = Int.wrap64 (sum_counts (sources s))
                           /\ Int.wrap64 (histogram_total (valCounts s))
                             = Int.wrap64 (sum_counts (sources s))))
             ads (SinkProfile_new key) s); [|exact Hrun|].
    + intros ad s0 s1 Hup [Hlen Htot]. split.
      * destruct (update_keeps_sizes ad s0 s1 Hup) as (-> & -> & ->). done.
      * by apply (update_keeps_totals ad s0 s1).
    + simpl. rewrite !zeros_length, !zeros_total.
      rewrite (sum_counts_empty (K:=SrcKey)). done.
Qed.

(** X7.  Every sink profile that [update] builds from a new one keeps its
    tallies consistent, whatever arrays it is fed: the three histograms keep
    their sizes, every counter is a 64-bit value, and modulo 2^64 the
    array-kind histogram totals sampledCount + unsampledCount, while the
    key-type and the value-type histograms both total the counts held for
    the sources.  The [sink] field is not touched. *)
Theorem update_keeps_tallies (key : Z * SrcKey) (ads : list ArrayData)
  (s : SinkProfile) :
  update_seq false ads (SinkProfile_new key) = Some s ->
  sink s = key
  /\ (length (arrCounts s) = Z.to_nat kNumArrTypes
      /\ length (keyCounts s) = Z.to_nat kNumKeyTypes
      /\ length (valCounts s) = Z.to_nat kNumValTypes)
  /\ (Forall within64 (arrCounts s) /\ Forall within64 (keyCounts s)
      /\ Forall within64 (valCounts s)
      /\ within64 (sampledCount s) /\ within64 (unsampledCount s))
  /\ (Int.wrap64 (histogram_total (arrCounts s))
        = add64 (sampledCount s) (unsampledCount s)
      /\ Int.wrap64 (histogram_total (keyCounts s))
        = Int.wrap64 (sum_counts (sources s))
      /\ Int.wrap64 (histogram_total (valCounts s))
        = Int.wrap64 (sum_counts (sources s))).
Proof. apply update_seq_tallies. Qed.


(** The source of a LoggingArray, for the arrays that are one. *)
Lemma update_seq_counts ads : forall s s',
  update_seq false ads s = Some s' ->
  sources s'
  = foldl (fun m k => count_one k m) (sources s)
          (omap (fun ad => fst <$> LoggingArray_As ad) ads)
  /\ Int.wrap64 (sampledCount s')
     = Int.wrap64
         (sampledCount s
          + Z.of_nat (length (filter
               (fun ad => is_logging ad || isVanilla ad && isSampledArray ad
                          = true) ads)))
  /\ Int.wrap64 (unsampledCount s')
     = Int.wrap64
         (unsampledCount s
          + Z.of_nat (length (filter
               (fun ad => isVanilla ad && negb (isSampledArray ad) = true)
               ads))).
Proof.
  induction ads as [|ad ads IH]; intros s s' Hrun; cbn [update_seq] in Hrun.
  - simplify_eq. simpl. by rewrite !Z.add_0_r.
  - destruct (update false ad s) as [s1|] eqn:Hup; [|done]. simpl in Hrun.
    destruct (IH s1 s' Hrun) as (Hsrc & Hsam & Huns).
    rewrite Hsrc, Hsam, Huns. clear IH Hsrc Hsam Huns Hrun.
    cbn [omap list_omap].
    destruct (update_cases ad s s1 Hup)
      as [[Hoth ->]|[(Hlay & _ & ->)|(profile & et & Hlay & _ & _ & _ & ->)]].
    + assert (LoggingArray_As ad = None /\ is_logging ad = false
              /\ isVanilla ad = false) as (-> & Hl & Hv).
      { unfold is_other_bespoke in Hoth.
        unfold LoggingArray_As, is_logging, isVanilla.
        by destruct (layout ad). }
      cbn [fmap option_fmap option_map].
      rewrite !filter_cons_False by (rewrite ?Hl, Hv; simpl; done). done.
    + assert (LoggingArray_As ad = None /\ is_logging ad = false
              /\ isVanilla ad = true) as (-> & Hl & Hv).
      { unfold LoggingArray_As, is_logging, isVanilla. by rewrite Hlay. }
      cbn [fmap option_fmap option_map foldl sources sampledCount
           unsampledCount].
      destruct (isSampledArray ad) eqn:Hs.
      * rewrite filter_cons_True by (rewrite Hl, Hv, Hs; done).
        rewrite filter_cons_False by (rewrite Hv, Hs; simpl; done).
        cbn [length]. split; [done|]. split; [|done].
        unfold Int.incr64. rewrite IntFacts.wrap64_add_l. f_equal. lia.
      * rewrite filter_cons_False by (rewrite Hl, Hv, Hs; simpl; done).
        rewrite filter_cons_True by (rewrite Hv, Hs; done).
        cbn [length]. split; [done|]. split; [done|].
        unfold Int.incr64. rewrite IntFacts.wrap64_add_l. f_equal. lia.
    + assert (LoggingArray_As ad = Some (profile, et) /\ is_logging ad = true
              /\ isVanilla ad = false) as (-> & Hl & Hv).
      { unfold LoggingArray_As, is_logging, isVanilla. by rewrite Hlay. }
      cbn [fmap option_fmap option_map foldl sources sampledCount
           unsampledCount fst].
      rewrite filter_cons_True by (rewrite Hl; done).
      rewrite filter_cons_False by (rewrite Hv; simpl; done).
      cbn [length]. split; [done|]. split; [|done].
      unfold Int.incr64. rewrite IntFacts.wrap64_add_l. f_equal. lia.
Qed.

Lemma omap_length_le {A B} (f : A -> option B) (l : list A) :
  (length (omap f l) <= length l)%nat.
Proof.
  induction l as [|a l IH]; [done|]. cbn [omap list_omap].
  destruct (f a); simpl; lia.
Qed.

(** X8.  What a sink profile counts, for any mix of arrays: after fewer than
    2^64 calls of [update] on a new profile before export, each source has a
    counter equal to the number of LoggingArrays of that source that were
    passed (a source with none has no counter), sampledCount is the number
    of arrays that were LoggingArrays or sampled vanilla arrays, and
    unsampledCount the number of vanilla arrays that were not sampled.
    Arrays of any other bespoke layout are in none of the three. *)
Theorem update_counts_by_source (key : Z * SrcKey) (ads : list ArrayData)
  (s : SinkProfile) :
  update_seq false ads (SinkProfile_new key) = Some s ->
  Z.of_nat (length ads) < 2^64 ->
  (forall src,
     sources s !! src
     = match occurrences src
               (omap (fun ad => fst <$> LoggingArray_As ad) ads) with
       | O => None
       | S n => Some (Z.of_nat (S n))
       end)
  /\ sampledCount s
     = Z.of_nat (length (filter
         (fun ad => is_logging ad || isVanilla ad && isSampledArray ad = true)
         ads))
  /\ unsampledCount s
     = Z.of_nat (length (filter
         (fun ad => isVanilla ad && negb (isSampledArray ad) = true) ads)).
Proof.
  intros Hrun Hlen.
  destruct (update_seq_tallies key ads s Hrun)
    as (_ & _ & (_ & _ & _ & Ws & Wu) & _).
  destruct (update_seq_counts ads _ s Hrun) as (Hsrc & Hsam & Huns).
  simpl in Hsrc, Hsam, Huns. split; [|split].
  - intros src. rewrite Hsrc.
    rewrite (count_one_foldl _ [] ∅) by done. cbn [app].
    apply after_increments_small.
    assert (occurrences src (omap (fun ad => fst <$> LoggingArray_As ad) ads)
            <= length ads)%nat; [|lia].
    etrans; [apply length_filter|]. apply omap_length_le.
  - rewrite (IntFacts.wrap64_small _ Ws) in Hsam. rewrite Hsam.
    apply IntFacts.wrap64_small.
    pose proof (length_filter
      (fun ad => is_logging ad || isVanilla ad && isSampledArray ad = true)
      ads). lia.
  - rewrite (IntFacts.wrap64_small _ Wu) in Huns. rewrite Huns.
    apply IntFacts.wrap64_small.
    pose proof (length_filter
      (fun ad => isVanilla ad && negb (isSampledArray ad) = true) ads). lia.
Qed.

(** *** [reduce] *)

Lemma reduce_sources_lookup (other s : SinkProfile) (k : SrcKey) :
  sources (reduce other s) !! k
  = union_with (fun a b => Some (add64 a b)) (sources s !! k)
               (sources other !! k).
Proof.
  unfold reduce; cbn [sources]. revert k.
  apply (map_fold_weak_ind
           (fun r (m : gmap SrcKey Z) =>
              forall k, r !! k
                        = union_with (fun a b => Some (add64 a b))
                                     (sources s !! k) (m !! k))).
  - intros k. rewrite lookup_empty. by destruct (sources s !! k).
  - intros i x m r Hi IH k. destruct (decide (k = i)) as [->|Hne].
    + specialize (IH i). rewrite Hi in IH. rewrite lookup_insert_eq.
      destruct (r !! i) as [c0|] eqn:Hr; rewrite lookup_insert_eq;
        destruct (sources s !! i); simpl in *; by simplify_eq.
    + rewrite (lookup_insert_ne m) by done. rewrite <- IH.
      destruct (r !! i); by rewrite lookup_insert_ne.
Qed.

Lemma zip_with_add64_alter (l l' : list Z) i :
  zip_with add64 l (alter Int.incr64 i l')
  = alter Int.incr64 i (zip_with add64 l l').
Proof.
  revert l' i. induction l as [|a l IH]; intros [|b l'] [|i]; try done.
  - simpl. by rewrite add64_incr64.
  - simpl. f_equal. apply IH.
Qed.

Lemma zip_with_add64_zeros (l : list Z) N :
  Forall within64 l -> length l = Z.to_nat N ->
  zip_with add64 l (zeros N) = l.
Proof.
  unfold zeros. generalize (Z.to_nat N). intros n Hl. revert n.
  induction Hl as [|a l Ha Hl IH]; intros [|n] Hn; simplify_eq/=; [done|].
  rewrite add64_0_r by done. f_equal. by apply IH.
Qed.

Lemma update_vanilla_any ad s :
  layout ad = Vanilla -> 0 <= kind ad / 2 < kNumArrTypes ->
  update false ad s
  = Some {| sink := sink s;
            arrCounts :=
              alter Int.incr64 (Z.to_nat (kind ad / 2)) (arrCounts s);
            keyCounts := keyCounts s; valCounts := valCounts s;
            sampledCount :=
              if isSampledArray ad then Int.incr64 (sampledCount s)
              else sampledCount s;
            unsampledCount :=
              if isSampledArray ad then unsampledCount s
              else Int.incr64 (unsampledCount s);
            sources := sources s |}.
Proof.
  intros Hl Hk. unfold update, isVanilla. rewrite Hl. simpl.
  rewrite incr_slot_in_range by done. simpl. by destruct (isSampledArray ad).
Qed.

Lemma SinkProfile_eq (a b : SinkProfile) :
  sink a = sink b -> arrCounts a = arrCounts b -> keyCounts a = keyCounts b ->
  valCounts a = valCounts b -> sampledCount a = sampledCount b ->
  unsampledCount a = unsampledCount b -> sources a = sources b -> a = b.
Proof. destruct a, b; simpl; intros; by subst. Qed.

(** Counting an array in [other] and merging is merging and then counting
    the array. *)
Lemma reduce_update ad other other' s :
  update false ad other = Some other' ->
  update false ad (reduce other s) = Some (reduce other' s).
Proof.
  intros Hup.
  destruct (update_cases ad other other' Hup)
    as [[Hoth ->]|[(Hlay & Hkind & ->)
                  |(profile & et & Hlay & Hkind & Hkey & Hval & ->)]].
  - by apply update_other_bespoke.
  - rewrite update_vanilla_any by done. f_equal.
    apply SinkProfile_eq; cbn [reduce sink arrCounts keyCounts valCounts
                                sampledCount unsampledCount sources];
      try done.
    + unfold reduce; simpl. by rewrite zip_with_add64_alter.
    + unfold reduce; simpl.
      destruct (isSampledArray ad); [by rewrite add64_incr64|done].
    + unfold reduce; simpl.
      destruct (isSampledArray ad); [done|by rewrite add64_incr64].
  - rewrite (update_logging ad _ profile et) by done. f_equal.
    apply SinkProfile_eq; try done.
    + unfold reduce; simpl. by rewrite zip_with_add64_alter.
    + unfold reduce; simpl. by rewrite zip_with_add64_alter.
    + unfold reduce; simpl. by rewrite zip_with_add64_alter.
    + unfold reduce; simpl. by rewrite add64_incr64.
    + apply map_eq. intros k.
      match goal with
      | |- sources ?a !! _ = sources (reduce ?o _) !! _ =>
          change (sources a) with (count_one profile (sources (reduce other s)));
          rewrite (reduce_sources_lookup o s k)
      end.
      cbn [sources].
      destruct (decide (k = profile)) as [->|Hne].
      * rewrite !count_one_lookup, reduce_sources_lookup.
        destruct (sources s !! profile) as [a|],
                 (sources other !! profile) as [c|]; simpl; try done.
        -- by rewrite add64_incr64.
      * rewrite !count_one_lookup_ne by done.
        by rewrite reduce_sources_lookup.
Qed.

(** X9.  [reduce] merges two sink profiles as if one profile had seen the
    arrays of both: when a profile has counted the arrays [ads1] and another
    the arrays [ads2], reducing the second into the first gives exactly the
    profile that counts [ads1] followed by [ads2] - every histogram slot,
    both sample counts and every per-source count, all on 64 bits - and it
    keeps the sink of the first. *)
Theorem reduce_merges_updates (key1 key2 : Z * SrcKey)
  (ads1 ads2 : list ArrayData) (s1 s2 : SinkProfile) :
  update_seq false ads1 (SinkProfile_new key1) = Some s1 ->
  update_seq false ads2 (SinkProfile_new key2) = Some s2 ->
  update_seq false (ads1 ++ ads2) (SinkProfile_new key1)
  = Some (reduce s2 s1).
Proof.
  intros Hrun1. revert s2.
  induction ads2 as [|ad ads2 IH] using rev_ind; intros s2 Hrun2.
  - simpl in Hrun2. injection Hrun2 as <-. rewrite app_nil_r, Hrun1.
    f_equal.
    destruct (update_seq_tallies key1 ads1 s1 Hrun1)
      as (_ & (La & Lk & Lv) & (Wa & Wk & Wv & Ws & Wu) & _).
    apply SinkProfile_eq; unfold reduce, SinkProfile_new; simpl.
    + done.
    + symmetry. by apply zip_with_add64_zeros.
    + symmetry. by apply zip_with_add64_zeros.
    + symmetry. by apply zip_with_add64_zeros.
    + symmetry. by apply add64_0_r.
    + symmetry. by apply add64_0_r.
    + by rewrite map_fold_empty.
  - rewrite update_seq_app in Hrun2.
    destruct (update_seq false ads2 (SinkProfile_new key2)) as [o|] eqn:Ho;
      [|done].
    cbn [mbind option_bind update_seq] in Hrun2.
    destruct (update false ad o) as [o'|] eqn:Hup; [|done].
    cbn [mbind option_bind] in Hrun2. injection Hrun2 as <-.
    rewrite app_assoc, update_seq_app, (IH o eq_refl).
    cbn [mbind option_bind update_seq].
    by rewrite (reduce_update ad o o' s1 Hup).
Qed.

End SinkTallies.

(** ** Export: the operations of a source profile *)

Section SourceReport.
Context `{RT : Runtime}.

Lemma sumZ_app (l1 l2 : list Z) :
  foldr Z.add 0 (l1 ++ l2) = foldr Z.add 0 l1 + foldr Z.add 0 l2.
Proof. induction l1 as [|a l1 IH]; simpl; lia. Qed.

Lemma sumZ_perm (l1 l2 : list Z) :
  l1 ≡ₚ l2 -> foldr Z.add 0 l1 = foldr Z.add 0 l2.
Proof. induction 1; simpl; lia. Qed.

Lemma sumZ_filter {A} (f : A -> Z) (P : A -> Prop) `{forall x, Decision (P x)}
  (l : list A) :
  foldr Z.add 0 (f <$> filter P l)
  + foldr Z.add 0 (f <$> filter (fun x => ~ P x) l)
  = foldr Z.add 0 (f <$> l).
Proof.
  induction l as [|a l IH]; [done|].
  destruct (decide (P a)) as [Ha|Ha].
  - rewrite (filter_cons_True P) by done.
    rewrite (filter_cons_False (fun x => ~ P x)) by tauto.
    rewrite !fmap_cons. cbn [foldr]. lia.
  - rewrite (filter_cons_False P) by done.
    rewrite (filter_cons_True (fun x => ~ P x)) by done.
    rewrite !fmap_cons. cbn [foldr]. lia.
Qed.

Lemma sum_counts_list `{Countable K} (m : gmap K Z) :
  sum_counts m = foldr Z.add 0 (snd <$> map_to_list m).
Proof.
  unfold sum_counts. rewrite map_fold_foldr.
  induction (map_to_list m) as [|[k c] l IH]; [done|].
  rewrite fmap_cons. cbn [foldr uncurry snd]. rewrite IH. lia.
Qed.

Lemma add_count_sum `{Countable K} (k : K) (c : Z) (m : gmap K Z) :
  Int.wrap64 (sum_counts (add_count k c m)) = Int.wrap64 (sum_counts m + c).
Proof.
  unfold add_count. destruct (m !! k) as [c0|] eqn:Hk; simpl.
  - rewrite (sum_counts_insert_Some m k c0) by done.
    rewrite IntFacts.wrap64_add_r. f_equal. lia.
  - rewrite sum_counts_insert_None by done.
    rewrite IntFacts.wrap64_add_r. f_equal.
Qed.

Lemma add_count_within `{Countable K} (k : K) (c : Z) (m : gmap K Z) :
  map_Forall (fun _ v => within64 v) m ->
  map_Forall (fun _ v => within64 v) (add_count k c m).
Proof.
  intros Hm. unfold add_count. apply map_Forall_insert_2; [|done].
  apply IntFacts.wrap64_range.
Qed.

(** The two maps that the first loop of [sortSourceData] builds. *)
Lemma aggregate_fold (l : list (SrcKey * Z * Z)) : forall acc,
  let r :=
    foldl (fun (acc : gmap Z Z * gmap SrcKey Z) eventRecord =>
             (add_count eventRecord.1.2 eventRecord.2 acc.1,
              add_count eventRecord.1.1 eventRecord.2 acc.2)) acc l in
  map_Forall (fun _ v => within64 v) acc.1 ->
  Int.wrap64 (sum_counts r.1)
  = Int.wrap64 (sum_counts acc.1 + foldr Z.add 0 (snd <$> l))
  /\ map_Forall (fun _ v => within64 v) r.1
  /\ dom r.2 = dom acc.2 ∪ list_to_set ((fun e => e.1.1) <$> l).
Proof.
  induction l as [|e l IH]; intros acc r Hacc; subst r.
  - simpl. rewrite Z.add_0_r. split; [done|]. split; [done|].
    by rewrite (right_id_L ∅ (∪)).
  - cbn [foldl]. cbv zeta in IH.
    match goal with
    | |- context [foldl ?f ?a l] =>
        destruct (IH a) as (Hsum & Hwithin & Hdom)
    end.
    { cbn [fst]. by apply add_count_within. }
    rewrite Hsum, Hdom. split; [|split; [done|]].
    + cbn [fst]. rewrite fmap_cons. cbn [foldr].
      rewrite <- IntFacts.wrap64_add_l, add_count_sum.
      rewrite IntFacts.wrap64_add_l. f_equal. lia.
    + cbn [snd]. unfold add_count at 1. rewrite dom_insert_L.
      rewrite fmap_cons. cbn [list_to_set].
      rewrite (comm_L (∪) {[e.1.1]} (dom acc.2)).
      by rewrite (assoc_L (∪)).
Qed.

(** *** The grouping loop *)

Lemma map_to_list_insert_split {A} (g : gmap Z A) k (o : A) :
  exists rest,
    map_to_list (<[k := o]> g) ≡ₚ (k, o) :: rest
    /\ map_to_list g
       ≡ₚ match g !! k with Some cur => [(k, cur)] | None => [] end ++ rest.
Proof.
  exists (map_to_list (delete k g)). split.
  - rewrite <- insert_delete_eq. apply map_to_list_insert, lookup_delete_eq.
  - destruct (g !! k) as [cur|] eqn:Hk.
    + rewrite <- (insert_delete_id g k cur Hk) at 1.
      apply map_to_list_insert, lookup_delete_eq.
    + by rewrite delete_id.
Qed.

Lemma concat_fmap_perm {A B} (f : A -> list B) (l1 l2 : list A) :
  l1 ≡ₚ l2 -> concat (f <$> l1) ≡ₚ concat (f <$> l2).
Proof.
  induction 1 as [|x l1 l2 _ IH|x y l|l1 l2 l3 _ IH1 _ IH2].
  - done.
  - rewrite !fmap_cons. cbn [concat]. by rewrite IH.
  - rewrite !fmap_cons. cbn [concat]. rewrite !(assoc_L (++)).
    f_equiv. apply Permutation_app_comm.
  - by etrans.
Qed.

(** The record that the grouping loop appends for one entry of
    [eventCounts]. *)
Lemma registerEvent_grouped event count cur k :
  within64 count ->
  ArrayOp_raw (getOp event) = k ->
  ArrayOp_raw (operation cur) = k ->
  totalCount cur = Int.wrap64 (foldr Z.add 0 (ev_count <$> op_events cur)) ->
  Forall (fun e => within64 (ev_count e)
                   /\ ArrayOp_raw (getOp (ev_event e)) = k) (op_events cur) ->
  let o := registerEvent event count cur in
  ArrayOp_raw (operation o) = k
  /\ op_events o <> []
  /\ totalCount o = Int.wrap64 (foldr Z.add 0 (ev_count <$> op_events o))
  /\ Forall (fun e => within64 (ev_count e)
                      /\ ArrayOp_raw (getOp (ev_event e)) = k) (op_events o).
Proof.
  intros Hc Hev Hop Htot Hall o. subst o. unfold registerEvent; simpl.
  split; [done|]. split; [by destruct (op_events cur)|]. split.
  - rewrite fmap_app, sumZ_app. simpl. rewrite Htot.
    rewrite IntFacts.wrap64_add_l. f_equal. lia.
  - apply Forall_app. split; [done|]. by apply Forall_singleton.
Qed.

(** One iteration of the grouping loop. *)
Lemma group_step (g : gmap Z OperationOutputData) (code count : Z) :
  grouped g -> within64 count ->
  let event := EventKey_of_uint64 code in
  let k := ArrayOp_raw (getOp event) in
  let cur := default (OperationOutputData_new (getOp event)) (g !! k) in
  let g' := <[k := registerEvent event count cur]> g in
  grouped g'
  /\ Int.wrap64 (foldr Z.add 0 ((fun x => totalCount x.2) <$> map_to_list g'))
     = Int.wrap64 (foldr Z.add 0 ((fun x => totalCount x.2) <$> map_to_list g)
                   + count)
  /\ concat ((fun x => op_events x.2) <$> map_to_list g')
     ≡ₚ concat ((fun x => op_events x.2) <$> map_to_list g)
        ++ [{| ev_event := event; ev_count := count |}].
Proof.
  intros Hg Hc event k cur g'.
  assert (ArrayOp_raw (operation cur) = k
          /\ totalCount cur
             = Int.wrap64 (foldr Z.add 0 (ev_count <$> op_events cur))
          /\ Forall (fun e => within64 (ev_count e)
                              /\ ArrayOp_raw (getOp (ev_event e)) = k)
                    (op_events cur)) as (Hcur1 & Hcur2 & Hcur3).
  { subst cur. destruct (g !! k) as [c|] eqn:Hk; simpl.
    - by destruct (Hg k c Hk) as (? & _ & ? & ?).
    - done. }
  pose proof (registerEvent_grouped event count cur k Hc eq_refl Hcur1 Hcur2
                Hcur3) as Ho.
  cbv zeta in Ho.
  assert (totalCount (registerEvent event count cur)
          = Int.wrap64 (totalCount cur + count)) as Htc by done.
  assert (op_events (registerEvent event count cur)
          = op_events cur ++ [{| ev_event := event; ev_count := count |}])
    as Hevs by done.
  assert (g !! k = None -> totalCount cur = 0 /\ op_events cur = [])
    as Hnew.
  { intros Hk. subst cur. by rewrite Hk. }
  assert (forall c, g !! k = Some c -> cur = c) as Hold.
  { intros c Hk. subst cur. by rewrite Hk. }
  clearbody cur. subst g'.
  set (o := registerEvent event count cur) in *. clearbody o.
  split; [|].
  { intros k0 o0 Hk0. destruct (decide (k0 = k)) as [->|Hne].
    - rewrite lookup_insert_eq in Hk0. by injection Hk0 as <-.
    - rewrite lookup_insert_ne in Hk0 by done. by apply Hg. }
  destruct (map_to_list_insert_split g k o) as (rest & Hins & Hsplit).
  rewrite (sumZ_perm _ _ (fmap_Permutation (fun x => totalCount x.2) _ _ Hins)).
  rewrite (sumZ_perm _ _ (fmap_Permutation (fun x => totalCount x.2) _ _ Hsplit)).
  rewrite (concat_fmap_perm (fun x => op_events x.2) _ _ Hins).
  rewrite (concat_fmap_perm (fun x => op_events x.2) _ _ Hsplit).
  rewrite !fmap_cons, !fmap_app, !sumZ_app. cbn [foldr concat snd fst].
  rewrite Htc, Hevs.
  destruct (g !! k) as [c|] eqn:Hk.
  - rewrite (Hold c eq_refl). simpl. split.
    + rewrite IntFacts.wrap64_add_l. f_equal. lia.
    + rewrite <- !(assoc_L (++)). f_equiv.
      apply Permutation_app_comm.
  - destruct (Hnew eq_refl) as [-> ->]. simpl. split.
    + rewrite IntFacts.wrap64_add_l. f_equal. lia.
    + by rewrite Permutation_app_comm.
Qed.

Lemma group_fold (l : list (Z * Z)) : forall g,
  let g' :=
    foldl (fun g eventAndCount =>
             let event := EventKey_of_uint64 eventAndCount.1 in
             let count := eventAndCount.2 in
             let op := getOp event in
             let cur := default (OperationOutputData_new op)
                                (g !! ArrayOp_raw op) in
             <[ArrayOp_raw op := registerEvent event count cur]> g) g l in
  grouped g -> Forall (fun ec => within64 ec.2) l ->
  grouped g'
  /\ Int.wrap64 (foldr Z.add 0 ((fun x => totalCount x.2) <$> map_to_list g'))
     = Int.wrap64 (foldr Z.add 0 ((fun x => totalCount x.2) <$> map_to_list g)
                   + foldr Z.add 0 (snd <$> l))
  /\ concat ((fun x => op_events x.2) <$> map_to_list g')
     ≡ₚ concat ((fun x => op_events x.2) <$> map_to_list g)
        ++ ((fun ec => {| ev_event := EventKey_of_uint64 ec.1;
                          ev_count := ec.2 |}) <$> l).
Proof.
  induction l as [|[code count] l IH]; intros g g' Hg Hl; subst g'.
  - simpl. by rewrite Z.add_0_r, app_nil_r.
  - cbn [foldl]. cbv zeta in IH.
    apply Forall_cons in Hl as [Hc Hl]. simpl in Hc.
    destruct (group_step g code count Hg Hc) as (Hg1 & Hsum1 & Hev1).
    match goal with
    | |- context [foldl ?f ?a l] =>
        destruct (IH a) as (Hg' & Hsum & Hev); [exact Hg1|exact Hl|]
    end.
    split; [exact Hg'|]. rewrite Hsum, Hev. clear Hsum Hev.
    rewrite !fmap_cons. cbn [foldr fst snd]. split.
    + rewrite <- IntFacts.wrap64_add_l.
      cbn [fst snd] in Hsum1. rewrite Hsum1.
      rewrite IntFacts.wrap64_add_l. f_equal. lia.
    + cbn [fst snd] in Hev1. rewrite Hev1.
      by rewrite <- (assoc_L (++)).
Qed.

(** *** The report of one source profile *)

Lemma sum_totalCount_wrap (ops : list OperationOutputData) :
  sum_totalCount ops = Int.wrap64 (foldr Z.add 0 (totalCount <$> ops)).
Proof.
  unfold sum_totalCount.
  enough (forall a,
            foldl (fun acc o => Int.wrap64 (acc + totalCount o))
                  (Int.wrap64 a) ops
            = Int.wrap64 (a + foldr Z.add 0 (totalCount <$> ops))) as Hgen
    by apply (Hgen 0).
  induction ops as [|o ops IH]; intros a.
  - simpl. by rewrite Z.add_0_r.
  - cbn [foldl]. rewrite IntFacts.wrap64_add_l, IH. rewrite fmap_cons.
    cbn [foldr]. f_equal. lia.
Qed.

(** The operations of the report before they are split into reads and
    writes, and the fields of the report in terms of them. *)
Lemma sortSourceData_fields (p : LoggingProfile) :
  let g := group_by_operation (aggregate_events p).1 in
  let operations :=
    std_sort (fun a b => totalCount b <? totalCount a)
             (snd <$> in_key_order (sortEvents <$> g)) in
  let out := sortSourceData p in
  readOperations out
  = filter (fun o => arrayOpIsRead (operation o) = true) operations
  /\ writeOperations out
     = filter (fun o => arrayOpIsRead (operation o) = false) operations
  /\ readCount out = sum_totalCount (readOperations out)
  /\ writeCount out = sum_totalCount (writeOperations out)
  /\ numDistinctSinks out = Z.of_nat (size (aggregate_events p).2).
Proof.
  intros g operations out. subst g operations out. unfold sortSourceData.
  destruct (aggregate_events p) as [eventCounts sinkCounts].
  destruct (monotype_operations p) as [escalations usesMap].
  done.
Qed.

Lemma aggregate_events_facts (p : LoggingProfile) :
  Int.wrap64 (sum_counts (aggregate_events p).1) = getTotalEvents p
  /\ map_Forall (fun _ v => within64 v) (aggregate_events p).1
  /\ dom (aggregate_events p).2
     = list_to_set ((fun e => e.1.1) <$> map_to_list (events p)).
Proof.
  unfold aggregate_events.
  destruct (aggregate_fold (map_to_list (events p)) (∅, ∅))
    as (Hsum & Hwithin & Hdom).
  { cbn [fst]. apply map_Forall_empty. }
  cbv zeta in Hsum, Hwithin, Hdom. cbn [fst snd] in Hsum, Hdom.
  split; [|split; [done|]].
  - rewrite Hsum, (sum_counts_empty (K:=Z)), Z.add_0_l.
    by rewrite getTotalEvents_wrap, sum_counts_list.
  - rewrite Hdom, dom_empty_L. by rewrite (left_id_L ∅ (∪)).
Qed.

Lemma group_by_operation_facts (eventCounts : gmap Z Z) :
  map_Forall (fun _ v => within64 v) eventCounts ->
  let g := group_by_operation eventCounts in
  grouped g
  /\ Int.wrap64 (foldr Z.add 0 ((fun x => totalCount x.2) <$> map_to_list g))
     = Int.wrap64 (sum_counts eventCounts)
  /\ concat ((fun x => op_events x.2) <$> map_to_list g)
     ≡ₚ (fun ec => {| ev_event := EventKey_of_uint64 ec.1;
                      ev_count := ec.2 |}) <$> map_to_list eventCounts.
Proof.
  intros Hwithin g. subst g. unfold group_by_operation.
  destruct (group_fold (in_key_order eventCounts) ∅) as (Hg & Hsum & Hev).
  { intros k o Hk. by rewrite lookup_empty in Hk. }
  { apply Forall_forall. intros [code count] Hin.
    rewrite in_key_order_Permutation in Hin.
    apply elem_of_map_to_list in Hin. by apply (Hwithin code count). }
  cbv zeta in Hg, Hsum, Hev.
  split; [exact Hg|]. split.
  - rewrite Hsum, map_to_list_empty. simpl foldr at 1. rewrite Z.add_0_l.
    rewrite sum_counts_list. f_equal. apply sumZ_perm.
    by rewrite in_key_order_Permutation.
  - rewrite Hev, map_to_list_empty. simpl.
    by rewrite in_key_order_Permutation.
Qed.

Lemma operations_Permutation (g : gmap Z OperationOutputData) :
  std_sort (fun a b => totalCount b <? totalCount a)
           (snd <$> in_key_order (sortEvents <$> g))
  ≡ₚ (fun x => sortEvents x.2) <$> map_to_list g.
Proof.
  rewrite std_sort_Permutation, in_key_order_Permutation, map_to_list_fmap.
  rewrite <- list_fmap_compose.
  match goal with
  | |- ?a ≡ₚ ?b => assert (a = b) as Heq; [|by rewrite Heq]
  end.
  apply list_fmap_ext. by intros i [k o].
Qed.

Lemma read_write_Permutation (p : LoggingProfile) :
  let out := sortSourceData p in
  readOperations out ++ writeOperations out
  ≡ₚ (fun x => sortEvents x.2)
       <$> map_to_list (group_by_operation (aggregate_events p).1).
Proof.
  intros out. subst out.
  destruct (sortSourceData_fields p) as (Hr & Hw & _).
  cbv zeta in Hr, Hw. rewrite Hr, Hw.
  rewrite <- operations_Permutation.
  match goal with
  | |- filter ?P ?l ++ _ ≡ₚ _ =>
      rewrite <- (filter_app_complement P l) at 3
  end.
  f_equiv.
  match goal with
  | |- ?a ≡ₚ ?b => assert (a = b) as Heq; [|by rewrite Heq]
  end.
  apply list_filter_iff.
  intros o. by destruct (arrayOpIsRead (operation o)).
Qed.

(** X10.  The report of a source profile accounts for every event: the
    read count and the write count are the 64-bit sums of the totals of the
    read and of the write operations, together they make up
    [getTotalEvents] modulo 2^64, and the number of distinct sinks is the
    number of different sinks among the keys of the events map (the empty
    sink of events without a position counts as one). *)
Theorem sortSourceData_counts_every_event (p : LoggingProfile) :
  let out := sortSourceData p in
  Int.wrap64 (readCount out + writeCount out) = getTotalEvents p
  /\ readCount out
     = Int.wrap64 (foldr Z.add 0 (totalCount <$> readOperations out))
  /\ writeCount out
     = Int.wrap64 (foldr Z.add 0 (totalCount <$> writeOperations out))
  /\ numDistinctSinks out
     = Z.of_nat (size (set_map (D:=gset SrcKey) fst (dom (events p)))).
Proof.
  intros out.
  destruct (sortSourceData_fields p) as (_ & _ & Hr & Hw & Hn).
  cbv zeta in Hr, Hw, Hn. subst out.
  destruct (aggregate_events_facts p) as (Hsum & Hwithin & Hdom).
  destruct (group_by_operation_facts _ Hwithin) as (Hg & Htot & _).
  cbv zeta in Hg, Htot.
  rewrite Hr, Hw, !sum_totalCount_wrap. split; [|split; [done|split; [done|]]].
  - rewrite IntFacts.wrap64_add_l, IntFacts.wrap64_add_r.
    rewrite <- sumZ_app, <- fmap_app.
    rewrite (sumZ_perm _ _ (fmap_Permutation totalCount _ _
                              (read_write_Permutation p))).
    rewrite <- list_fmap_compose. rewrite <- Hsum, <- Htot. done.
  - rewrite Hn. f_equal. rewrite <- size_dom, Hdom. f_equal.
    apply set_eq. intros sk.
    rewrite elem_of_list_to_set, elem_of_map, list_elem_of_fmap. split.
    + intros ([[snk code] c] & -> & Hin). exists (snk, code).
      split; [done|]. apply elem_of_dom.
      apply elem_of_map_to_list in Hin. by eexists.
    + intros ([snk code] & -> & Hin). apply elem_of_dom in Hin as [c Hc].
      exists (snk, code, c). split; [done|]. by apply elem_of_map_to_list.
Qed.

(** *** Order *)

Lemma StronglySorted_mono {A} (R R' : A -> A -> Prop) (l : list A) :
  (forall a b, R a b -> R' a b) -> StronglySorted R l -> StronglySorted R' l.
Proof.
  intros HR. induction 1 as [|a l Hl IH Ha]; constructor; [done|].
  eapply Forall_impl; [exact Ha|]. intros b. apply HR.
Qed.

Lemma StronglySorted_filter {A} (R : A -> A -> Prop) (P : A -> Prop)
  `{forall x, Decision (P x)} (l : list A) :
  StronglySorted R l -> StronglySorted R (filter P l).
Proof.
  induction 1 as [|a l Hl IH Ha]; [constructor|].
  destruct (decide (P a)).
  - rewrite filter_cons_True by done. constructor; [done|].
    apply Forall_forall. intros b Hb.
    apply list_elem_of_filter in Hb as [_ Hb].
    by apply (proj1 (Forall_forall _ _) Ha).
  - by rewrite filter_cons_False.
Qed.

(** [std::sort] on records whose [operator<] is "has the greater count":
    counts never increase along the result. *)
Lemma std_sort_descending {A} (f : A -> Z) (l : list A) :
  StronglySorted (fun a b => f b <= f a) (std_sort (fun a b => f b <? f a) l).
Proof.
  unfold std_sort.
  apply (StronglySorted_mono (fun a b => Is_true (negb (f a <? f b)))).
  - intros a b Hab. apply Is_true_true, negb_true_iff, Z.ltb_ge in Hab. lia.
  - apply StronglySorted_merge_sort.
    + intros a b c Hab Hbc.
      apply Is_true_true, negb_true_iff, Z.ltb_ge in Hab.
      apply Is_true_true, negb_true_iff, Z.ltb_ge in Hbc.
      apply Is_true_true, negb_true_iff, Z.ltb_ge. lia.
    + intros a b. destruct (decide (f b <= f a)) as [Hle|Hgt].
      * left. apply Is_true_true, negb_true_iff, Z.ltb_ge. lia.
      * right. apply Is_true_true, negb_true_iff, Z.ltb_ge. lia.
Qed.

Lemma op_events_sortEvents (o : OperationOutputData) :
  op_events (sortEvents o) ≡ₚ op_events o
  /\ StronglySorted (fun a b => ev_count b <= ev_count a)
                    (op_events (sortEvents o))
  /\ operation (sortEvents o) = operation o
  /\ totalCount (sortEvents o) = totalCount o.
Proof.
  unfold sortEvents; simpl. split; [apply std_sort_Permutation|].
  split; [apply (std_sort_descending ev_count)|done].
Qed.

(** Every operation of the report is the sorted form of one entry of
    [opsGrouped]. *)
Lemma report_operation_inv (p : LoggingProfile) (o : OperationOutputData) :
  let out := sortSourceData p in
  o ∈ readOperations out ++ writeOperations out ->
  exists k o0,
    group_by_operation (aggregate_events p).1 !! k = Some o0
    /\ o = sortEvents o0.
Proof.
  intros out Hin. subst out. rewrite read_write_Permutation in Hin.
  apply list_elem_of_fmap in Hin as ([k o0] & -> & Hin).
  apply elem_of_map_to_list in Hin. by exists k, o0.
Qed.

(** X11.  The operations of a source report are split by [arrayOpIsRead]
    into the read and the write list, each list is in descending order of
    total count, the events of every operation are in descending order of
    count, and no operation appears twice. *)
Theorem sortSourceData_operations_ordered (p : LoggingProfile) :
  let out := sortSourceData p in
  Forall (fun o => arrayOpIsRead (operation o) = true) (readOperations out)
  /\ Forall (fun o => arrayOpIsRead (operation o) = false)
            (writeOperations out)
  /\ StronglySorted (fun a b => totalCount b <= totalCount a)
                    (readOperations out)
  /\ StronglySorted (fun a b => totalCount b <= totalCount a)
                    (writeOperations out)
  /\ Forall (fun o => StronglySorted (fun a b => ev_count b <= ev_count a)
                                     (op_events o))
            (readOperations out ++ writeOperations out)
  /\ NoDup ((fun o => ArrayOp_raw (operation o))
              <$> (readOperations out ++ writeOperations out)).
Proof.
  intros out.
  destruct (sortSourceData_fields p) as (Hr & Hw & _).
  cbv zeta in Hr, Hw.
  destruct (aggregate_events_facts p) as (_ & Hwithin & _).
  destruct (group_by_operation_facts _ Hwithin) as (Hg & _ & _).
  cbv zeta in Hg.
  split; [|split; [|split; [|split; [|split]]]].
  - subst out. rewrite Hr. apply Forall_forall. intros o Ho.
    by apply list_elem_of_filter in Ho as [Ho _].
  - subst out. rewrite Hw. apply Forall_forall. intros o Ho.
    by apply list_elem_of_filter in Ho as [Ho _].
  - subst out. rewrite Hr. apply StronglySorted_filter.
    apply (std_sort_descending totalCount).
  - subst out. rewrite Hw. apply StronglySorted_filter.
    apply (std_sort_descending totalCount).
  - apply Forall_forall. intros o Ho.
    destruct (report_operation_inv p o Ho) as (k & o0 & _ & ->).
    apply op_events_sortEvents.
  - subst out. rewrite read_write_Permutation.
    rewrite <- list_fmap_compose.
    assert (((fun o => ArrayOp_raw (operation o))
               ∘ (fun x : Z * OperationOutputData => sortEvents x.2))
              <$> map_to_list (group_by_operation (aggregate_events p).1)
            = (map_to_list (group_by_operation (aggregate_events p).1)).*1)
      as ->; [|apply NoDup_fst_map_to_list].
    apply list_fmap_ext. intros i [k o0] Hi. simpl.
    apply list_elem_of_lookup_2, elem_of_map_to_list in Hi.
    by destruct (Hg k o0 Hi) as (? & _).
Qed.

(** The count that the first loop of [sortSourceData] holds for an event
    key: the 64-bit sum of the counts of that key over all sinks. *)
Lemma aggregate_fold_lookup (l : list (SrcKey * Z * Z)) : forall acc code,
  (foldl (fun (acc : gmap Z Z * gmap SrcKey Z) eventRecord =>
            (add_count eventRecord.1.2 eventRecord.2 acc.1,
             add_count eventRecord.1.1 eventRecord.2 acc.2)) acc l).1 !! code
  = match snd <$> filter (fun e => e.1.2 = code) l with
    | [] => acc.1 !! code
    | cs => Some (Int.wrap64 (default 0 (acc.1 !! code) + foldr Z.add 0 cs))
    end.
Proof.
  induction l as [|e l IH]; intros acc code; [done|].
  cbn [foldl]. rewrite IH. cbn [fst].
  destruct (decide (e.1.2 = code)) as [Heq|Hne].
  - rewrite filter_cons_True by done. rewrite fmap_cons.
    assert (add_count e.1.2 e.2 acc.1 !! code
            = Some (Int.wrap64 (default 0 (acc.1 !! code) + e.2))) as ->.
    { unfold add_count. rewrite Heq. apply lookup_insert_eq. }
    destruct (snd <$> filter (fun e0 => e0.1.2 = code) l) as [|c cs]; simpl.
    + repeat f_equal; lia.
    + f_equal. rewrite IntFacts.wrap64_add_l. f_equal. lia.
  - rewrite filter_cons_False by done.
    assert (add_count e.1.2 e.2 acc.1 !! code = acc.1 !! code) as ->; [|done].
    unfold add_count. by apply lookup_insert_ne.
Qed.

(** X12.  In the report of a source profile every operation has at least
    one event, its total is the 64-bit sum of the counts of its events (so
    the assertion that [exportOperationSet] makes of an operation with a
    single event holds), and its events all have the enumerator value of the
    operation.  Taken over all operations, the events are, up to order, the
    distinct packed event keys of the profile, unpacked, and the count of
    each is the 64-bit sum of its counters over all sinks. *)
Theorem sortSourceData_operation_totals (p : LoggingProfile) :
  let out := sortSourceData p in
  let ops := readOperations out ++ writeOperations out in
  let eventCounts := (aggregate_events p).1 in
  Forall (fun o =>
            op_events o <> []
            /\ totalCount o
               = Int.wrap64 (foldr Z.add 0 (ev_count <$> op_events o))
            /\ (forall e, op_events o = [e] -> totalCount o = ev_count e)
            /\ Forall (fun e => within64 (ev_count e)
                                /\ ArrayOp_raw (getOp (ev_event e))
                                   = ArrayOp_raw (operation o))
                      (op_events o)) ops
  /\ concat (op_events <$> ops)
     ≡ₚ (fun ec => {| ev_event := EventKey_of_uint64 ec.1;
                      ev_count := ec.2 |}) <$> map_to_list eventCounts
  /\ (forall code,
        eventCounts !! code
        = match snd <$> filter (fun e => e.1.2 = code)
                               (map_to_list (events p)) with
          | [] => None
          | cs => Some (Int.wrap64 (foldr Z.add 0 cs))
          end).
Proof.
  intros out ops eventCounts.
  destruct (aggregate_events_facts p) as (_ & Hwithin & _).
  destruct (group_by_operation_facts _ Hwithin) as (Hg & _ & Hev).
  cbv zeta in Hg, Hev.
  split; [|split].
  - apply Forall_forall. intros o Ho.
    destruct (report_operation_inv p o Ho) as (k & o0 & Hk & ->).
    destruct (Hg k o0 Hk) as (Hop & Hne & Htot & Hall).
    destruct (op_events_sortEvents o0) as (Hperm & _ & Hsame & Htc).
    assert (op_events (sortEvents o0) <> []) as Hne'.
    { intros Hnil. rewrite Hnil in Hperm.
      by apply Permutation_nil_l in Hperm. }
    assert (totalCount (sortEvents o0)
            = Int.wrap64 (foldr Z.add 0
                            (ev_count <$> op_events (sortEvents o0))))
      as Htot'.
    { rewrite Htc, Htot. f_equal. apply sumZ_perm. by rewrite Hperm. }
    assert (Forall (fun e => within64 (ev_count e)
                             /\ ArrayOp_raw (getOp (ev_event e))
                                = ArrayOp_raw (operation (sortEvents o0)))
                   (op_events (sortEvents o0))) as Hall'.
    { rewrite Hperm, Hsame, Hop. exact Hall. }
    split; [done|]. split; [done|]. split; [|done].
    intros e He. rewrite Htot', He. simpl. rewrite Z.add_0_r.
    apply IntFacts.wrap64_small.
    rewrite He in Hall'. apply Forall_singleton in Hall' as [Hw _].
    exact Hw.
  - subst ops out eventCounts. rewrite <- Hev.
    rewrite (concat_fmap_perm op_events _ _ (read_write_Permutation p)).
    rewrite <- list_fmap_compose. clear Hev Hg.
    induction (map_to_list (group_by_operation (aggregate_events p).1))
      as [|[k o0] l IH]; [done|].
    rewrite !fmap_cons. cbn [concat]. rewrite IH.
    apply Permutation_app_tail.
    apply (proj1 (op_events_sortEvents o0)).
  - intros code. subst eventCounts. unfold aggregate_events.
    rewrite aggregate_fold_lookup. cbn [fst]. rewrite lookup_empty. simpl.
    by destruct (snd <$> filter _ _).
Qed.

(** *** The list of source reports *)

Lemma SFcompare_Lt_Gt (x y : spec_float) :
  SFcompare x y = Some Lt -> SFcompare y x = Some Gt.
Proof.
  destruct x as [sx|sx| |sx mx ex], y as [sy|sy| |sy my ey]; simpl;
    try done; try (by destruct sx); try (by destruct sy);
    try (by destruct sx, sy).
  destruct sx, sy; try done.
  - rewrite (Z.compare_antisym ex ey).
    destruct (ex ?= ey)%Z eqn:He; simpl; try done.
    pose proof (Pos.compare_cont_antisym mx my Eq) as Hanti. simpl in Hanti.
    rewrite <- Hanti.
    destruct (Pos.compare_cont Eq mx my); simpl; by try done.
  - rewrite (Z.compare_antisym ex ey).
    destruct (ex ?= ey)%Z eqn:He; simpl; try done.
    pose proof (Pos.compare_cont_antisym mx my Eq) as Hanti. simpl in Hanti.
    rewrite <- Hanti.
    destruct (Pos.compare_cont Eq mx my); simpl; by try done.
Qed.

Lemma double_gt_asym (a b : double) :
  double_gt a b = true -> double_gt b a = false.
Proof.
  unfold double_gt, SFltb. destruct (SFcompare b a) as [[]|] eqn:Hc; try done.
  intros _. by rewrite (SFcompare_Lt_Gt b a Hc).
Qed.

Lemma out_profile_sortSourceData (p : LoggingProfile) :
  out_profile (sortSourceData p) = p
  /\ weight (sortSourceData p) = getProfileWeight p.
Proof.
  unfold sortSourceData.
  destruct (aggregate_events p) as [eventCounts sinkCounts].
  by destruct (monotype_operations p) as [escalations usesMap].
Qed.

(** X13.  [sortProfileData] reports every source profile of the table once
    and nothing else; each report carries the weight of its profile; and in
    the list no report is directly followed by one of greater weight. *)
Theorem sortProfileData_reports_each_profile (st : State) :
  out_profile <$> sortProfileData st ≡ₚ snd <$> map_to_list (s_profileMap st)
  /\ Forall (fun d => weight d = getProfileWeight (out_profile d))
            (sortProfileData st)
  /\ Sorted (fun a b => double_gt (weight b) (weight a) = false)
            (sortProfileData st).
Proof.
  unfold sortProfileData. split; [|split].
  - rewrite std_sort_Permutation, <- list_fmap_compose.
    match goal with
    | |- ?a ≡ₚ ?b => assert (a = b) as Heq; [|by rewrite Heq]
    end.
    rewrite <- (list_fmap_id (snd <$> map_to_list (s_profileMap st))) at 2.
    apply list_fmap_ext. intros i p _. simpl.
    apply out_profile_sortSourceData.
  - apply Forall_forall. intros d Hd. rewrite std_sort_Permutation in Hd.
    apply list_elem_of_fmap in Hd as (p & -> & _).
    destruct (out_profile_sortSourceData p) as [-> ->]. done.
  - unfold std_sort.
    match goal with
    | |- Sorted _ (merge_sort ?R ?l) =>
        assert (Sorted R (merge_sort R l)) as Hs
    end.
    { apply Sorted_merge_sort. intros a b.
      destruct (double_gt (weight b) (weight a)) eqn:Hba.
      - right. by rewrite (double_gt_asym _ _ Hba).
      - by left. }
    revert Hs. generalize (merge_sort
      (fun a b : SourceOutputData =>
         Is_true (negb (double_gt (weight b) (weight a))))
      (sortSourceData <$> (snd <$> map_to_list (s_profileMap st)))).
    intros l. induction 1 as [|a l Hl IH Ha]; constructor; [done|].
    destruct Ha as [|b l Hab]; constructor.
    by apply Is_true_true, negb_true_iff in Hab.
Qed.

End SourceReport.

(** ** Export: the report of a sink profile *)

Section SinkReport.
Context `{RT : Runtime} {RN : ReportNames}.

(** X14.  The name helpers undo what [SinkProfile::update] did to find its
    slots.  For a LoggingArray that [update] has counted, [getArrTypeStr]
    and [getKeyTypeStr] accept the array-kind slot and the key-type slot
    without tripping their assertions, and [getValTypeStr] maps the value
    slot back: to Empty and Any for the two reserved slots, and for a
    monotype to the name of the datatype that [update] started from (modulo
    persistence).  The reserved slots are assumed to lie above the datatype
    slots, and the datatypes to be 8-bit values. *)
Theorem slot_names_undo_update (ad : ArrayData) (s s' : SinkProfile)
  (profile : SrcKey) (et : EntryTypes) :
  update false ad s = Some s' ->
  layout ad = Logging profile et ->
  kNoValTypes < kAnyValType ->
  kNumValTypes <= 128 ->
  (valueTypes et = Monotype ->
     -128 <= kMinDataType <= dt_modulo_persistence (valueDatatype et)
     /\ dt_modulo_persistence (valueDatatype et) <= 127
     /\ dt_modulo_persistence (valueDatatype et) - kMinDataType
        < kNoValTypes) ->
  getArrTypeStr (kind ad / 2) = Some (kindToString (kind ad / 2 * 2))
  /\ getKeyTypeStr (KeyTypes_raw (keyTypes et))
     = Some (show_KeyTypes (KeyTypes_raw (keyTypes et)))
  /\ getValTypeStr (val_slot et)
     = match valueTypes et with
       | ValuesEmpty => Some "Empty"
       | ValuesAny => Some "Any"
       | Monotype => DataType_name (dt_modulo_persistence (valueDatatype et))
       end.
Proof.
  intros Hup Hlay Hres Hnum Hmono.
  destruct (update_cases ad s s' Hup)
    as [[Hoth _]|[(Hlay' & _)|(profile' & et' & Hlay' & Hkind & Hkey & Hval & _)]].
  { unfold is_other_bespoke in Hoth. by rewrite Hlay in Hoth. }
  { congruence. }
  rewrite Hlay in Hlay'. injection Hlay' as <- <-.
  unfold getArrTypeStr, getKeyTypeStr, getValTypeStr.
  rewrite (proj2 (Z.leb_le _ _)) by lia.
  rewrite (proj2 (Z.leb_le _ _)) by lia.
  rewrite (proj2 (Z.leb_le _ _)) by lia. simpl.
  split; [done|]. split; [done|].
  unfold val_slot in *.
  destruct (valueTypes et) eqn:Hvt; simpl in *.
  - by rewrite decide_True.
  - destruct (Hmono eq_refl) as (Hmin & Hmax & Hslot).
    set (dt := dt_modulo_persistence (valueDatatype et)) in *.
    rewrite (IntFacts.wrap64_small (dt - kMinDataType)) in * by lia.
    rewrite decide_False by lia. rewrite decide_False by lia.
    rewrite IntFacts.safe_cast_fits by (simpl; lia). simpl.
    replace (dt - kMinDataType + kMinDataType) with dt by lia.
    rewrite sign_extend8_mod by lia. done.
  - rewrite decide_False by lia. by rewrite decide_True.
Qed.

Lemma populate_from_spec (fn : Z -> option string) (counts : list Z) :
  forall i result,
  populate_from fn i counts = Some result ->
  td_count <$> result = filter (fun c => c <> 0) counts
  /\ Forall (fun d => exists j,
               counts !! j = Some (td_count d)
               /\ fn (i + Z.of_nat j) = Some (td_name d)
               /\ td_count d <> 0) result.
Proof.
  induction counts as [|count counts IH]; intros i result Hp; simpl in Hp.
  - by injection Hp as <-.
  - destruct (decide (count = 0)) as [->|Hne].
    + destruct (IH _ _ Hp) as [Hc Hall]. split.
      * by rewrite filter_cons_False by (intros H; by apply H).
      * eapply Forall_impl; [exact Hall|]. intros d (j & Hj & Hfn & Hd).
        exists (S j). split; [done|]. split; [|done].
        rewrite <- Hfn. f_equal. lia.
    + destruct (fn i) as [name|] eqn:Hname; [|done]. simpl in Hp.
      destruct (populate_from fn (i + 1) counts) as [rest|] eqn:Hrest;
        [|done].
      simpl in Hp. injection Hp as <-.
      destruct (IH _ _ Hrest) as [Hc Hall]. split.
      * rewrite filter_cons_True by done. rewrite fmap_cons. simpl.
        by rewrite Hc.
      * constructor.
        -- exists O. simpl. rewrite Z.add_0_r. done.
        -- eapply Forall_impl; [exact Hall|]. intros d (j & Hj & Hfn & Hd).
           exists (S j). split; [done|]. split; [|done].
           rewrite <- Hfn. f_equal. lia.
Qed.


Lemma histogram_total_nonzero (counts : list Z) :
  histogram_total (filter (fun c => c <> 0) counts) = histogram_total counts.
Proof.
  induction counts as [|c counts IH]; [done|].
  destruct (decide (c = 0)) as [->|Hne].
  - rewrite filter_cons_False by (intros H; by apply H). simpl.
    unfold histogram_total in *. by rewrite IH.
  - rewrite filter_cons_True by done. unfold histogram_total in *. simpl.
    by rewrite IH.
Qed.

Lemma populateSortedCounts_spec (counts : list Z)
  (fn : Z -> option string) (result : list SinkTypeData) :
  populateSortedCounts counts fn = Some result ->
  td_count <$> result ≡ₚ filter (fun c => c <> 0) counts
  /\ Forall (fun d => exists j,
               counts !! j = Some (td_count d)
               /\ fn (Z.of_nat j) = Some (td_name d)
               /\ td_count d <> 0) result
  /\ StronglySorted (fun a b => td_count b <= td_count a) result
  /\ histogram_total (td_count <$> result) = histogram_total counts.
Proof.
  unfold populateSortedCounts. intros Hp.
  destruct (populate_from fn 0 counts) as [unsorted|] eqn:Hu; [|done].
  simpl in Hp. injection Hp as <-.
  destruct (populate_from_spec fn counts 0 unsorted Hu) as [Hc Hall].
  assert (td_count <$> std_sort (fun a b => td_count b <? td_count a) unsorted
          ≡ₚ filter (fun c => c <> 0) counts) as Hperm.
  { by rewrite std_sort_Permutation, Hc. }
  split; [done|]. split; [|split].
  - rewrite std_sort_Permutation. eapply Forall_impl; [exact Hall|].
    intros d (j & Hj & Hfn & Hd). exists j. by rewrite Z.add_0_l in Hfn.
  - apply (std_sort_descending td_count).
  - unfold histogram_total at 1. rewrite (sumZ_perm _ _ Hperm).
    apply histogram_total_nonzero.
Qed.


Lemma populateSortedCounts_total (counts : list Z) fn result :
  populateSortedCounts counts fn = Some result ->
  histogram_total (td_count <$> result) = histogram_total counts.
Proof.
  intros Hp.
  by destruct (populateSortedCounts_spec counts fn result Hp)
    as (_ & _ & _ & ?).
Qed.

Lemma populateSortedCounts_sorted (counts : list Z) fn result :
  populateSortedCounts counts fn = Some result ->
  StronglySorted (fun a b => td_count b <= td_count a) result.
Proof.
  intros Hp.
  by destruct (populateSortedCounts_spec counts fn result Hp)
    as (_ & _ & ? & _).
Qed.

(** *** [SinkOutputData] *)

Lemma source_counts_fold (st : State) (srcs : list (SrcKey * Z)) :
  forall acc sourceCounts,
  foldl (fun acc it =>
           sourceCounts ← acc;
           p ← s_profileMap st !! it.1;
           Some (add_count (source p) it.2 sourceCounts))
        (Some acc) srcs = Some sourceCounts ->
  Int.wrap64 (sum_counts sourceCounts)
  = Int.wrap64 (sum_counts acc + foldr Z.add 0 (snd <$> srcs)).
Proof.
  induction srcs as [|it srcs IH]; intros acc sourceCounts Hf.
  - simpl in Hf. injection Hf as <-. simpl. by rewrite Z.add_0_r.
  - cbn [foldl] in Hf. cbn [mbind option_bind] in Hf.
    destruct (s_profileMap st !! it.1) as [p|]; cbn [mbind option_bind] in Hf.
    + rewrite (IH _ _ Hf). rewrite fmap_cons. cbn [foldr].
      rewrite <- IntFacts.wrap64_add_l, add_count_sum.
      rewrite IntFacts.wrap64_add_l. f_equal. lia.
    + exfalso. clear -Hf. induction srcs as [|it' srcs IH']; [done|].
      apply IH'. exact Hf.
Qed.

(** X16.  The report of a sink profile that [update] has built is
    consistent with itself: it is the report of that profile, its weight is
    sampledCount + unsampledCount on 64 bits, and modulo 2^64 that weight is
    what the Array lines add up to, while the Key lines, the Value lines
    and the per-source frequencies all add up to the same number.  Each of
    the four lists is in descending order of count. *)
Theorem sink_report_adds_up (key : Z * SrcKey) (ads : list ArrayData)
  (s : SinkProfile) (st : State) (out : SinkOutputData) :
  update_seq false ads (SinkProfile_new key) = Some s ->
  SinkOutputData_new st s = Some out ->
  so_profile out = s
  /\ so_weight out = add64 (so_sampledCount out) (so_unsampledCount out)
  /\ so_weight out
     = Int.wrap64 (histogram_total (td_count <$> so_arrCounts out))
  /\ Int.wrap64 (histogram_total (td_count <$> so_keyCounts out))
     = Int.wrap64 (histogram_total (td_count <$> so_valCounts out))
  /\ Int.wrap64 (foldr Z.add 0 (sf_count <$> so_sources out))
     = Int.wrap64 (histogram_total (td_count <$> so_keyCounts out))
  /\ StronglySorted (fun a b => td_count b <= td_count a) (so_arrCounts out)
  /\ StronglySorted (fun a b => td_count b <= td_count a) (so_keyCounts out)
  /\ StronglySorted (fun a b => td_count b <= td_count a) (so_valCounts out)
  /\ StronglySorted (fun a b => sf_count b <= sf_count a) (so_sources out).
Proof.
  intros Hrun Hout.
  destruct (update_seq_tallies key ads s Hrun)
    as (_ & _ & _ & (Ta & Tk & Tv)).
  unfold SinkOutputData_new in Hout.
  destruct (source_counts st (map_to_list (sources s))) as [sourceCounts|]
    eqn:Hsrc; [|done].
  cbn [mbind option_bind] in Hout.
  destruct (populateSortedCounts (arrCounts s) getArrTypeStr) as [arr|]
    eqn:Harr; [|done].
  cbn [mbind option_bind] in Hout.
  destruct (populateSortedCounts (keyCounts s) getKeyTypeStr) as [keys|]
    eqn:Hkey; [|done].
  cbn [mbind option_bind] in Hout.
  destruct (populateSortedCounts (valCounts s) getValTypeStr) as [vals|]
    eqn:Hval; [|done].
  cbn [mbind option_bind] in Hout. injection Hout as <-.
  cbn [so_profile so_weight so_sampledCount so_unsampledCount so_arrCounts
       so_keyCounts so_valCounts so_sources].
  rewrite (populateSortedCounts_total _ _ _ Harr).
  rewrite (populateSortedCounts_total _ _ _ Hkey).
  rewrite (populateSortedCounts_total _ _ _ Hval).
  split; [done|]. split; [done|]. split; [by rewrite Ta|].
  split; [by rewrite Tk, Tv|]. split.
  - rewrite Tk.
    rewrite (sumZ_perm _ _ (fmap_Permutation sf_count _ _
                              (std_sort_Permutation _ _))).
    rewrite <- list_fmap_compose.
    unfold source_counts in Hsrc.
    change (sf_count ∘ _) with (snd : SrcKey * Z -> Z).
    rewrite <- (sum_counts_list sourceCounts).
    rewrite (source_counts_fold st _ ∅ sourceCounts Hsrc).
    rewrite (sum_counts_empty (K:=SrcKey)), Z.add_0_l.
    by rewrite <- sum_counts_list.
  - split; [by apply (populateSortedCounts_sorted _ _ _ Harr)|].
    split; [by apply (populateSortedCounts_sorted _ _ _ Hkey)|].
    split; [by apply (populateSortedCounts_sorted _ _ _ Hval)|].
    apply (std_sort_descending sf_count).
Qed.

Lemma update_seq_counted ads : forall s s',
  update_seq false ads s = Some s' ->
  Int.wrap64 (sampledCount s' + unsampledCount s')
  = Int.wrap64
      (sampledCount s + unsampledCount s
       + Z.of_nat (length (filter (fun ad => is_other_bespoke ad = false)
                                  ads))).
Proof.
  induction ads as [|ad ads IH]; intros s s' Hrun; cbn [update_seq] in Hrun.
  - simplify_eq. simpl. by rewrite Z.add_0_r.
  - destruct (update false ad s) as [s1|] eqn:Hup; [|done]. simpl in Hrun.
    rewrite (IH s1 s' Hrun). clear IH Hrun.
    destruct (update_cases ad s s1 Hup)
      as [[Hoth ->]|[(Hlay & _ & ->)|(profile & et & Hlay & _ & _ & _ & ->)]].
    + by rewrite filter_cons_False by (by rewrite Hoth).
    + rewrite filter_cons_True
        by (unfold is_other_bespoke; by rewrite Hlay).
      cbn [length sampledCount unsampledCount]. unfold Int.incr64.
      destruct (isSampledArray ad).
      * rewrite <- Z.add_assoc, IntFacts.wrap64_add_l. f_equal. lia.
      * rewrite (Z.add_comm (sampledCount s)), <- !Z.add_assoc.
        rewrite IntFacts.wrap64_add_l. f_equal. lia.
    + rewrite filter_cons_True
        by (unfold is_other_bespoke; by rewrite Hlay).
      cbn [length sampledCount unsampledCount]. unfold Int.incr64.
      rewrite <- Z.add_assoc, IntFacts.wrap64_add_l. f_equal. lia.
Qed.

(** X26.  The weight that the report prints for a sink is the number of
    arrays the sink was shown, not counting the arrays of other bespoke
    layouts that [update] skips: for fewer than 2^64 calls of [update] on a
    new profile, the weight of its report is the number of vanilla arrays
    and LoggingArrays among them. *)
Theorem sink_weight_counts_arrays (key : Z * SrcKey) (ads : list ArrayData)
  (s : SinkProfile) (st : State) (out : SinkOutputData) :
  update_seq false ads (SinkProfile_new key) = Some s ->
  Z.of_nat (length ads) < 2^64 ->
  SinkOutputData_new st s = Some out ->
  so_weight out
  = Z.of_nat (length (filter (fun ad => is_other_bespoke ad = false) ads)).
Proof.
  intros Hrun Hlen Hout.
  pose proof (update_seq_counted ads _ s Hrun) as Hcount. simpl in Hcount.
  unfold SinkOutputData_new in Hout.
  destruct (source_counts _ _); [|done]. cbn [mbind option_bind] in Hout.
  destruct (populateSortedCounts _ getArrTypeStr); [|done].
  cbn [mbind option_bind] in Hout.
  destruct (populateSortedCounts _ getKeyTypeStr); [|done].
  cbn [mbind option_bind] in Hout.
  destruct (populateSortedCounts _ getValTypeStr); [|done].
  cbn [mbind option_bind] in Hout. injection Hout as <-.
  cbn [so_weight]. unfold add64. rewrite Hcount.
  apply IntFacts.wrap64_small.
  pose proof (length_filter (fun ad => is_other_bespoke ad = false) ads). lia.
Qed.

(** X17.  [sortSinkData] reports every sink profile of the table once and
    nothing else, in descending order of weight. *)
Theorem sortSinkData_reports_each_sink (st : State)
  (sinkData : list SinkOutputData) :
  sortSinkData st = Some sinkData ->
  so_profile <$> sinkData ≡ₚ snd <$> map_to_list (s_sinkMap st)
  /\ StronglySorted (fun a b => so_weight b <= so_weight a) sinkData.
Proof.
  unfold sortSinkData. intros Hs.
  destruct (mapM _ (map_to_list (s_sinkMap st))) as [unsorted|] eqn:Hm;
    [|done].
  cbn [mbind option_bind] in Hs. injection Hs as <-. split.
  - rewrite std_sort_Permutation. apply mapM_Some in Hm.
    match goal with
    | |- ?a ≡ₚ ?b => assert (a = b) as Heq; [|by rewrite Heq]
    end.
    induction Hm as [|[k s] out l outs Hout _ IH]; [done|].
    rewrite !fmap_cons, IH. f_equal. simpl in *.
    unfold SinkOutputData_new in Hout.
    destruct (source_counts _ _); [|done]. cbn [mbind option_bind] in Hout.
    destruct (populateSortedCounts _ getArrTypeStr); [|done].
    cbn [mbind option_bind] in Hout.
    destruct (populateSortedCounts _ getKeyTypeStr); [|done].
    cbn [mbind option_bind] in Hout.
    destruct (populateSortedCounts _ getValTypeStr); [|done].
    cbn [mbind option_bind] in Hout. by injection Hout as <-.
  - apply (std_sort_descending so_weight).
Qed.

End SinkReport.

(** ** Export: writing the report *)

Section ReportText.
Context `{RT : Runtime} {RN : ReportNames}.

Lemma string_app_assoc (s t u : string) : (s +:+ t) +:+ u = s +:+ (t +:+ u).
Proof.
  induction s as [|a s IH]; [done|]. by rewrite !string_app_cons, IH.
Qed.

(** A short [fwrite] takes a proper prefix of the entry. *)
Lemma substring_prefix (entry : string) : forall k,
  (k < String.length entry)%nat ->
  exists rest, entry = String.substring 0 k entry +:+ rest
               /\ rest <> EmptyString.
Proof.
  induction entry as [|a entry IH]; intros k Hk; simpl in Hk; [lia|].
  destruct k as [|k].
  - exists (String a entry). by destruct entry.
  - destruct (IH k ltac:(lia)) as (rest & Heq & Hne).
    exists rest. split; [|done]. simpl. rewrite string_app_cons. by f_equal.
Qed.

Lemma substring_all (entry : string) :
  String.substring 0 (String.length entry) entry = entry.
Proof. induction entry as [|a entry IH]; [done|]. simpl. by rewrite IH. Qed.

(** One [logToFile]: either the entry is appended in full, or a proper
    prefix of it is. *)
Lemma logToFile_cases (entry : string) (file : FILE) :
  (logToFile entry file).1 = true
  /\ written (logToFile entry file).2 = written file +:+ entry
  \/ (logToFile entry file).1 = false
     /\ exists part rest,
          entry = part +:+ rest /\ rest <> EmptyString
          /\ written (logToFile entry file).2 = written file +:+ part.
Proof.
  unfold logToFile, fwrite. destruct (accepts file) as [|n acc]; simpl.
  - left. by rewrite Nat.eqb_refl.
  - destruct (decide (n < String.length entry)%nat) as [Hlt|Hge].
    + right. rewrite Nat.min_l by lia.
      split; [apply Nat.eqb_neq; lia|].
      destruct (substring_prefix entry n Hlt) as (rest & Heq & Hne).
      by exists (String.substring 0 n entry), rest.
    + left. rewrite Nat.min_r by lia. rewrite Nat.eqb_refl.
      by rewrite substring_all.
Qed.

Lemma logToFile_unlimited (entry w : string) :
  logToFile entry {| written := w; accepts := [] |}
  = (true, {| written := w +:+ entry; accepts := [] |}).
Proof. unfold logToFile, fwrite. simpl. by rewrite Nat.eqb_refl. Qed.

(** The text of a script. *)
Lemma script_cons e es ok file :
  script (e :: es) ok file
  = (let '(b, file') := logToFile e file in
     if b then script es ok file' else Some (false, file')).
Proof. done. Qed.

Lemma script_unlimited (es : list string) (ok : bool) : forall w,
  script es ok {| written := w; accepts := [] |}
  = if ok
    then Some (true, {| written := foldl String.append w es;
                        accepts := [] |})
    else None.
Proof.
  induction es as [|e es IH]; intros w.
  - unfold script. simpl. by destruct ok.
  - rewrite script_cons, logToFile_unlimited. simpl. apply IH.
Qed.

Lemma script_prefix (es : list string) (ok : bool) : forall file,
  exists text,
    (forall w, foldl String.append w es = w +:+ text)
    /\ match script es ok file with
       | Some (true, file') =>
           ok = true /\ written file' = written file +:+ text
       | Some (false, file') =>
           exists part rest,
             text = part +:+ rest /\ rest <> EmptyString
             /\ written file' = written file +:+ part
       | None => ok = false
       end.
Proof.
  induction es as [|e es IH]; intros file.
  - exists EmptyString. split; [intros w; by rewrite string_app_nil_r|].
    unfold script. simpl. destruct ok; simpl; [|done].
    by rewrite string_app_nil_r.
  - rewrite script_cons.
    destruct (logToFile e file) as [b file'] eqn:Hlog.
    destruct (IH file') as (text & Htext & Hrun).
    exists (e +:+ text). split.
    { intros w. simpl. by rewrite Htext, string_app_assoc. }
    pose proof (logToFile_cases e file) as Hcases. rewrite Hlog in Hcases.
    simpl in Hcases.
    destruct Hcases as [[-> Hw]|[-> (part & rest & He & Hne & Hw)]].
    + destruct (script es ok file') as [[[] file'']|].
      * destruct Hrun as [-> Hw']. split; [done|].
        by rewrite Hw', Hw, string_app_assoc.
      * destruct Hrun as (part & rest & -> & Hne & Hw').
        exists (e +:+ part), rest. split; [by rewrite string_app_assoc|].
        split; [done|]. by rewrite Hw', Hw, string_app_assoc.
      * done.
    + exists part, (rest +:+ text). split; [by rewrite He, string_app_assoc|].
      split; [|done]. destruct rest; [done|]. by rewrite string_app_cons.
Qed.

(** *** The export functions are scripts *)

Lemma scripted_return_true : scripted return_true.
Proof. by exists [], true. Qed.

Lemma scripted_LOG_OR_RETURN (entry : string) (rest : Export) :
  scripted rest -> scripted (LOG_OR_RETURN entry rest).
Proof.
  intros (es & ok & Hrest). exists (entry :: es), ok. intros file.
  rewrite script_cons. unfold LOG_OR_RETURN.
  destruct (logToFile entry file) as [[] file']; [apply Hrest|done].
Qed.

Lemma scripted_eval {A} (x : option A) (rest : A -> Export) :
  (forall a, scripted (rest a)) -> scripted (eval x rest).
Proof.
  intros Hrest. destruct x as [a|]; [apply Hrest|]. by exists [], false.
Qed.

Lemma scripted_for_each {A} (body : A -> Export -> Export) (xs : list A)
  (rest : Export) :
  (forall x k, scripted k -> scripted (body x k)) ->
  scripted rest -> scripted (for_each body xs rest).
Proof.
  intros Hbody Hrest. induction xs as [|x xs IH]; [done|].
  simpl. by apply Hbody.
Qed.

Lemma script_app (es1 es2 : list string) (ok : bool) (rest : Export) :
  (forall file, rest file = script es2 ok file) ->
  forall file,
    OR_RETURN (script es1 true) rest file = script (es1 ++ es2) ok file.
Proof.
  intros Hrest. induction es1 as [|e es1 IH]; intros file.
  - unfold OR_RETURN, script at 1. simpl. apply Hrest.
  - cbn [app]. rewrite script_cons. unfold OR_RETURN in *.
    rewrite script_cons.
    destruct (logToFile e file) as [[] file']; [apply IH|done].
Qed.

Lemma scripted_OR_RETURN (f rest : Export) :
  scripted f -> scripted rest -> scripted (OR_RETURN f rest).
Proof.
  intros (es1 & ok1 & Hf) (es2 & ok2 & Hrest). destruct ok1.
  - exists (es1 ++ es2), ok2. intros file.
    rewrite <- (script_app es1 es2 ok2 rest Hrest).
    unfold OR_RETURN. by rewrite Hf.
  - exists es1, false. intros file. unfold OR_RETURN. rewrite Hf.
    clear Hf. revert file. induction es1 as [|e es1 IH]; intros file; [done|].
    rewrite script_cons.
    destruct (logToFile e file) as [[] file']; [apply IH|done].
Qed.

Lemma scripted_exportOperationSet (operations : list OperationOutputData) :
  scripted (exportOperationSet operations).
Proof.
  unfold exportOperationSet.
  apply scripted_for_each; [|apply scripted_return_true].
  intros operationData k Hk.
  destruct (op_events operationData) as [|eventData [|eventData' events]].
  - by apply scripted_LOG_OR_RETURN.
  - apply scripted_eval. intros _. apply scripted_eval. intros text.
    by apply scripted_LOG_OR_RETURN.
  - apply scripted_LOG_OR_RETURN. apply scripted_for_each; [|done].
    intros e k' Hk'. apply scripted_eval. intros text.
    by apply scripted_LOG_OR_RETURN.
Qed.

Lemma scripted_exportTypeCounts (label : string) (counts : list SinkTypeData) :
  scripted (exportTypeCounts label counts).
Proof.
  unfold exportTypeCounts. apply scripted_LOG_OR_RETURN.
  apply scripted_for_each; [|apply scripted_return_true].
  intros count k Hk. by apply scripted_LOG_OR_RETURN.
Qed.

Lemma scripted_exportSortedProfiles (profileData : list SourceOutputData) :
  scripted (exportSortedProfiles profileData).
Proof.
  unfold exportSortedProfiles.
  do 2 apply scripted_LOG_OR_RETURN.
  apply scripted_for_each; [|apply scripted_return_true].
  intros sourceData k Hk. cbv zeta.
  do 4 apply scripted_LOG_OR_RETURN.
  apply scripted_OR_RETURN; [apply scripted_exportOperationSet|].
  apply scripted_LOG_OR_RETURN.
  apply scripted_OR_RETURN; [apply scripted_exportOperationSet|].
  apply scripted_LOG_OR_RETURN.
  apply scripted_for_each.
  { intros escData k' Hk'. by apply scripted_LOG_OR_RETURN. }
  apply scripted_LOG_OR_RETURN.
  apply scripted_for_each.
  { intros useData k' Hk'. by apply scripted_LOG_OR_RETURN. }
  by apply scripted_LOG_OR_RETURN.
Qed.

Lemma scripted_exportSortedSinks (sinks : list SinkOutputData) :
  scripted (exportSortedSinks sinks).
Proof.
  unfold exportSortedSinks.
  do 2 apply scripted_LOG_OR_RETURN.
  apply scripted_for_each; [|apply scripted_return_true].
  intros sink k Hk. cbv zeta.
  do 2 apply scripted_LOG_OR_RETURN.
  do 3 (apply scripted_OR_RETURN; [apply scripted_exportTypeCounts|]).
  by apply scripted_LOG_OR_RETURN.
Qed.

(** What a script leaves in a file that may refuse bytes, against what it
    leaves in one that takes everything. *)
Lemma scripted_prefix (e : Export) (w : string) (b0 : bool) (full : FILE) :
  scripted e ->
  e {| written := w; accepts := [] |} = Some (b0, full) ->
  b0 = true
  /\ forall acc,
       exists b file' rest,
         e {| written := w; accepts := acc |} = Some (b, file')
         /\ written full = written file' +:+ rest
         /\ (b = true <-> rest = EmptyString).
Proof.
  intros (es & ok & He) Hfull. rewrite He, script_unlimited in Hfull.
  destruct ok; [|done]. injection Hfull as <- <-. split; [done|].
  intros acc. rewrite He.
  destruct (script_prefix es true {| written := w; accepts := acc |})
    as (text & Htext & Hrun).
  simpl in Hrun. cbn [written]. rewrite Htext.
  destruct (script es true {| written := w; accepts := acc |})
    as [[[] file']|]; [| |done].
  - destruct Hrun as [_ Hw]. exists true, file', EmptyString.
    split; [done|]. by rewrite Hw, string_app_nil_r.
  - destruct Hrun as (part & rest & -> & Hne & Hw).
    exists false, file', rest. split; [done|].
    split; [by rewrite Hw, string_app_assoc|]. split; [done|]. done.
Qed.

(** X18.  The sources section of the report is cut at the first short
    write and nowhere else.  Take the text that [exportSortedProfiles]
    writes to a file that accepts every byte (there it returns true).  On a
    file that accepts whatever it likes, the function trips no assertion
    either, what it leaves in the file is a prefix of that text, and it
    returns true exactly when the prefix is the whole text. *)
Theorem exportSortedProfiles_writes_a_prefix
  (profileData : list SourceOutputData) (w : string) (b0 : bool)
  (full : FILE) :
  exportSortedProfiles profileData {| written := w; accepts := [] |}
  = Some (b0, full) ->
  b0 = true
  /\ forall acc,
       exists b file' rest,
         exportSortedProfiles profileData {| written := w; accepts := acc |}
         = Some (b, file')
         /\ written full = written file' +:+ rest
         /\ (b = true <-> rest = EmptyString).
Proof. apply scripted_prefix, scripted_exportSortedProfiles. Qed.

(** X19.  The same for the sinks section: [exportSortedSinks] leaves a
    prefix of the text that it writes to a file that accepts every byte,
    and returns true exactly when nothing is missing. *)
Theorem exportSortedSinks_writes_a_prefix
  (sinks : list SinkOutputData) (w : string) (b0 : bool) (full : FILE) :
  exportSortedSinks sinks {| written := w; accepts := [] |}
  = Some (b0, full) ->
  b0 = true
  /\ forall acc,
       exists b file' rest,
         exportSortedSinks sinks {| written := w; accepts := acc |}
         = Some (b, file')
         /\ written full = written file' +:+ rest
         /\ (b = true <-> rest = EmptyString).
Proof. apply scripted_prefix, scripted_exportSortedSinks. Qed.

(** X20.  A failed sources section does not stop the export thread: when
    the very first write is short (by [n] bytes of the rule that opens the
    section), [exportSortedProfiles] gives up there, its result is dropped,
    and [exportSortedSinks] still runs on the same file, so the report ends
    up as the part of the rule that was taken followed by whatever the sinks
    section writes. *)
Theorem export_thread_goes_on_after_short_write (st : State) (w : string)
  (n : nat) (acc : list nat) :
  (n < String.length rule)%nat ->
  export_thread st (Some {| written := w; accepts := n :: acc |})
  = (sinks ← sortSinkData st;
     r ← exportSortedSinks sinks
           {| written := w +:+ String.substring 0 n rule; accepts := acc |};
     Some (Some r.2)).
Proof.
  intros Hn. unfold export_thread.
  destruct (sortSinkData st) as [sinks|]; [|done].
  cbn [mbind option_bind].
  assert (exportSortedProfiles (sortProfileData st)
            {| written := w; accepts := n :: acc |}
          = Some (false, {| written := w +:+ String.substring 0 n rule;
                            accepts := acc |})) as ->; [|done].
  unfold exportSortedProfiles, LOG_OR_RETURN at 1, logToFile, fwrite.
  cbn [accepts written]. rewrite Nat.min_l by lia.
  by rewrite (proj2 (Nat.eqb_neq _ _)) by lia.
Qed.

End ReportText.

(** ** Event keys from construction to export *)

Section LoggedKeys.
Context `{RT : Runtime}.

Lemma setKey_int_shape k e :
  exists e',
    setKey_int k e = Some e'
    /\ m_op e' = m_op e /\ m_val_type e' = m_val_type e
    /\ (0 <= m_key e < 2^32 -> 0 <= m_key e' < 2^32)
    /\ is_Some (key_toString e').
Proof.
  destruct (decide (-128 <= k <= 127)) as [H|H].
  - rewrite setKey_int_small by done. eexists. split; [done|]. simpl.
    split; [done|]. split; [done|]. split; [lia|].
    rewrite (key_toString_int8 _ k); [by eexists|done..].
  - destruct (setKey_int_wide k e H) as [-> Hspec].
    eexists. split; [done|]. simpl. split; [done|]. split; [done|].
    split; [done|]. rewrite key_toString_category; [by eexists|].
    simpl. revert Hspec. rewrite !elem_of_cons, !elem_of_nil. tauto.
Qed.

Lemma setKey_str_shape k e :
  exists e',
    setKey_str k e = Some e'
    /\ m_op e' = m_op e /\ m_val_type e' = m_val_type e
    /\ (0 <= m_key e < 2^32 -> 0 <= m_key e' < 2^32)
    /\ is_Some (key_toString e').
Proof.
  destruct (decide (isStatic k = true /\ 0 <= k < 2^32)) as [[Hs Hk]|H].
  - rewrite setKey_str_small by done. eexists. split; [done|]. simpl.
    split; [done|]. split; [done|]. split; [lia|].
    rewrite (key_toString_str32 _ k); [by eexists|done..].
  - rewrite setKey_str_other by done.
    eexists. split; [done|]. simpl. split; [done|]. split; [done|].
    split; [done|]. rewrite key_toString_category; [by eexists|].
    simpl. repeat first [by left | right].
Qed.

Lemma is_Some_toString e : is_Some (key_toString e) -> is_Some (toString e).
Proof. intros [s Hs]. unfold toString. rewrite Hs. by eexists. Qed.

(** A key that one of the six constructors has built. *)
Lemma EventKey_make_shape op a :
  exists key,
    EventKey_make op a = Some key
    /\ m_op key = op
    /\ 0 <= m_key key < 2^32
    /\ (m_val_type key = kInvalidDataType
        \/ exists v, m_val_type key = dt_modulo_persistence (type v))
    /\ is_Some (toString key).
Proof.
  destruct a as [|k|k|v|k v|k v]; simpl.
  - eexists. split; [done|]. simpl. split; [done|]. split; [lia|].
    split; [by left|]. by apply is_Some_toString.
  - destruct (setKey_int_shape k (EventKey_init op))
      as (e & He & Hop & Hvt & Hkey & Hs).
    exists e. split; [done|]. split; [done|]. split; [apply Hkey; simpl; lia|].
    split; [by left|]. by apply is_Some_toString.
  - destruct (setKey_str_shape k (EventKey_init op))
      as (e & He & Hop & Hvt & Hkey & Hs).
    exists e. split; [done|]. split; [done|]. split; [apply Hkey; simpl; lia|].
    split; [by left|]. by apply is_Some_toString.
  - eexists. split; [done|]. simpl. split; [done|]. split; [lia|].
    split; [right; by exists v|]. by apply is_Some_toString.
  - unfold EventKey_int_val.
    destruct (setKey_int_shape k (EventKey_init op))
      as (e & -> & Hop & Hvt & Hkey & Hs).
    eexists. split; [done|]. simpl. split; [done|].
    split; [apply Hkey; simpl; lia|]. split; [right; by exists v|].
    apply is_Some_toString. by rewrite key_toString_setVal.
  - unfold EventKey_str_val.
    destruct (setKey_str_shape k (EventKey_init op))
      as (e & -> & Hop & Hvt & Hkey & Hs).
    eexists. split; [done|]. simpl. split; [done|].
    split; [apply Hkey; simpl; lia|]. split; [right; by exists v|].
    apply is_Some_toString. by rewrite key_toString_setVal.
Qed.

Lemma toUInt64_range e :
  0 <= ArrayOp_raw (m_op e) < 2^8 -> 0 <= m_key e < 2^32 ->
  0 <= toUInt64 e < 2^64.
Proof.
  intros Hop Hkey. unfold toUInt64.
  pose proof (Spec_raw_range (m_key_spec e)).
  pose proof (Spec_raw_range (m_val_spec e)).
  pose proof (Z.mod_pos_bound (m_val_type e) (2^8) ltac:(lia)). lia.
Qed.

Lemma EventKey_make_packs op a key :
  0 <= ArrayOp_raw op < 2^8 ->
  ArrayOp_of_raw (ArrayOp_raw op) = op ->
  -2^7 <= m_val_type key < 2^7 ->
  EventKey_make op a = Some key ->
  EventKey_of_uint64 (toUInt64 key) = key /\ 0 <= toUInt64 key < 2^64.
Proof.
  intros Hop Hinv Hdt Hmake.
  destruct (EventKey_make_shape op a) as (key' & Hmake' & Hk1 & Hk2 & _).
  rewrite Hmake in Hmake'. injection Hmake' as <-. split.
  - apply EventKey_of_toUInt64; rewrite ?Hk1; done.
  - apply toUInt64_range; by rewrite ?Hk1.
Qed.

(** X21.  No event that can be logged trips a checked cast: for every
    operation and every argument list of the six [logEvent] overloads the
    constructor of [EventKey] succeeds, keeps the operation, and
    [toString] renders the key. *)
Theorem logged_key_is_rendered (op : ArrayOp) (a : LogArgs) :
  exists key text,
    EventKey_make op a = Some key
    /\ getOp key = op
    /\ toString key = Some text.
Proof.
  destruct (EventKey_make_shape op a) as (key & Hmake & Hop & _ & _ & [s Hs]).
  by exists key, s.
Qed.

(** X22.  The 64-bit word under which an event is counted keeps the whole
    key.  When the enumerator of the operation is a byte that
    [ArrayOp_of_raw] maps back and the datatype recorded for the value is an
    8-bit value, a key built by a constructor packs into a value below
    2^64, unpacking that value gives the key back, and so export renders
    from the counter's key the very text of the event that was logged. *)
Theorem logged_key_survives_packing (op : ArrayOp) (a : LogArgs)
  (key : EventKey) :
  0 <= ArrayOp_raw op < 2^8 ->
  ArrayOp_of_raw (ArrayOp_raw op) = op ->
  EventKey_make op a = Some key ->
  -2^7 <= m_val_type key < 2^7 ->
  0 <= toUInt64 key < 2^64
  /\ EventKey_of_uint64 (toUInt64 key) = key
  /\ getOp (EventKey_of_uint64 (toUInt64 key)) = op
  /\ exists text,
       toString key = Some text
       /\ toString (EventKey_of_uint64 (toUInt64 key)) = Some text.
Proof.
  intros Hop Hinv Hmake Hdt.
  destruct (EventKey_make_packs op a key Hop Hinv Hdt Hmake) as [Hrt Hrange].
  destruct (EventKey_make_shape op a) as (key' & Hmake' & Hk1 & _ & _ & [s Hs]).
  rewrite Hmake in Hmake'. injection Hmake' as <-.
  split; [done|]. split; [done|]. rewrite Hrt. split; [done|]. by exists s.
Qed.

(** X23.  Two events share a counter only if they are the same event: keys
    built by the constructors that pack into the same 64-bit word are equal
    (under the same conditions on the enumerators and the datatypes). *)
Theorem distinct_events_have_distinct_words (op1 op2 : ArrayOp)
  (a1 a2 : LogArgs) (key1 key2 : EventKey) :
  (forall op, op = op1 \/ op = op2 ->
     0 <= ArrayOp_raw op < 2^8 /\ ArrayOp_of_raw (ArrayOp_raw op) = op) ->
  EventKey_make op1 a1 = Some key1 ->
  EventKey_make op2 a2 = Some key2 ->
  -2^7 <= m_val_type key1 < 2^7 ->
  -2^7 <= m_val_type key2 < 2^7 ->
  toUInt64 key1 = toUInt64 key2 ->
  key1 = key2.
Proof.
  intros Hops Hmake1 Hmake2 Hdt1 Hdt2 Heq.
  destruct (Hops op1 ltac:(by left)) as [Hr1 Hi1].
  destruct (Hops op2 ltac:(by right)) as [Hr2 Hi2].
  destruct (EventKey_make_packs op1 a1 key1 Hr1 Hi1 Hdt1 Hmake1) as [<- _].
  destruct (EventKey_make_packs op2 a2 key2 Hr2 Hi2 Hdt2 Hmake2) as [<- _].
  by rewrite Heq.
Qed.

End LoggedKeys.

(** ** The further theorems on concrete inputs *)

Section FurtherChecks.
#[local] Existing Instance Sample.runtime.
#[local] Existing Instance SampleReport.names.

Lemma export_freezes_the_tables_witness :
  s_exportStarted SampleReport.state_exporting = true
  /\ exists st',
       run SampleReport.calls_around_second_export
           SampleReport.state_exporting = Some st'
       /\ s_exportStarted st' = true
       /\ s_profileMap st' = s_profileMap SampleReport.state_exporting
       /\ s_sinkMap st' = s_sinkMap SampleReport.state_exporting
       /\ run (SampleReport.calls_around_second_export
               ++ [CallExportProfiles]) SampleReport.state_exporting = None.
Proof.
  assert (s_exportStarted SampleReport.state_exporting = true) as Hstarted
    by (vm_compute; reflexivity).
  split; [exact Hstarted|].
  set (st' := default State_init
                (run SampleReport.calls_around_second_export
                     SampleReport.state_exporting)).
  assert (run SampleReport.calls_around_second_export
              SampleReport.state_exporting = Some st') as Hlate
    by (vm_compute; reflexivity).
  assert (@EvalExportLoggingArrayDataPath Sample.runtime <> EmptyString)
    as Hpath by (vm_compute; discriminate).
  assert (s_exportProfilesThread st' = true) as Hjoinable
    by (vm_compute; reflexivity).
  exists st'. split; [exact Hlate|].
  destruct (export_freezes_the_tables
              SampleReport.calls_around_second_export
              SampleReport.state_exporting st' Hstarted Hlate)
    as (H1 & H2 & H3 & _ & H5).
  split; [exact H1|]. split; [exact H2|]. split; [exact H3|].
  exact (H5 Hpath Hjoinable).
Defined.

Lemma getLoggingProfile_before_export_witness :
  s_exportStarted State_init = false
  /\ shouldLogAtSrcKey Sample.source_X_raw = true
  /\ exists st' p,
       getLoggingProfile Sample.source_X_raw State_init
       = Some (Some Sample.source_X, st')
       /\ s_profileMap st' !! Sample.source_X = Some p
       /\ events p = ∅
       /\ is_Some (staticLoggingArray p).
Proof.
  assert (shouldLogAtSrcKey Sample.source_X_raw = true) as Hlog
    by (vm_compute; reflexivity).
  split; [reflexivity|]. split; [exact Hlog|].
  destruct (getLoggingProfile_before_export State_init Sample.source_X_raw
              eq_refl Hlog)
    as (sk & st' & p & Hsk & Hget & Hp & _ & Hnew & _).
  injection Hsk as <-.
  destruct (Hnew (lookup_empty _)) as (_ & Hev & _ & _ & _ & Harr & _).
  exists st', p. split; [exact Hget|]. split; [exact Hp|].
  split; [exact Hev|]. apply Harr.
  apply elem_of_cons; right. apply elem_of_cons; left. reflexivity.
Defined.

Lemma getLoggingProfile_idempotent_witness :
  getLoggingProfile Sample.source_X_raw State_init
  = Some (Some Sample.source_X,
          default State_init
                  (snd <$> getLoggingProfile Sample.source_X_raw State_init))
  /\ getLoggingProfile Sample.source_X_raw
       (default State_init
                (snd <$> getLoggingProfile Sample.source_X_raw State_init))
     = Some (Some Sample.source_X,
             default State_init
                     (snd <$> getLoggingProfile Sample.source_X_raw
                                                State_init)).
Proof.
  assert (getLoggingProfile Sample.source_X_raw State_init
          = Some (Some Sample.source_X,
                  default State_init
                          (snd <$> getLoggingProfile Sample.source_X_raw
                                                     State_init))) as Hget
    by (vm_compute; reflexivity).
  split; [exact Hget|].
  exact (getLoggingProfile_idempotent State_init _ Sample.source_X_raw
           (Some Sample.source_X) Hget).
Defined.

Lemma getSinkProfile_before_export_witness :
  s_exportStarted State_init = false
  /\ valid Sample.sink_Y_raw = true
  /\ exists st' s,
       getSinkProfile 3 Sample.sink_Y_raw State_init
       = Some (Some Sample.sink_Y, st')
       /\ s_sinkMap st' !! Sample.sink_Y = Some s
       /\ sampledCount s = 0 /\ sources s = ∅.
Proof.
  split; [reflexivity|]. split; [reflexivity|].
  destruct (getSinkProfile_before_export State_init 3 Sample.sink_Y_raw
              eq_refl eq_refl)
    as (sk & st' & s & Hsk & Hget & Hs & _ & Hnew & _).
  injection Hsk as <-.
  destruct (Hnew (lookup_empty _)) as (_ & _ & _ & _ & Hsc & _ & Hsrc).
  exists st', s. split; [exact Hget|]. split; [exact Hs|].
  split; [exact Hsc|exact Hsrc].
Defined.

Lemma invalid_SrcKey_lookups_witness :
  valid SampleReport.invalid_key = false
  /\ getLoggingProfile SampleReport.invalid_key State_init
     = Some (None, State_init)
  /\ getSinkProfile 3 SampleReport.invalid_key State_init = None.
Proof.
  split; [reflexivity|].
  exact (invalid_SrcKey_lookups State_init 3 SampleReport.invalid_key
           eq_refl).
Defined.

Lemma logEntryTypes_counts_witness :
  Z.of_nat (length SampleReport.entry_type_calls) < 2^64
  /\ monotypeEvents
       (foldl (fun p c => logEntryTypes false c.1 c.2 p)
              (LoggingProfile_new Sample.source_X)
              SampleReport.entry_type_calls)
     !! (0, 777) = Some 2.
Proof.
  assert (Z.of_nat (length SampleReport.entry_type_calls) < 2^64) as Hlen
    by (vm_compute; reflexivity).
  split; [exact Hlen|].
  destruct (logEntryTypes_counts Sample.source_X
              SampleReport.entry_type_calls Hlen) as (Hcount & _).
  rewrite (Hcount 0 777). vm_compute. reflexivity.
Defined.

Lemma update_keeps_tallies_witness :
  update_seq false SampleReport.arrays_1 (SinkProfile_new Sample.sink_Y)
  = Some SampleReport.sink_profile_1
  /\ sink SampleReport.sink_profile_1 = Sample.sink_Y
  /\ Int.wrap64 (histogram_total (arrCounts SampleReport.sink_profile_1))
     = add64 (sampledCount SampleReport.sink_profile_1)
             (unsampledCount SampleReport.sink_profile_1).
Proof.
  assert (update_seq false SampleReport.arrays_1
                     (SinkProfile_new Sample.sink_Y)
          = Some SampleReport.sink_profile_1) as Hrun
    by (vm_compute; reflexivity).
  split; [exact Hrun|].
  destruct (update_keeps_tallies Sample.sink_Y SampleReport.arrays_1 _ Hrun)
    as (Hsink & _ & _ & Htot & _).
  split; [exact Hsink|exact Htot].
Defined.

Lemma update_counts_by_source_witness :
  Z.of_nat (length SampleReport.arrays_1) < 2^64
  /\ update_seq false SampleReport.arrays_1 (SinkProfile_new Sample.sink_Y)
     = Some SampleReport.sink_profile_1
  /\ sources SampleReport.sink_profile_1 !! Sample.source_X = Some 1
  /\ sampledCount SampleReport.sink_profile_1 = 2
  /\ unsampledCount SampleReport.sink_profile_1 = 1.
Proof.
  assert (Z.of_nat (length SampleReport.arrays_1) < 2^64) as Hlen
    by (vm_compute; reflexivity).
  split; [exact Hlen|].
  assert (update_seq false SampleReport.arrays_1
                     (SinkProfile_new Sample.sink_Y)
          = Some SampleReport.sink_profile_1) as Hrun
    by (vm_compute; reflexivity).
  split; [exact Hrun|].
  destruct (update_counts_by_source Sample.sink_Y SampleReport.arrays_1 _
              Hrun Hlen) as (Hsrc & Hsam & Huns).
  split; [rewrite (Hsrc Sample.source_X); vm_compute; reflexivity|].
  split; [rewrite Hsam; vm_compute; reflexivity|].
  rewrite Huns; vm_compute; reflexivity.
Defined.

Lemma reduce_merges_updates_witness :
  update_seq false SampleReport.arrays_1 (SinkProfile_new Sample.sink_Y)
  = Some SampleReport.sink_profile_1
  /\ update_seq false SampleReport.arrays_2
       (SinkProfile_new (4, Sample.source_Z))
     = Some SampleReport.sink_profile_2
  /\ update_seq false (SampleReport.arrays_1 ++ SampleReport.arrays_2)
       (SinkProfile_new Sample.sink_Y)
     = Some (reduce SampleReport.sink_profile_2 SampleReport.sink_profile_1).
Proof.
  assert (update_seq false SampleReport.arrays_1
                     (SinkProfile_new Sample.sink_Y)
          = Some SampleReport.sink_profile_1) as Hrun1
    by (vm_compute; reflexivity).
  assert (update_seq false SampleReport.arrays_2
                     (SinkProfile_new (4, Sample.source_Z))
          = Some SampleReport.sink_profile_2) as Hrun2
    by (vm_compute; reflexivity).
  split; [exact Hrun1|]. split; [exact Hrun2|].
  exact (reduce_merges_updates Sample.sink_Y (4, Sample.source_Z)
           SampleReport.arrays_1 SampleReport.arrays_2 _ _ Hrun1 Hrun2).
Defined.

Lemma slot_names_undo_update_witness :
  is_Some (update false Sample.logging_array (SinkProfile_new Sample.sink_Y))
  /\ getArrTypeStr 2 = Some "Vec"
  /\ getKeyTypeStr 1 = Some "Ints"
  /\ getValTypeStr 13 = Some "String".
Proof.
  assert (update false Sample.logging_array (SinkProfile_new Sample.sink_Y)
          = Some (default (SinkProfile_new Sample.sink_Y)
                    (update false Sample.logging_array
                            (SinkProfile_new Sample.sink_Y)))) as Hup
    by (vm_compute; reflexivity).
  split; [rewrite Hup; eexists; reflexivity|].
  refine (slot_names_undo_update Sample.logging_array _ _ Sample.source_X
            {| Sample.s_keyTypes := Sample.Ints;
               Sample.s_valueTypes := Monotype;
               Sample.s_valueDatatype := 5 |} Hup eq_refl _ _ _).
  - vm_compute. reflexivity.
  - vm_compute. discriminate.
  - intros _. vm_compute. repeat split; discriminate.
Defined.


Lemma sink_report_adds_up_witness :
  update_seq false SampleReport.arrays_1 (SinkProfile_new Sample.sink_Y)
  = Some SampleReport.sink_profile_1
  /\ SinkOutputData_new SampleReport.state_before_export
                        SampleReport.sink_profile_1
     = Some SampleReport.sink_report_1
  /\ so_weight SampleReport.sink_report_1 = 3
  /\ so_weight SampleReport.sink_report_1
     = Int.wrap64 (histogram_total
                     (td_count <$> so_arrCounts SampleReport.sink_report_1)).
Proof.
  assert (update_seq false SampleReport.arrays_1
                     (SinkProfile_new Sample.sink_Y)
          = Some SampleReport.sink_profile_1) as Hrun
    by (vm_compute; reflexivity).
  assert (SinkOutputData_new SampleReport.state_before_export
                             SampleReport.sink_profile_1
          = Some SampleReport.sink_report_1) as Hout
    by (vm_compute; reflexivity).
  split; [exact Hrun|]. split; [exact Hout|].
  split; [vm_compute; reflexivity|].
  destruct (sink_report_adds_up Sample.sink_Y SampleReport.arrays_1 _ _ _
              Hrun Hout) as (_ & _ & Harr & _).
  exact Harr.
Defined.

Lemma sortSinkData_reports_each_sink_witness :
  sortSinkData SampleReport.state_exporting = Some SampleReport.sink_reports
  /\ so_profile <$> SampleReport.sink_reports
     ≡ₚ snd <$> map_to_list (s_sinkMap SampleReport.state_exporting).
Proof.
  assert (sortSinkData SampleReport.state_exporting
          = Some SampleReport.sink_reports) as Hsort
    by (vm_compute; reflexivity).
  split; [exact Hsort|].
  exact (proj1 (sortSinkData_reports_each_sink _ _ Hsort)).
Defined.

Lemma exportSortedProfiles_writes_a_prefix_witness :
  exportSortedProfiles (sortProfileData SampleReport.state_exporting)
                       SampleReport.empty_file
  = Some (true, SampleReport.sources_section)
  /\ exists b file' rest,
       exportSortedProfiles (sortProfileData SampleReport.state_exporting)
                            SampleReport.small_file
       = Some (b, file')
       /\ written SampleReport.sources_section = written file' +:+ rest
       /\ (b = true <-> rest = EmptyString).
Proof.
  assert (exportSortedProfiles (sortProfileData SampleReport.state_exporting)
                               SampleReport.empty_file
          = Some (true, SampleReport.sources_section)) as Hfull
    by (vm_compute; reflexivity).
  split; [exact Hfull|].
  exact (proj2 (exportSortedProfiles_writes_a_prefix
                  (sortProfileData SampleReport.state_exporting)
                  EmptyString true SampleReport.sources_section Hfull)
               [100%nat; 5%nat]).
Defined.

Lemma exportSortedSinks_writes_a_prefix_witness :
  exportSortedSinks SampleReport.sink_reports SampleReport.empty_file
  = Some (true, SampleReport.sinks_section)
  /\ exists b file' rest,
       exportSortedSinks SampleReport.sink_reports SampleReport.small_file
       = Some (b, file')
       /\ written SampleReport.sinks_section = written file' +:+ rest
       /\ (b = true <-> rest = EmptyString).
Proof.
  assert (exportSortedSinks SampleReport.sink_reports SampleReport.empty_file
          = Some (true, SampleReport.sinks_section)) as Hfull
    by (vm_compute; reflexivity).
  split; [exact Hfull|].
  exact (proj2 (exportSortedSinks_writes_a_prefix SampleReport.sink_reports
                  EmptyString true SampleReport.sinks_section Hfull)
               [100%nat; 5%nat]).
Defined.

Lemma export_thread_goes_on_after_short_write_witness :
  (10 < String.length rule)%nat
  /\ export_thread SampleReport.state_exporting
       (Some {| written := EmptyString; accepts := [10%nat] |})
     = (sinks ← sortSinkData SampleReport.state_exporting;
        r ← exportSortedSinks sinks
              {| written := EmptyString +:+ String.substring 0 10 rule;
                 accepts := [] |};
        Some (Some r.2)).
Proof.
  assert (10 < String.length rule)%nat as Hn
    by (apply Nat.ltb_lt; vm_compute; reflexivity).
  split; [exact Hn|].
  exact (export_thread_goes_on_after_short_write SampleReport.state_exporting
           EmptyString 10 [] Hn).
Defined.

Lemma logged_key_survives_packing_witness :
  EventKey_make Sample.SetInt (LogIntVal 5 (TVStr false 4096))
  = Some SampleReport.key_SetInt_5_str
  /\ 0 <= toUInt64 SampleReport.key_SetInt_5_str < 2^64
  /\ EventKey_of_uint64 (toUInt64 SampleReport.key_SetInt_5_str)
     = SampleReport.key_SetInt_5_str.
Proof.
  assert (EventKey_make Sample.SetInt (LogIntVal 5 (TVStr false 4096))
          = Some SampleReport.key_SetInt_5_str) as Hmake by reflexivity.
  split; [exact Hmake|].
  destruct (@logged_key_survives_packing Sample.runtime Sample.SetInt
              (LogIntVal 5 (TVStr false 4096)) SampleReport.key_SetInt_5_str)
    as (Hrange & Hrt & _);
    [simpl; lia|reflexivity|exact Hmake
    |vm_compute; split; [discriminate|reflexivity]|].
  split; [exact Hrange|exact Hrt].
Defined.

Lemma distinct_events_have_distinct_words_witness :
  EventKey_make Sample.GetInt (LogInt 1) = Some Sample.key_GetInt_1
  /\ toUInt64 Sample.key_GetInt_1 = toUInt64 Sample.key_GetInt_1
  /\ Sample.key_GetInt_1 = Sample.key_GetInt_1.
Proof.
  assert (EventKey_make Sample.GetInt (LogInt 1) = Some Sample.key_GetInt_1)
    as Hmake by reflexivity.
  split; [exact Hmake|]. split; [reflexivity|].
  refine (@distinct_events_have_distinct_words Sample.runtime
            Sample.GetInt Sample.GetInt (LogInt 1) (LogInt 1)
            Sample.key_GetInt_1 Sample.key_GetInt_1
            _ Hmake Hmake _ _ eq_refl).
  - intros op [->| ->]; (split; [simpl; lia|reflexivity]).
  - vm_compute. split; [discriminate|reflexivity].
  - vm_compute. split; [discriminate|reflexivity].
Defined.

Lemma profiles_are_never_removed_witness :
  run SampleReport.late_calls SampleReport.state_before_export
  = Some (default State_init
                  (run SampleReport.late_calls
                       SampleReport.state_before_export))
  /\ is_Some (s_profileMap SampleReport.state_before_export
              !! Sample.source_X)
  /\ is_Some (s_profileMap
                (default State_init
                         (run SampleReport.late_calls
                              SampleReport.state_before_export))
              !! Sample.source_X).
Proof.
  assert (run SampleReport.late_calls SampleReport.state_before_export
          = Some (default State_init
                    (run SampleReport.late_calls
                         SampleReport.state_before_export))) as Hrun
    by (vm_compute; reflexivity).
  assert (is_Some (s_profileMap SampleReport.state_before_export
                   !! Sample.source_X)) as Hin
    by (vm_compute; eexists; reflexivity).
  split; [exact Hrun|]. split; [exact Hin|].
  exact (proj1 (profiles_are_never_removed SampleReport.late_calls
                  SampleReport.state_before_export _ Hrun)
               Sample.source_X Hin).
Defined.

Lemma calls_touch_only_their_profile_witness :
  exec (CallLogEvent Sample.source_X Sample.thread_at_Y Sample.GetInt
                     (LogInt 1)) SampleReport.state_before_export
  = Some (default State_init
            (exec (CallLogEvent Sample.source_X Sample.thread_at_Y
                                Sample.GetInt (LogInt 1))
                  SampleReport.state_before_export))
  /\ s_sinkMap
       (default State_init
          (exec (CallLogEvent Sample.source_X Sample.thread_at_Y
                              Sample.GetInt (LogInt 1))
                SampleReport.state_before_export))
     = s_sinkMap SampleReport.state_before_export.
Proof.
  assert (exec (CallLogEvent Sample.source_X Sample.thread_at_Y Sample.GetInt
                             (LogInt 1)) SampleReport.state_before_export
          = Some (default State_init
                    (exec (CallLogEvent Sample.source_X Sample.thread_at_Y
                                        Sample.GetInt (LogInt 1))
                          SampleReport.state_before_export))) as Hexec
    by (vm_compute; reflexivity).
  split; [exact Hexec|].
  exact (proj1 (proj1 (calls_touch_only_their_profile _ _ _ Hexec))).
Defined.

Lemma sink_weight_counts_arrays_witness :
  update_seq false SampleReport.arrays_1 (SinkProfile_new Sample.sink_Y)
  = Some SampleReport.sink_profile_1
  /\ Z.of_nat (length SampleReport.arrays_1) < 2^64
  /\ SinkOutputData_new SampleReport.state_before_export
                        SampleReport.sink_profile_1
     = Some SampleReport.sink_report_1
  /\ so_weight SampleReport.sink_report_1 = 3.
Proof.
  assert (update_seq false SampleReport.arrays_1
                     (SinkProfile_new Sample.sink_Y)
          = Some SampleReport.sink_profile_1) as Hrun
    by (vm_compute; reflexivity).
  assert (Z.of_nat (length SampleReport.arrays_1) < 2^64) as Hlen
    by (vm_compute; reflexivity).
  assert (SinkOutputData_new SampleReport.state_before_export
                             SampleReport.sink_profile_1
          = Some SampleReport.sink_report_1) as Hout
    by (vm_compute; reflexivity).
  split; [exact Hrun|]. split; [exact Hlen|]. split; [exact Hout|].
  rewrite (sink_weight_counts_arrays Sample.sink_Y SampleReport.arrays_1 _ _ _
             Hrun Hlen Hout).
  vm_compute. reflexivity.
Defined.

End FurtherChecks.
